(** * NaviHive worker: bearer tokens, the auth gate and batch reordering

    A shallow embedding of the access-control and order-persistence code of
    the NaviHive Cloudflare worker:

    - [NavigationAPI] (src/api/http.ts): [login], [verifyToken],
      [generateToken], [updateGroupOrder], [updateSiteOrder];
    - the worker's [fetch] handler: the authentication middleware and the
      [group-orders] / [site-orders] routes;
    - further on, the browser client [NavigationClient], the validators of
      the worker with the login, group and configuration routes, the
      statements of [updateGroup] and [updateSite], the mock client of the
      development environment, and the handlers of the screen that build
      what the client sends.

    JavaScript strings are sequences of UTF-16 code units, so they are lists
    of integers here; the platform functions the code calls ([split], [atob],
    [btoa], [JSON.parse], [JSON.stringify], property access, truthiness, the
    [<] comparison) are written out after ECMA-262 and the WHATWG
    forgiving-base64 algorithms.  An exception is [None] in the [option]
    monad; [try]/[catch] is a [match] on it. *)

From Stdlib Require Import ZArith List Ascii String Lia DecimalString.
From Stdlib Require DecimalPos DecimalN.
From stdpp Require Import gmap list option.

Local Open Scope Z_scope.
#[local] Set Warnings "-register-all".

(** ** JavaScript strings *)

Module JS.

(** A string is its sequence of UTF-16 code units (each in [0, 65535]). *)
Definition jsstring := list Z.

(** ASCII literal to code units. *)
Definition js (s : string) : jsstring :=
  map (fun a => Z.of_N (N_of_ascii a)) (list_ascii_of_string s).

Definition str_eqb (a b : jsstring) : bool := bool_decide (a = b).

(** [!s] for a string: only the empty string is falsy. *)
Definition is_empty (s : jsstring) : bool :=
  match s with [] => true | _ => false end.

(** [!x] for a string that may be [undefined] or [null]. *)
Definition missing (x : option jsstring) : bool :=
  match x with
  | Some (_ :: _) => false
  | Some [] | None => true
  end.

(** [s.split(sep)] for a one-character separator: the pieces between the
    separators, an empty string giving one empty piece. *)
Fixpoint split (sep : Z) (s : jsstring) : list jsstring :=
  match s with
  | [] => [[]]
  | c :: r =>
      if c =? sep then [] :: split sep r
      else match split sep r with
           | seg :: segs => (c :: seg) :: segs
           | [] => [[c]]
           end
  end.

(** [s.replace(/c/g, d)] for single characters. *)
Definition replace_all (c d : Z) (s : jsstring) : jsstring :=
  map (fun x => if x =? c then d else x) s.

(** [s.replace(/c+$/, "")]: the trailing run of [c] removed. *)
Fixpoint strip_trailing (c : Z) (s : jsstring) : jsstring :=
  match s with
  | [] => []
  | x :: r =>
      match strip_trailing c r with
      | [] => if x =? c then [] else [x]
      | r' => x :: r'
      end
  end.

(** [sep]-joined concatenation, as [Array.prototype.join]. *)
Fixpoint join (sep : jsstring) (l : list jsstring) : jsstring :=
  match l with
  | [] => []
  | [x] => x
  | x :: r => x ++ sep ++ join sep r
  end.

(** A string [btoa] accepts: every code unit lies between 0 and U+00FF. *)
Definition latin1 (s : jsstring) : bool :=
  forallb (fun c => (0 <=? c) && (c <=? 255)) s.

(** ** Base64 ([btoa] and [atob]) *)

Definition b64_char (i : Z) : Z :=
  if i <? 26 then 65 + i
  else if i <? 52 then 97 + (i - 26)
  else if i <? 62 then 48 + (i - 52)
  else if i =? 62 then 43
  else 47.

Definition b64_index (c : Z) : option Z :=
  if (65 <=? c) && (c <=? 90) then Some (c - 65)
  else if (97 <=? c) && (c <=? 122) then Some (c - 97 + 26)
  else if (48 <=? c) && (c <=? 57) then Some (c - 48 + 52)
  else if c =? 43 then Some 62
  else if c =? 47 then Some 63
  else None.

Fixpoint b64_encode (s : list Z) : jsstring :=
  match s with
  | [] => []
  | [a] =>
      [b64_char (Z.shiftr a 2); b64_char (Z.shiftl (Z.land a 3) 4); 61; 61]
  | [a; b] =>
      [b64_char (Z.shiftr a 2);
       b64_char (Z.lor (Z.shiftl (Z.land a 3) 4) (Z.shiftr b 4));
       b64_char (Z.shiftl (Z.land b 15) 2); 61]
  | a :: b :: c :: r =>
      b64_char (Z.shiftr a 2)
      :: b64_char (Z.lor (Z.shiftl (Z.land a 3) 4) (Z.shiftr b 4))
      :: b64_char (Z.lor (Z.shiftl (Z.land b 15) 2) (Z.shiftr c 6))
      :: b64_char (Z.land c 63)
      :: b64_encode r
  end.

(** [btoa(data)]: throws (InvalidCharacterError) when [data] holds a code
    unit above U+00FF, else the padded base64 text of the bytes. *)
Definition btoa (data : jsstring) : option jsstring :=
  if latin1 data then Some (b64_encode data) else None.

Fixpoint b64_decode (l : list Z) : jsstring :=
  match l with
  | a :: b :: c :: d :: r =>
      Z.lor (Z.shiftl a 2) (Z.shiftr b 4)
      :: Z.lor (Z.shiftl (Z.land b 15) 4) (Z.shiftr c 2)
      :: Z.lor (Z.shiftl (Z.land c 3) 6) d
      :: b64_decode r
  | [a; b; c] =>
      [Z.lor (Z.shiftl a 2) (Z.shiftr b 4);
       Z.lor (Z.shiftl (Z.land b 15) 4) (Z.shiftr c 2)]
  | [a; b] => [Z.lor (Z.shiftl a 2) (Z.shiftr b 4)]
  | _ => []
  end.

Definition is_ascii_whitespace (c : Z) : bool :=
  (c =? 9) || (c =? 10) || (c =? 12) || (c =? 13) || (c =? 32).

(** One or two trailing [=] removed (step 2 of forgiving-base64 decode). *)
Definition strip_padding (d : jsstring) : jsstring :=
  match rev d with
  | 61 :: 61 :: r => rev r
  | 61 :: r => rev r
  | _ => d
  end.

(** [atob(data)], the forgiving-base64 decode: ASCII whitespace is dropped;
    padding is dropped when the length is a multiple of four; a length of
    1 modulo 4 or a character outside the alphabet throws; left-over bits
    of the last group are discarded. *)
Definition atob (data : jsstring) : option jsstring :=
  let d := List.filter (fun c => negb (is_ascii_whitespace c)) data in
  let d := if Z.of_nat (length d) mod 4 =? 0 then strip_padding d else d in
  if Z.of_nat (length d) mod 4 =? 1 then None
  else idx ← mapM b64_index d; Some (b64_decode idx).

(** ** Numbers

    A number is modelled by the exact value a decimal literal denotes: an
    integer, or the non-integer [m / 10^k] in lowest decimal terms ([m] not a
    multiple of ten).  Integers below 2^53 in magnitude, which is what the
    code computes with, are exactly the double-precision values; the
    rounding of longer literals is outside the model. *)
Inductive number :=
| Int (z : Z)
| Frac (m : Z) (k : positive).

(** [m / 10^k] in lowest terms. *)
Fixpoint reduce (k : nat) (m : Z) : number :=
  match k with
  | O => Int m
  | S k' =>
      if m mod 10 =? 0 then reduce k' (m / 10)
      else Frac m (Pos.of_succ_nat k')
  end.

(** [m * 10^e]. *)
Definition scaled (m e : Z) : number :=
  if 0 <=? e then Int (m * 10 ^ e) else reduce (Z.to_nat (- e)) m.

Definition is_zero (n : number) : bool :=
  match n with Int z => z =? 0 | Frac _ _ => false end.

(** [n < z] for a number and an integer. *)
Definition lt_number (n : number) (z : Z) : bool :=
  match n with
  | Int a => a <? z
  | Frac m k => m <? z * 10 ^ Z.pos k
  end.

(** What [ToNumber] can give: a finite number, an infinity or NaN. *)
Inductive numeric :=
| Finite (n : number)
| PosInf
| NegInf
| NaN.

Definition lt_numeric (x : numeric) (z : Z) : bool :=
  match x with
  | Finite n => lt_number n z
  | NegInf => true
  | PosInf | NaN => false
  end.

Definition is_digit (c : Z) : bool := (48 <=? c) && (c <=? 57).

(** The leading run of decimal digits (as digit values) and what follows. *)
Fixpoint take_digits (s : jsstring) : list Z * jsstring :=
  match s with
  | c :: r =>
      if is_digit c then let '(ds, rest) := take_digits r in (c - 48 :: ds, rest)
      else ([], s)
  | [] => ([], [])
  end.

Definition digits_value (base : Z) (ds : list Z) : Z :=
  fold_left (fun acc d => acc * base + d) ds 0.

(** An exponent part after its [e]: an optional sign and at least one
    digit, up to the end of the text. *)
Definition exponent_part (s : jsstring) : option Z :=
  let '(neg, s1) :=
    match s with
    | 45 :: r => (true, r)
    | 43 :: r => (false, r)
    | _ => (false, s)
    end in
  match take_digits s1 with
  | (d :: ds, []) =>
      let v := digits_value 10 (d :: ds) in Some (if neg then - v else v)
  | _ => None
  end.

Definition optional_exponent (s : jsstring) : option Z :=
  match s with
  | [] => Some 0
  | c :: r => if (c =? 101) || (c =? 69) then exponent_part r else None
  end.

(** A JSON number: an optional minus sign, an integer part without a
    leading zero (unless it is the single digit 0), an optional fraction of
    at least one digit, an optional exponent.  The result is the exact
    value of the numeral; [JSON.parse] gives the double nearest to it,
    which is the same number when a double holds it exactly, as it does
    every integer up to 2^53 in magnitude. *)
Definition json_number (s : jsstring) : option number :=
  let '(neg, s1) := match s with 45 :: r => (true, r) | _ => (false, s) end in
  match take_digits s1 with
  | ([], _) => None
  | (d :: ds, s2) =>
      if (d =? 0) && negb (is_empty ds) then None
      else
        '(fs, s3) ← match s2 with
                    | 46 :: r =>
                        match take_digits r with
                        | ([], _) => None
                        | (f :: fs, r') => Some (f :: fs, r')
                        end
                    | _ => Some ([], s2)
                    end;
        e ← optional_exponent s3;
        let m := digits_value 10 ((d :: ds) ++ fs) in
        Some (scaled (if neg then - m else m) (e - Z.of_nat (length fs)))
  end.

(** ** JSON values *)

Inductive json :=
| JNull
| JBool (b : bool)
| JNum (n : number)
| JStr (s : jsstring)
| JArr (items : list json)
| JObj (members : list (jsstring * json)).

(** A JavaScript value read from a JSON value: a property that is absent
    reads as [undefined]. *)
Inductive jsvalue :=
| Undefined
| Val (v : json).

(** *** [JSON.parse] *)

Inductive token :=
| TLBrace | TRBrace | TLBracket | TRBracket | TComma | TColon
| TString (s : jsstring)
| TWord (w : jsstring).

Inductive lex_mode :=
| LTop
| LWord (acc : jsstring)
| LStr (acc : jsstring)
| LEsc (acc : jsstring)
| LUni (acc : jsstring) (todo : nat) (v : Z).

Definition is_json_whitespace (c : Z) : bool :=
  (c =? 9) || (c =? 10) || (c =? 13) || (c =? 32).

Definition punctuation (c : Z) : option token :=
  if c =? 123 then Some TLBrace
  else if c =? 125 then Some TRBrace
  else if c =? 91 then Some TLBracket
  else if c =? 93 then Some TRBracket
  else if c =? 44 then Some TComma
  else if c =? 58 then Some TColon
  else None.

Definition hex_value (c : Z) : option Z :=
  if is_digit c then Some (c - 48)
  else if (97 <=? c) && (c <=? 102) then Some (c - 87)
  else if (65 <=? c) && (c <=? 70) then Some (c - 55)
  else None.

Definition escape_char (c : Z) : option Z :=
  if c =? 34 then Some 34
  else if c =? 92 then Some 92
  else if c =? 47 then Some 47
  else if c =? 98 then Some 8
  else if c =? 102 then Some 12
  else if c =? 110 then Some 10
  else if c =? 114 then Some 13
  else if c =? 116 then Some 9
  else None.

(** The lexer: one pass over the code units, tokens collected in reverse.
    A word is a maximal run of characters that are neither whitespace,
    punctuation nor a quote; it must later read as a literal or a number. *)
Fixpoint lex (m : lex_mode) (out : list token) (s : jsstring)
  : option (list token) :=
  match s with
  | [] =>
      match m with
      | LTop => Some (rev out)
      | LWord acc => Some (rev (TWord (rev acc) :: out))
      | _ => None
      end
  | c :: r =>
      match m with
      | LTop =>
          if is_json_whitespace c then lex LTop out r
          else match punctuation c with
               | Some t => lex LTop (t :: out) r
               | None => if c =? 34 then lex (LStr []) out r
                         else lex (LWord [c]) out r
               end
      | LWord acc =>
          if is_json_whitespace c then lex LTop (TWord (rev acc) :: out) r
          else match punctuation c with
               | Some t => lex LTop (t :: TWord (rev acc) :: out) r
               | None => if c =? 34 then lex (LStr []) (TWord (rev acc) :: out) r
                         else lex (LWord (c :: acc)) out r
               end
      | LStr acc =>
          if c =? 34 then lex LTop (TString (rev acc) :: out) r
          else if c =? 92 then lex (LEsc acc) out r
          else if c <? 32 then None
          else lex (LStr (c :: acc)) out r
      | LEsc acc =>
          if c =? 117 then lex (LUni acc 4 0) out r
          else match escape_char c with
               | Some e => lex (LStr (e :: acc)) out r
               | None => None
               end
      | LUni acc todo v =>
          match hex_value c with
          | Some h =>
              match todo with
              | 1%nat => lex (LStr (v * 16 + h :: acc)) out r
              | S todo' => lex (LUni acc todo' (v * 16 + h)) out r
              | O => None
              end
          | None => None
          end
      end
  end.

Definition word_value (w : jsstring) : option json :=
  if str_eqb w (js "true") then Some (JBool true)
  else if str_eqb w (js "false") then Some (JBool false)
  else if str_eqb w (js "null") then Some JNull
  else JNum <$> json_number w.

(** The parser: a stack machine over the tokens.  A frame is an enclosing
    array or object waiting for the value being read. *)
Inductive frame :=
| FArr (acc : list json)
| FObj (acc : list (jsstring * json)) (key : jsstring).

Inductive pstate :=
| PValue (stk : list frame)
| PArrStart (stk : list frame)
| PArrNext (acc : list json) (stk : list frame)
| PObjStart (stk : list frame)
| PKey (acc : list (jsstring * json)) (stk : list frame)
| PColon (acc : list (jsstring * json)) (key : jsstring) (stk : list frame)
| PObjNext (acc : list (jsstring * json)) (stk : list frame)
| PDone (v : json).

(** A value is complete: hand it to the enclosing frame. *)
Definition complete (v : json) (stk : list frame) : pstate :=
  match stk with
  | [] => PDone v
  | FArr acc :: s => PArrNext (v :: acc) s
  | FObj acc k :: s => PObjNext ((k, v) :: acc) s
  end.

Definition start_value (t : token) (stk : list frame) : option pstate :=
  match t with
  | TString s => Some (complete (JStr s) stk)
  | TWord w => v ← word_value w; Some (complete v stk)
  | TLBracket => Some (PArrStart stk)
  | TLBrace => Some (PObjStart stk)
  | _ => None
  end.

Definition pstep (st : pstate) (t : token) : option pstate :=
  match st with
  | PValue stk => start_value t stk
  | PArrStart stk =>
      match t with
      | TRBracket => Some (complete (JArr []) stk)
      | _ => start_value t (FArr [] :: stk)
      end
  | PArrNext acc stk =>
      match t with
      | TComma => Some (PValue (FArr acc :: stk))
      | TRBracket => Some (complete (JArr (rev acc)) stk)
      | _ => None
      end
  | PObjStart stk =>
      match t with
      | TString k => Some (PColon [] k stk)
      | TRBrace => Some (complete (JObj []) stk)
      | _ => None
      end
  | PKey acc stk =>
      match t with
      | TString k => Some (PColon acc k stk)
      | _ => None
      end
  | PColon acc k stk =>
      match t with
      | TColon => Some (PValue (FObj acc k :: stk))
      | _ => None
      end
  | PObjNext acc stk =>
      match t with
      | TComma => Some (PKey acc stk)
      | TRBrace => Some (complete (JObj (rev acc)) stk)
      | _ => None
      end
  | PDone _ => None
  end.

Fixpoint prun (st : pstate) (ts : list token) : option json :=
  match ts with
  | [] => match st with PDone v => Some v | _ => None end
  | t :: r => st' ← pstep st t; prun st' r
  end.

(** [JSON.parse(text)]; [None] is the SyntaxError it throws. *)
Definition JSON_parse (text : jsstring) : option json :=
  ts ← lex LTop [] text; prun (PValue []) ts.

(** *** Numbers as text *)

(** The decimal digits of a natural number, as code units. *)
Definition digits_of (n : Z) : jsstring :=
  js (NilZero.string_of_uint (N.to_uint (Z.to_N n))).

Definition zeros (n : nat) : jsstring := repeat 48 n.

(** The digits of a positive integer without its trailing zeros, and the
    number of zeros removed. *)
Definition significant (ds : jsstring) : jsstring * nat :=
  let sig := strip_trailing 48 ds in (sig, (length ds - length sig)%nat).

(** [Number::toString] on the significant digits [ds] of a positive value
    whose decimal point stands after digit [n] (ECMA-262 6.1.6.1.20). *)
Definition place_digits (ds : jsstring) (n : Z) : jsstring :=
  let k := Z.of_nat (length ds) in
  if (k <=? n) && (n <=? 21) then ds ++ zeros (Z.to_nat (n - k))
  else if (0 <? n) && (n <=? 21) then
    take (Z.to_nat n) ds ++ [46] ++ drop (Z.to_nat n) ds
  else if (-6 <? n) && (n <=? 0) then
    [48; 46] ++ zeros (Z.to_nat (- n)) ++ ds
  else
    let e := n - 1 in
    let mant := match ds with
                | [d] => [d]
                | d :: rest => d :: 46 :: rest
                | [] => []
                end in
    mant ++ [101] ++ (if e <? 0 then [45] else [43]) ++ digits_of (Z.abs e).

Definition number_to_string (x : number) : jsstring :=
  match x with
  | Int z =>
      if z =? 0 then [48]
      else
        let '(sig, _) := significant (digits_of (Z.abs z)) in
        (if z <? 0 then [45] else [])
          ++ place_digits sig (Z.of_nat (length (digits_of (Z.abs z))))
  | Frac m k =>
      let ds := digits_of (Z.abs m) in
      (if m <? 0 then [45] else [])
        ++ place_digits ds (Z.of_nat (length ds) - Z.pos k)
  end.

(** White space and line terminators that [ToNumber] trims from a string. *)
Definition is_str_whitespace (c : Z) : bool :=
  ((9 <=? c) && (c <=? 13)) || (c =? 32) || (c =? 160) || (c =? 5760)
  || ((8192 <=? c) && (c <=? 8202)) || (c =? 8232) || (c =? 8233)
  || (c =? 8239) || (c =? 8287) || (c =? 12288) || (c =? 65279).

Fixpoint drop_while (p : Z -> bool) (s : jsstring) : jsstring :=
  match s with
  | c :: r => if p c then drop_while p r else s
  | [] => []
  end.

Definition trim (s : jsstring) : jsstring :=
  rev (drop_while is_str_whitespace (rev (drop_while is_str_whitespace s))).

Definition radix_digit (base c : Z) : option Z :=
  d ← hex_value c; if d <? base then Some d else None.

Definition radix_literal (base : Z) (s : jsstring) : numeric :=
  match s with
  | [] => NaN
  | _ => match mapM (radix_digit base) s with
         | Some ds => Finite (Int (digits_value base ds))
         | None => NaN
         end
  end.

(** An unsigned [StrDecimalLiteral] other than [Infinity]: digits with an
    optional fraction, or a fraction alone, and an optional exponent. *)
Definition unsigned_decimal (s : jsstring) : option number :=
  let '(ip, s1) := take_digits s in
  let '(fp, s2, dot) :=
    match s1 with
    | 46 :: r => let '(f, r') := take_digits r in (f, r', true)
    | _ => ([], s1, false)
    end in
  if is_empty ip && is_empty fp then None
  else e ← optional_exponent s2;
       Some (scaled (digits_value 10 (ip ++ fp)) (e - Z.of_nat (length fp))).

Definition negate (n : number) : number :=
  match n with Int z => Int (- z) | Frac m k => Frac (- m) k end.

(** [StringToNumber]: the number a string converts to. *)
Definition string_to_number (s : jsstring) : numeric :=
  let t := trim s in
  if is_empty t then Finite (Int 0)
  else
    match t with
    | 48 :: x :: r =>
        if (x =? 120) || (x =? 88) then radix_literal 16 r
        else if (x =? 111) || (x =? 79) then radix_literal 8 r
        else if (x =? 98) || (x =? 66) then radix_literal 2 r
        else from_option Finite NaN (unsigned_decimal t)
    | 45 :: r =>
        if str_eqb r (js "Infinity") then NegInf
        else from_option (fun n => Finite (negate n)) NaN (unsigned_decimal r)
    | 43 :: r =>
        if str_eqb r (js "Infinity") then PosInf
        else from_option Finite NaN (unsigned_decimal r)
    | _ =>
        if str_eqb t (js "Infinity") then PosInf
        else from_option Finite NaN (unsigned_decimal t)
    end.

(** *** Reading values *)

(** The own property [k] of an object parsed from JSON: of several members
    with one name the last one stands. *)
Fixpoint own_property (k : jsstring) (l : list (jsstring * json)) : jsvalue :=
  match l with
  | [] => Undefined
  | (k', v) :: r =>
      match own_property k r with
      | Undefined => if str_eqb k k' then Val v else Undefined
      | found => found
      end
  end.

(** [v.k] for a property name [k] that no prototype defines and that is
    neither an index nor [length]: reading it from [null] throws a
    TypeError, the other primitives and arrays give [undefined]. *)
Definition get (v : json) (k : jsstring) : option jsvalue :=
  match v with
  | JNull => None
  | JObj l => Some (own_property k l)
  | _ => Some Undefined
  end.

(** Truthiness ([ToBoolean]). *)
Definition truthy (x : jsvalue) : bool :=
  match x with
  | Undefined => false
  | Val JNull => false
  | Val (JBool b) => b
  | Val (JNum n) => negb (is_zero n)
  | Val (JStr s) => negb (is_empty s)
  | Val (JArr _) | Val (JObj _) => true
  end.

(** [typeof x === "number"]. *)
Definition is_number (x : jsvalue) : bool :=
  match x with Val (JNum _) => true | _ => false end.

Definition has_own (k : jsstring) (l : list (jsstring * json)) : bool :=
  existsb (fun kv => str_eqb k (fst kv)) l.

(** [ToString] (and [ToPrimitive] of an array or object): an array joins
    its elements with commas, [null] elements reading as empty; an object
    is ["[object Object]"], unless an own [toString] member, which is never
    callable, hides the inherited method: then the conversion throws. *)
Fixpoint to_string (v : json) : option jsstring :=
  match v with
  | JNull => Some (js "null")
  | JBool b => Some (js (if b then "true" else "false"))
  | JNum n => Some (number_to_string n)
  | JStr s => Some s
  | JArr l =>
      join [44] <$>
        (fix elems (l : list json) : option (list jsstring) :=
           match l with
           | [] => Some []
           | x :: r =>
               s ← match x with JNull => Some [] | _ => to_string x end;
               ss ← elems r;
               Some (s :: ss)
           end) l
  | JObj l =>
      if has_own (js "toString") l then None else Some (js "[object Object]")
  end.

(** [ToNumber] of a value, as the relational comparison does it. *)
Definition to_number (x : jsvalue) : option numeric :=
  match x with
  | Undefined => Some NaN
  | Val JNull => Some (Finite (Int 0))
  | Val (JBool b) => Some (Finite (Int (if b then 1 else 0)))
  | Val (JNum n) => Some (Finite n)
  | Val (JStr s) => Some (string_to_number s)
  | Val v => string_to_number <$> to_string v
  end.

(** [x < z] for a value [x] and an integer [z]; [None] is a TypeError. *)
Definition less_than (x : jsvalue) (z : Z) : option bool :=
  n ← to_number x; Some (lt_numeric n z).

(** *** [JSON.stringify] *)

Definition hex_char (d : Z) : Z := if d <? 10 then 48 + d else 87 + d.

Definition unicode_escape (c : Z) : jsstring :=
  [92; 117; hex_char (Z.land (Z.shiftr c 12) 15);
   hex_char (Z.land (Z.shiftr c 8) 15); hex_char (Z.land (Z.shiftr c 4) 15);
   hex_char (Z.land c 15)].

Definition is_high_surrogate (c : Z) : bool := (55296 <=? c) && (c <=? 56319).
Definition is_low_surrogate (c : Z) : bool := (56320 <=? c) && (c <=? 57343).

(** The body of [QuoteJSONString]. *)
Fixpoint quote_chars (s : jsstring) : jsstring :=
  match s with
  | [] => []
  | c :: r =>
      if c =? 8 then 92 :: 98 :: quote_chars r
      else if c =? 9 then 92 :: 116 :: quote_chars r
      else if c =? 10 then 92 :: 110 :: quote_chars r
      else if c =? 12 then 92 :: 102 :: quote_chars r
      else if c =? 13 then 92 :: 114 :: quote_chars r
      else if c =? 34 then 92 :: 34 :: quote_chars r
      else if c =? 92 then 92 :: 92 :: quote_chars r
      else if c <? 32 then unicode_escape c ++ quote_chars r
      else if is_high_surrogate c then
        match r with
        | l :: r' =>
            if is_low_surrogate l then c :: l :: quote_chars r'
            else unicode_escape c ++ quote_chars r
        | [] => unicode_escape c
        end
      else if is_low_surrogate c then unicode_escape c ++ quote_chars r
      else c :: quote_chars r
  end.

Definition quote (s : jsstring) : jsstring := [34] ++ quote_chars s ++ [34].

(** [JSON.stringify(v)] without indentation; the members of an object in
    their insertion order. *)
Fixpoint JSON_stringify (v : json) : jsstring :=
  match v with
  | JNull => js "null"
  | JBool b => js (if b then "true" else "false")
  | JNum n => number_to_string n
  | JStr s => quote s
  | JArr l => [91] ++ join [44] (map JSON_stringify l) ++ [93]
  | JObj l =>
      [123]
        ++ join [44]
             (map (fun kv => quote (fst kv) ++ [58] ++ JSON_stringify (snd kv)) l)
        ++ [125]
  end.

(** Assignment of a property of an object literal: a present name keeps
    its place and takes the new value, a new name is appended (the names
    are not array indices, which JavaScript would enumerate first). *)
Fixpoint set_property (k : jsstring) (v : json) (l : list (jsstring * json))
  : list (jsstring * json) :=
  match l with
  | [] => [(k, v)]
  | (k', v') :: r =>
      if str_eqb k k' then (k, v) :: r else (k', v') :: set_property k v r
  end.

End JS.

Import JS.

(** ** The storage collaborator (D1) *)

Module D1.

(** The rows of the [groups] and [sites] tables, keyed by their integer
    primary key [id]; timestamps are readings of the storage clock. *)
Record Group := {
  g_name : jsstring;
  g_order_num : number;
  g_created_at : Z;
  g_updated_at : Z
}.

Record Site := {
  s_group_id : Z;
  s_name : jsstring;
  s_url : jsstring;
  s_icon : jsstring;
  s_description : jsstring;
  s_notes : jsstring;
  s_order_num : number;
  s_created_at : Z;
  s_updated_at : Z
}.

Record Database := {
  groups : gmap Z Group;
  sites : gmap Z Site
}.

(** The two statements the reordering code prepares:
    [UPDATE groups SET order_num = ?, updated_at = CURRENT_TIMESTAMP WHERE id = ?]
    and the same on [sites]. *)
Inductive sql :=
| UPDATE_groups_order
| UPDATE_sites_order.

(** [prepare(sql).bind(order_num, id)]. *)
Record statement := bind {
  query : sql;
  bound_order_num : number;
  bound_id : number
}.

Definition touch_group (o : number) (ts : Z) (g : Group) : Group :=
  {| g_name := g_name g; g_order_num := o;
     g_created_at := g_created_at g; g_updated_at := ts |}.

Definition touch_site (o : number) (ts : Z) (x : Site) : Site :=
  {| s_group_id := s_group_id x; s_name := s_name x; s_url := s_url x;
     s_icon := s_icon x; s_description := s_description x;
     s_notes := s_notes x; s_order_num := o;
     s_created_at := s_created_at x; s_updated_at := ts |}.

(** Modelled from the spec: the SQL engine that runs the statement is not
    part of the sources; the spec says that "updating a nonexistent row is
    a no-op row-count of zero for that statement".  One
    [UPDATE ... WHERE id = ?]: the row with that key, when there is one,
    takes the new [order_num] and the current timestamp; a bound id that is
    no integer, or the key of no row, matches nothing. *)
Definition execute (ts : Z) (st : statement) (db : Database) : Database :=
  match bound_id st with
  | Int i =>
      match query st with
      | UPDATE_groups_order =>
          {| groups := alter (touch_group (bound_order_num st) ts) i (groups db);
             sites := sites db |}
      | UPDATE_sites_order =>
          {| groups := groups db;
             sites := alter (touch_site (bound_order_num st) ts) i (sites db) |}
      end
  | Frac _ _ => db
  end.

Definition execute_all (ts : Z) (stmts : list statement) (db : Database)
  : Database :=
  fold_left (fun d st => execute ts st d) stmts db.

(** What the storage does with one batch: it commits, or an error occurs
    when [done] of its statements have run. *)
Inductive outcome :=
| Commits
| Aborts (done : nat).

(** Modelled from the spec: the storage engine behind [D1Database.batch]
    is not part of the sources (only its interface is declared); the spec
    describes batch-execute as "a storage primitive that applies a set of
    statements as one transaction, succeeding or failing as a unit".  The
    statements run in order inside a transaction; on an error the
    transaction is rolled back, the stored state is the one before the
    batch and the returned promise rejects ([false]); otherwise the state
    after the last statement is committed and the promise resolves. *)
Definition batch (o : outcome) (ts : Z) (stmts : list statement)
    (db : Database) : Database * bool :=
  match o with
  | Commits => (execute_all ts stmts db, true)
  | Aborts done =>
      let in_transaction := execute_all ts (take done stmts) db in
      let rolled_back := db in
      (rolled_back, false)
  end.

(** The calls the API makes on its database handle, for the record. *)
Inductive call :=
| Batch (stmts : list statement).

(** The database handle: the stored state and the calls made so far. *)
Record Handle := {
  store : Database;
  calls : list call
}.

Definition call_batch (o : outcome) (ts : Z) (stmts : list statement)
    (h : Handle) : Handle * bool :=
  let '(db', ok) := batch o ts stmts (store h) in
  ({| store := db'; calls := calls h ++ [Batch stmts] |}, ok).

End D1.

(** ** [NavigationAPI] (src/api/http.ts) *)

Module NavigationAPI.

Import D1.

Record Env := {
  AUTH_ENABLED : option jsstring;
  AUTH_USERNAME : option jsstring;
  AUTH_PASSWORD : option jsstring;
  AUTH_SECRET : option jsstring
}.

(** The secret used when [AUTH_SECRET] is not set: the fifteen characters
    of the source's default text, all of them outside Latin-1. *)
Definition default_secret : jsstring :=
  [40664; 35748; 23494; 38053; 65292; 24314; 35758; 22312; 29983; 20135;
   29615; 22659; 20013; 35774; 32622].

Record API := {
  authEnabled : bool;
  username : jsstring;
  password : jsstring;
  secret : jsstring
}.

(** [x || d] for an optional string: [undefined] and the empty string are
    falsy. *)
Definition or_default (x : option jsstring) (d : jsstring) : jsstring :=
  match x with
  | Some (c :: r) => c :: r
  | _ => d
  end.

Definition constructor (env : Env) : API :=
  {| authEnabled := bool_decide (AUTH_ENABLED env = Some (js "true"));
     username := or_default (AUTH_USERNAME env) [];
     password := or_default (AUTH_PASSWORD env) [];
     secret := or_default (AUTH_SECRET env) default_secret |}.

Record LoginRequest := {
  req_username : jsstring;
  req_password : jsstring
}.

(** The three messages of [login]; their texts say, in this order:
    "authentication is not enabled, logged in by default", "logged in",
    "wrong user name or password". *)
Inductive login_message :=
| MsgAuthDisabled
| MsgLoggedIn
| MsgBadCredentials.

Record LoginResponse := {
  success : bool;
  token : option jsstring;
  message : login_message
}.

(** [btoa(x).replace(/\+/g, "-").replace(/\//g, "_").replace(/=+$/, "")]. *)
Definition base64url (x : jsstring) : option jsstring :=
  b ← btoa x;
  Some (strip_trailing 61 (replace_all 47 95 (replace_all 43 45 b))).

Definition jwt_header : json :=
  JObj [(js "alg", JStr (js "HS256")); (js "typ", JStr (js "JWT"))].

(** [generateToken(payload)].  [t1] and [t2] are the two readings of
    [Date.now()] (milliseconds), taken for [exp] and for [iat] in this
    order; [None] is an exception thrown by [btoa]. *)
Definition generateToken (this : API) (t1 t2 : Z)
    (payload : list (jsstring * json)) : option jsstring :=
  let tokenPayload :=
    set_property (js "iat") (JNum (Int (t2 / 1000)))
      (set_property (js "exp") (JNum (Int (t1 / 1000 + 24 * 60 * 60)))
         payload) in
  encodedHeader ← base64url (JSON_stringify jwt_header);
  encodedPayload ← base64url (JSON_stringify (JObj tokenPayload));
  signature ← base64url (secret this ++ encodedHeader ++ encodedPayload);
  Some (encodedHeader ++ [46] ++ encodedPayload ++ [46] ++ signature).

(** [login(loginRequest)]; [None] is an exception of [generateToken]. *)
Definition login (this : API) (t1 t2 : Z) (loginRequest : LoginRequest)
  : option LoginResponse :=
  if negb (authEnabled this) then
    tok ← generateToken this t1 t2 [(js "username", JStr (js "guest"))];
    Some {| success := true; token := Some tok; message := MsgAuthDisabled |}
  else if str_eqb (req_username loginRequest) (username this)
          && str_eqb (req_password loginRequest) (password this) then
    tok ← generateToken this t1 t2
            [(js "username", JStr (req_username loginRequest))];
    Some {| success := true; token := Some tok; message := MsgLoggedIn |}
  else
    Some {| success := false; token := None; message := MsgBadCredentials |}.

Record VerifyResult := {
  valid : bool;
  payload : option json
}.

(** The body of the [try] block of [verifyToken]; [None] is any exception
    thrown inside it.  [now] is [Date.now()] in milliseconds. *)
Definition verifyToken_try (now : Z) (token : jsstring) : option json :=
  let parts := split 46 token in
  let header := parts !! 0%nat in
  let payload := parts !! 1%nat in
  let signature := parts !! 2%nat in
  if missing header || missing payload || missing signature then None
  else
    text ← atob (replace_all 95 47 (replace_all 45 43 (default [] payload)));
    decodedPayload ← JSON_parse text;
    exp ← get decodedPayload (js "exp");
    match (if truthy exp then less_than exp (now / 1000) else Some false) with
    | Some false => Some decodedPayload
    | Some true | None => None
    end.

(** [verifyToken(token)]. *)
Definition verifyToken (this : API) (now : Z) (token : jsstring)
  : VerifyResult :=
  if negb (authEnabled this) then {| valid := true; payload := None |}
  else
    match verifyToken_try now token with
    | Some decodedPayload =>
        {| valid := true; payload := Some decodedPayload |}
    | None => {| valid := false; payload := None |}
    end.

Definition isAuthEnabled (this : API) : bool := authEnabled this.

Record OrderItem := {
  id : number;
  order_num : number
}.

(** [updateGroupOrder(groupOrders)]: one batch of one bound statement per
    item; [true] when the batch resolves, [false] when it rejects. *)
Definition updateGroupOrder (o : outcome) (ts : Z)
    (groupOrders : list OrderItem) (db : Handle) : Handle * bool :=
  call_batch o ts
    (map (fun item => bind UPDATE_groups_order (order_num item) (id item))
       groupOrders)
    db.

Definition updateSiteOrder (o : outcome) (ts : Z)
    (siteOrders : list OrderItem) (db : Handle) : Handle * bool :=
  call_batch o ts
    (map (fun item => bind UPDATE_sites_order (order_num item) (id item))
       siteOrders)
    db.

End NavigationAPI.

(** ** The worker's [fetch] handler *)

Module Worker.

Import D1 NavigationAPI.

Record Request := {
  path : jsstring;
  method : jsstring;
  Authorization : option jsstring
}.

(** The texts of the responses below say, in this order: "please log in
    first", "invalid authentication information", "authentication expired
    or invalid, please log in again", "the order data must be an array",
    "invalid order data, every item must contain id and order_num", "an
    error occurred while handling the request". *)
Inductive text :=
| PleaseLogin
| InvalidAuthInfo
| ExpiredOrInvalid
| OrdersNotArray
| OrderItemInvalid
| RequestFailed.

Inductive Body :=
| Plain (t : text)
| Failure (t : text)
| Success (result : bool).

Record Response := {
  status : Z;
  headers : list (jsstring * jsstring);
  body : Body
}.

(** The outcome of the authentication middleware: a response returned at
    once, or control passing on to the route matching. *)
Inductive decision :=
| Deny (r : Response)
| Proceed.

(** The middleware of [fetch]; [now] is the clock [verifyToken] reads. *)
Definition auth_middleware (api : API) (now : Z) (request : Request)
  : decision :=
  if isAuthEnabled api then
    let authHeader := Authorization request in
    if missing authHeader then
      Deny {| status := 401;
              headers := [(js "WWW-Authenticate", js "Bearer")];
              body := Plain PleaseLogin |}
    else
      let parts := split 32 (default [] authHeader) in
      let authType := parts !! 0%nat in
      let token := parts !! 1%nat in
      if negb (bool_decide (authType = Some (js "Bearer"))) || missing token
      then Deny {| status := 401; headers := []; body := Plain InvalidAuthInfo |}
      else if negb (valid (verifyToken api now (default [] token))) then
        Deny {| status := 401; headers := []; body := Plain ExpiredOrInvalid |}
      else Proceed
  else Proceed.

Definition is_login_route (request : Request) : bool :=
  str_eqb (path request) (js "login") && str_eqb (method request) (js "POST").

Definition is_init_route (request : Request) : bool :=
  str_eqb (path request) (js "init") && str_eqb (method request) (js "GET").

(** A gated request: one that [fetch] hands neither to the login route nor
    to the init route, so that it reaches the middleware. *)
Definition gated (request : Request) : bool :=
  negb (is_login_route request) && negb (is_init_route request).

(** The decision [fetch] takes on a request: none for the login and init
    routes, which return before the middleware, the middleware's for every
    other request. *)
Definition fetch_gate (api : API) (now : Z) (request : Request)
  : option decision :=
  if gated request then Some (auth_middleware api now request) else None.

(** The condition under which the loop over the items answers 400:
    [!item.id || typeof item.id !== "number" || item.order_num ===
    undefined || typeof item.order_num !== "number"]; [None] is the
    TypeError of reading a property of [null]. *)
Definition item_rejected (item : json) : option bool :=
  i ← get item (js "id");
  if negb (truthy i) || negb (is_number i) then Some true
  else
    o ← get item (js "order_num");
    Some (match o with Undefined => true | Val _ => negb (is_number o) end).

(** The loop [for (const item of data)]: [Some false] when an item is
    rejected, [Some true] when the loop runs to its end. *)
Fixpoint items_accepted (data : list json) : option bool :=
  match data with
  | [] => Some true
  | item :: rest =>
      match item_rejected item with
      | Some true => Some false
      | Some false => items_accepted rest
      | None => None
      end
  end.

(** An element of the body as the [{ id: number; order_num: number }] it
    is cast to. *)
Definition as_order_item (item : json) : option OrderItem :=
  match get item (js "id"), get item (js "order_num") with
  | Some (Val (JNum i)), Some (Val (JNum o)) =>
      Some {| id := i; order_num := o |}
  | _, _ => None
  end.

Definition bad_request (t : text) : Response :=
  {| status := 400; headers := []; body := Failure t |}.

Definition server_error : Response :=
  {| status := 500; headers := []; body := Plain RequestFailed |}.

Definition json_success (result : bool) : Response :=
  {| status := 200; headers := []; body := Success result |}.

(** The [group-orders] and [site-orders] routes share their text but for
    the API method they call; [data] is the parsed request body.  An
    exception is caught by [fetch] and answered with status 500. *)
Definition orders_route
    (update : list OrderItem -> Handle -> Handle * bool)
    (data : json) (db : Handle) : Handle * Response :=
  match data with
  | JArr items =>
      match items_accepted items with
      | Some true =>
          match mapM as_order_item items with
          | Some orders =>
              let '(db', result) := update orders db in
              (db', json_success result)
          | None => (db, server_error)
          end
      | Some false => (db, bad_request OrderItemInvalid)
      | None => (db, server_error)
      end
  | _ => (db, bad_request OrdersNotArray)
  end.

Definition group_orders_route (o : outcome) (ts : Z) :=
  orders_route (updateGroupOrder o ts).

Definition site_orders_route (o : outcome) (ts : Z) :=
  orders_route (updateSiteOrder o ts).

End Worker.

Import D1 NavigationAPI Worker.

(** ** Notions of the specification and sample data *)

(** The claims of a token as [verifyToken] reads them from the claims
    segment: the [-] and [_] of base64url mapped back, [atob], then
    [JSON.parse]. *)
Definition decode_claims (claims : jsstring) : option json :=
  text ← atob (replace_all 95 47 (replace_all 45 43 claims));
  JSON_parse text.

(** The expiry test passes: the decoded claims are not [null], and their
    [exp] is falsy or not less than the current time in seconds. *)
Definition unexpired (now : Z) (decoded : json) : bool :=
  match get decoded (js "exp") with
  | Some exp =>
      if truthy exp then
        match less_than exp (now / 1000) with
        | Some false => true
        | Some true | None => false
        end
      else true
  | None => false
  end.

(** A character of a base64url segment: a Latin-1 code unit that is none
    of [=], [+] and [/]. *)
Definition segment_char (c : Z) : Prop :=
  0 <= c <= 255 /\ c <> 61 /\ c <> 43 /\ c <> 47.

(** The tag [generateToken] computes for a header and a claims segment. *)
Definition expected_tag (this : API) (header claims : jsstring)
  : option jsstring :=
  base64url (secret this ++ header ++ claims).

(** [header.claims.tag]. *)
Definition dotted (header claims tag : jsstring) : jsstring :=
  header ++ [46] ++ claims ++ [46] ++ tag.

(** An API with authentication enabled, and the token it issues for the
    user [admin] at 1700000000123 ms. *)
Definition sample_api : API :=
  {| authEnabled := true; username := js "admin"; password := js "pw";
     secret := js "s3cret" |}.

Definition sample_header : jsstring :=
  js "eyJhbGciOiJIUzI1NiIsInR5cCI6IkpXVCJ9".

Definition sample_claims : jsstring :=
  js "eyJ1c2VybmFtZSI6ImFkbWluIiwiZXhwIjoxNzAwMDg2NDAwLCJpYXQiOjE3MDAwMDAwMDB9".

Definition sample_tag : jsstring :=
  js "czNjcmV0ZXlKaGJHY2lPaUpJVXpJMU5pSXNJblI1Y0NJNklrcFhWQ0o5ZXlKMWMyVnlibUZ0WlNJNkltRmtiV2x1SWl3aVpYaHdJam94TnpBd01EZzJOREF3TENKcFlYUWlPakUzTURBd01EQXdNREI5".

Definition sample_token : jsstring :=
  dotted sample_header sample_claims sample_tag.



(** An element the order routes let through: a value other than [null]
    whose [id] is a number other than zero and whose [order_num] is a
    number. *)
Definition acceptable (item : json) : bool :=
  match get item (js "id"), get item (js "order_num") with
  | Some (Val (JNum i)), Some (Val (JNum o)) => negb (is_zero i)
  | _, _ => false
  end.

(** An element [{id: i, order_num: o}] of a request body. *)
Definition order_json (i o : number) : json :=
  JObj [(js "id", JNum i); (js "order_num", JNum o)].

(** A scope of three groups at the positions 0, 1, 2, and the reordering
    that swaps the first two. *)
Definition sample_group (name : string) (position : Z) : Group :=
  {| g_name := js name; g_order_num := Int position;
     g_created_at := 1000; g_updated_at := 1000 |}.

Definition sample_db : Handle :=
  {| store := {| groups := {[ 1 := sample_group "news" 0;
                              2 := sample_group "tools" 1;
                              3 := sample_group "media" 2 ]};
                 sites := ∅ |};
     calls := [] |}.

Definition sample_reorder : list OrderItem :=
  [ {| id := Int 2; order_num := Int 0 |};
    {| id := Int 1; order_num := Int 1 |};
    {| id := Int 3; order_num := Int 2 |} ].

(** A request for the list of groups that carries the sample token. *)
Definition sample_request : Request :=
  {| path := js "groups"; method := js "GET";
     Authorization := Some (js "Bearer " ++ sample_token) |}.

(** The environment of a deployment that sets no [AUTH_SECRET]. *)
Definition env_without_secret (enabled user pass : option jsstring) : Env :=
  {| AUTH_ENABLED := enabled; AUTH_USERNAME := user; AUTH_PASSWORD := pass;
     AUTH_SECRET := None |}.

(** ' stands for the double quote in the JSON texts written below. *)
Definition json_text (s : string) : jsstring := replace_all 39 34 (js s).

(** ** Notions for the round trips *)

(** The six-bit groups [btoa] encodes its bytes into, before they are
    mapped to characters. *)
Fixpoint sextets (s : list Z) : list Z :=
  match s with
  | [] => []
  | [a] => [Z.shiftr a 2; Z.shiftl (Z.land a 3) 4]
  | [a; b] =>
      [Z.shiftr a 2; Z.lor (Z.shiftl (Z.land a 3) 4) (Z.shiftr b 4);
       Z.shiftl (Z.land b 15) 2]
  | a :: b :: c :: r =>
      Z.shiftr a 2
      :: Z.lor (Z.shiftl (Z.land a 3) 4) (Z.shiftr b 4)
      :: Z.lor (Z.shiftl (Z.land b 15) 2) (Z.shiftr c 6)
      :: Z.land c 63
      :: sextets r
  end.

(** The number of [=] that pad the encoding. *)
Fixpoint padding (s : list Z) : nat :=
  match s with
  | [] => 0
  | [_] => 2
  | [_; _] => 1
  | _ :: _ :: _ :: r => padding r
  end.

(** The character [generateToken] writes for a six-bit group: the base64
    character with [+] and [/] replaced. *)
Definition url_char (i : Z) : Z :=
  let c := b64_char i in
  let c := if c =? 43 then 45 else c in
  if c =? 47 then 95 else c.

(** The characters of a segment: letters, digits, [-] and [_]. *)
Definition is_url_char (c : Z) : bool :=
  ((65 <=? c) && (c <=? 90)) || ((97 <=? c) && (c <=? 122))
  || ((48 <=? c) && (c <=? 57)) || (c =? 45) || (c =? 95).

(** The bytes 0 .. 255 and the six-bit values 0 .. 63. *)
Definition all_bytes : list Z := seqZ 0 256.
Definition all_sextets : list Z := seqZ 0 64.

Definition is_sextet (i : Z) : bool := (0 <=? i) && (i <? 64).

(** What [verifyToken] makes of a claims segment before [JSON.parse]. *)
Definition decode_segment (segment : jsstring) : option jsstring :=
  atob (replace_all 95 47 (replace_all 45 43 segment)).

(** The digits of a decimal numeral, most significant first. *)
Fixpoint uint_values (u : Decimal.uint) : list Z :=
  match u with
  | Decimal.Nil => []
  | Decimal.D0 r => 0 :: uint_values r
  | Decimal.D1 r => 1 :: uint_values r
  | Decimal.D2 r => 2 :: uint_values r
  | Decimal.D3 r => 3 :: uint_values r
  | Decimal.D4 r => 4 :: uint_values r
  | Decimal.D5 r => 5 :: uint_values r
  | Decimal.D6 r => 6 :: uint_values r
  | Decimal.D7 r => 7 :: uint_values r
  | Decimal.D8 r => 8 :: uint_values r
  | Decimal.D9 r => 9 :: uint_values r
  end.

(** The digits of a natural number, as values. *)
Definition digit_values (n : Z) : list Z := uint_values (N.to_uint (Z.to_N n)).

(** A code unit of a JavaScript string. *)
Definition code_unit (c : Z) : Prop := 0 <= c < 65536.

(** The claims [generateToken] writes for an identity and its two clock
    readings. *)
Definition issued_claims (identity : jsstring) (t1 t2 : Z) : json :=
  JObj [(js "username", JStr identity);
        (js "exp", JNum (Int (t1 / 1000 + 86400)));
        (js "iat", JNum (Int (t2 / 1000)))].

(** The largest time value of a JavaScript [Date], in milliseconds. *)
Definition max_time : Z := 8640000000000000.

(** ** The browser client (src/API/client.ts) *)

Module NavigationClient.

Import NavigationAPI.

(** The state of the client is its token, [null] when it has none. *)
Definition Client := option jsstring.

(** [isLoggedIn()]: [!!this.token]. *)
Definition isLoggedIn (this : Client) : bool := negb (missing this).

Definition setToken (tok : jsstring) : Client := Some tok.

Definition clearToken : Client := None.

(** [login(username, password)] once the body [data] of the response has
    been read: [if (data.success && data.token) this.setToken(data.token)]. *)
Definition login (data : LoginResponse) (this : Client) : Client :=
  if success data && negb (missing (token data))
  then setToken (default [] (token data))
  else this.

(** The headers [request] sends: the content type, and the token as a
    bearer credential when there is one. *)
Definition request_headers (this : Client) : list (jsstring * jsstring) :=
  (js "Content-Type", js "application/json")
  :: (if missing this then []
      else [(js "Authorization", js "Bearer " ++ default [] this)]).

(** How [request] settles: status 401 clears the token and throws, another
    status outside 200 .. 299 throws, any other gives the parsed body. *)
Inductive settled :=
| Unauthorized
| ApiError (status : Z)
| Parsed.

Definition request_settled (status : Z) (this : Client) : Client * settled :=
  if status =? 401 then (clearToken, Unauthorized)
  else if negb ((200 <=? status) && (status <=? 299)) then (this, ApiError status)
  else (this, Parsed).

(** The body [login(username, password)] posts:
    [JSON.stringify({ username, password })]. *)
Definition login_body (username password : jsstring) : jsstring :=
  JSON_stringify
    (JObj [(js "username", JStr username); (js "password", JStr password)]).

(** The endpoint of [getGroup], [updateGroup] and [deleteGroup]:
    [`groups/${id}`]. *)
Definition group_endpoint (id : number) : jsstring :=
  js "groups/" ++ number_to_string id.

(** The endpoint of [getSite], [updateSite] and [deleteSite]. *)
Definition site_endpoint (id : number) : jsstring :=
  js "sites/" ++ number_to_string id.

(** The body [setConfig(key, value)] puts: [JSON.stringify({ value })]. *)
Definition config_body (value : jsstring) : jsstring :=
  JSON_stringify (JObj [(js "value", JStr value)]).

(** The body [createGroup(group)] posts for a group of a name and an
    [order_num]: [JSON.stringify(group)]. *)
Definition group_body (name : jsstring) (order_num : number) : jsstring :=
  JSON_stringify (JObj [(js "name", JStr name); (js "order_num", JNum order_num)]).

(** The body [updateGroupOrder] and [updateSiteOrder] put:
    [JSON.stringify(groupOrders)]. *)
Definition orders_body (orders : list json) : jsstring :=
  JSON_stringify (JArr orders).

(** The messages of the errors [request] throws: "authentication expired
    or invalid, please log in again", and "API error: " followed by the
    status. *)
Definition unauthorized_message : jsstring :=
  [35748; 35777; 24050; 36807; 26399; 25110; 26080; 25928; 65292; 35831;
   37325; 26032; 30331; 24405].

Definition api_error_message (status : Z) : jsstring :=
  [65; 80; 73; 38169; 35823; 58; 32] ++ number_to_string (Int status).

(** The word "authentication" that [checkAuthStatus] looks for. *)
Definition auth_word : jsstring := [35748; 35777].

(** [s.startsWith(t)] and [s.includes(t)]. *)
Fixpoint starts_with (t s : jsstring) : bool :=
  match t, s with
  | [], _ => true
  | a :: t', b :: s' => (a =? b) && starts_with t' s'
  | _ :: _, [] => false
  end.

Fixpoint includes (t s : jsstring) : bool :=
  starts_with t s
  || match s with
     | [] => false
     | _ :: r => includes t r
     end.

(** How a call of [request] ends: with an error of the given message, or
    with the parsed body. *)
Inductive request_result :=
| Threw (message : jsstring)
| Returned.

(** [request(endpoint)] on a response with the given status whose body
    parses. *)
Definition request (status : Z) (this : Client) : Client * request_result :=
  match request_settled status this with
  | (this', Unauthorized) => (this', Threw unauthorized_message)
  | (this', ApiError s) => (this', Threw (api_error_message s))
  | (this', Parsed) => (this', Returned)
  end.

(** [checkAuthStatus()]; [getConfigs] is the request it awaits. *)
Definition checkAuthStatus
    (getConfigs : Client -> Client * request_result) (this : Client)
  : Client * bool :=
  if missing this then (this, false)
  else
    match getConfigs this with
    | (this', Returned) => (this', true)
    | (this', Threw message) =>
        if includes auth_word message
           || includes (api_error_message 401) message
        then (clearToken, false)
        else (this', negb (missing this'))
    end.

End NavigationClient.

(** ** The mock client of the development environment (src/API/mock.ts) *)

Module MockNavigationClient.

Import NavigationAPI.

(** A row of [mockGroups] or of [mockSites]: its optional [id], its
    [order_num], its two time stamps and its other members.  The ids are
    integers, as the initial data has them and [createGroup] and
    [createSite] assign them. *)
Record Row (A : Type) := {
  row_id : option Z;
  row_order_num : number;
  row_created_at : option jsstring;
  row_updated_at : option jsstring;
  row_fields : A
}.

Arguments row_id {A} _.
Arguments row_order_num {A} _.
Arguments row_created_at {A} _.
Arguments row_updated_at {A} _.
Arguments row_fields {A} _.

(** [g.id === id] for the [id] of an order. *)
Definition same_id {A : Type} (id : number) (g : Row A) : bool :=
  match row_id g, id with
  | Some z, Int i => z =? i
  | _, _ => false
  end.

(** [l.findIndex(p)]; [None] is -1. *)
Fixpoint findIndex {A : Type} (p : A -> bool) (l : list A) : option nat :=
  match l with
  | [] => None
  | x :: r => if p x then Some 0%nat else S <$> findIndex p r
  end.

(** [rows[index].order_num = o]. *)
Definition set_order_num {A : Type} (o : number) (g : Row A) : Row A :=
  {| row_id := row_id g; row_order_num := o;
     row_created_at := row_created_at g; row_updated_at := row_updated_at g;
     row_fields := row_fields g |}.

(** The body of the loop of [updateGroupOrder] and [updateSiteOrder]. *)
Definition apply_order {A : Type} (rows : list (Row A)) (order : OrderItem)
  : list (Row A) :=
  match findIndex (same_id (id order)) rows with
  | Some index => alter (set_order_num (order_num order)) index rows
  | None => rows
  end.

(** [updateGroupOrder(groupOrders)] on [mockGroups] and
    [updateSiteOrder(siteOrders)] on [mockSites]: the rows afterwards and
    the value returned. *)
Definition updateOrder {A : Type} (orders : list OrderItem)
    (rows : list (Row A)) : list (Row A) * bool :=
  (fold_left apply_order orders rows, true).

(** [Math.max(0, ...rows.map(g => g.id || 0)) + 1]; the sum is exact
    while the ids are below 2^53. *)
Definition next_id {A : Type} (rows : list (Row A)) : Z :=
  fold_right Z.max 0 (map (fun g => default 0 (row_id g)) rows) + 1.

(** [createGroup(group)] and [createSite(site)]: the rows afterwards and
    the row returned; [now] is the text of the current time. *)
Definition create {A : Type} (now : jsstring) (group : Row A)
    (rows : list (Row A)) : list (Row A) * Row A :=
  let newGroup :=
    {| row_id := Some (next_id rows);
       row_order_num := row_order_num group;
       row_created_at := Some now; row_updated_at := Some now;
       row_fields := row_fields group |} in
  (rows ++ [newGroup], newGroup).

(** [deleteGroup(id)] and [deleteSite(id)]. *)
Definition delete_row {A : Type} (id : number) (rows : list (Row A))
  : list (Row A) * bool :=
  match findIndex (same_id id) rows with
  | Some index => (delete index rows, true)
  | None => (rows, false)
  end.

(** The initial [mockGroups], the other member of a group being its
    name. *)
Definition mockGroups : list (Row jsstring) :=
  [ {| row_id := Some 1; row_order_num := Int 1;
       row_created_at := Some (js "2024-01-01T00:00:00Z");
       row_updated_at := Some (js "2024-01-01T00:00:00Z");
       row_fields := [24120; 29992; 24037; 20855] |};
    {| row_id := Some 2; row_order_num := Int 2;
       row_created_at := Some (js "2024-01-01T20:00:00Z");
       row_updated_at := Some (js "2024-01-01T30:00:00Z");
       row_fields := [24320; 21457; 36164; 28304] |};
    {| row_id := Some 3; row_order_num := Int 3;
       row_created_at := Some (js "2024-01-01T40:00:00Z");
       row_updated_at := Some (js "2024-01-01T50:00:00Z");
       row_fields := [24320; 21457; 36164; 28304; 51] |} ].

(** [login(username, password)]: the token kept and returned, the text
    [username:time] in base64; [None] is the exception of [btoa]. *)
Definition login (time : Z) (username : jsstring) : option jsstring :=
  btoa (username ++ [58] ++ number_to_string (Int time)).

End MockNavigationClient.


(** [headers.get(name)] on the headers of a request built from an object
    with the given members. *)
Definition header_get (name : jsstring) (headers : list (jsstring * jsstring))
  : option jsstring :=
  snd <$> List.find (fun h => str_eqb (fst h) name) headers.

(** The request the worker receives when the client fetches a path with a
    method and headers. *)
Definition received (path method : jsstring)
    (headers : list (jsstring * jsstring)) : Request :=
  {| path := path; method := method;
     Authorization := header_get (js "Authorization") headers |}.

(** ** The validators of the worker and the routes that call them

    [validateLogin], [validateGroup], [validateConfig] and the routes
    [POST login], [POST groups], [PUT groups/:id] and [PUT configs/:key] of
    [fetch], with the statements [updateGroup] and [updateSite] prepare.
    [data] is the parsed body of the request; [None] is an exception,
    which [fetch] catches and answers with status 500. *)

Module Routes.

Import NavigationAPI.

(** [x], when [!x || typeof x !== "string"] is false: a string that is not
    empty. *)
Definition filled_string (x : jsvalue) : option jsstring :=
  match x with
  | Val (JStr (c :: r)) => Some (c :: r)
  | _ => None
  end.

(** [errors.length === 0]. *)
Definition no_errors {A : Type} (errors : list A) : bool :=
  match errors with [] => true | _ => false end.

Inductive login_error :=
| UsernameRequired
| PasswordRequired.

Record LoginValidation := {
  login_valid : bool;
  login_errors : list login_error
}.

(** [validateLogin(data)]. *)
Definition validateLogin (data : json) : option LoginValidation :=
  u ← get data (js "username");
  let errors :=
    match filled_string u with
    | None => [UsernameRequired]
    | Some _ => []
    end in
  p ← get data (js "password");
  let errors :=
    match filled_string p with
    | None => errors ++ [PasswordRequired]
    | Some _ => errors
    end in
  Some {| login_valid := no_errors errors; login_errors := errors |}.

(** The parsed body as the [LoginRequest] it is cast to; the members are
    strings once [validateLogin] has passed. *)
Definition as_login_request (data : json) : option LoginRequest :=
  match get data (js "username"), get data (js "password") with
  | Some (Val (JStr u)), Some (Val (JStr p)) =>
      Some {| req_username := u; req_password := p |}
  | _, _ => None
  end.

(** The answers of the login route: status 400 with the errors, status 200
    with the result of [login], status 500. *)
Inductive login_reply :=
| LoginRejected (errors : list login_error)
| LoginAnswered (result : LoginResponse)
| LoginFailed.

(** The login route of [fetch] on the text of the request body. *)
Definition login_route (api : API) (t1 t2 : Z) (text : jsstring)
  : login_reply :=
  match
    loginData ← JSON_parse text;
    validation ← validateLogin loginData;
    if negb (login_valid validation)
    then Some (LoginRejected (login_errors validation))
    else
      request ← as_login_request loginData;
      result ← login api t1 t2 request;
      Some (LoginAnswered result)
  with
  | Some reply => reply
  | None => LoginFailed
  end.

Inductive group_error :=
| GroupNameRequired
| GroupOrderRequired.

(** The [Partial<Group>] that [validateGroup] fills. *)
Record SanitizedGroup := {
  sanitized_name : option jsstring;
  sanitized_order_num : option number
}.

Record GroupValidation := {
  group_valid : bool;
  group_errors : list group_error;
  sanitizedData : option SanitizedGroup
}.

(** [validateGroup(data)]: the name is trimmed and cut to its first 100
    code units. *)
Definition validateGroup (data : json) : option GroupValidation :=
  n ← get data (js "name");
  let '(errors, name) :=
    match filled_string n with
    | None => ([GroupNameRequired], None)
    | Some s => ([], Some (take 100 (trim s)))
    end in
  o ← get data (js "order_num");
  let '(errors, order) :=
    match o with
    | Val (JNum k) => (errors, Some k)
    | _ => (errors ++ [GroupOrderRequired], None)
    end in
  Some {| group_valid := no_errors errors;
          group_errors := errors;
          sanitizedData :=
            if no_errors errors
            then Some {| sanitized_name := name; sanitized_order_num := order |}
            else None |}.

(** The answers of [POST groups]: status 400 with the errors, the call
    [api.createGroup(validation.sanitizedData)] whose result is the
    answer, status 500. *)
Inductive group_post_reply :=
| GroupRejected (errors : list group_error)
| GroupCreate (group : SanitizedGroup)
| GroupPostFailed.

Definition group_post_route (data : json) : group_post_reply :=
  match validateGroup data with
  | Some validation =>
      if negb (group_valid validation)
      then GroupRejected (group_errors validation)
      else match sanitizedData validation with
           | Some group => GroupCreate group
           | None => GroupPostFailed
           end
  | None => GroupPostFailed
  end.

(** The leading digits of a text in a radix, as values. *)
Fixpoint take_radix (base : Z) (s : jsstring) : list Z :=
  match s with
  | c :: r =>
      match radix_digit base c with
      | Some d => d :: take_radix base r
      | None => []
      end
  | [] => []
  end.

(** [parseInt(s)] without a radix: leading white space, a sign, [0x] or
    [0X] for radix 16, then the longest run of digits; [None] is NaN.  The
    value is exact below 2^53. *)
Definition parseInt (s : jsstring) : option number :=
  let s0 := drop_while is_str_whitespace s in
  let '(negative, s1) :=
    match s0 with
    | 45 :: r => (true, r)
    | 43 :: r => (false, r)
    | _ => (false, s0)
    end in
  let '(base, s2) :=
    match s1 with
    | 48 :: x :: r => if (x =? 120) || (x =? 88) then (16, r) else (10, s1)
    | _ => (10, s1)
    end in
  match take_radix base s2 with
  | [] => None
  | ds =>
      let value := digits_value base ds in
      Some (Int (if negative then - value else value))
  end.

(** [parseInt(path.split("/")[1])]. *)
Definition route_id (path : jsstring) : option number :=
  match split 47 path !! 1%nat with
  | Some s => parseInt s
  | None => None
  end.

(** The answers of [PUT groups/:id]: three of status 400, the call
    [api.updateGroup(id, data)] whose result is the answer, status 500. *)
Inductive group_put_reply :=
| GroupIdInvalid
| GroupNameInvalid
| GroupOrderInvalid
| GroupUpdate (id : number) (data : json)
| GroupPutFailed.

Definition group_put_route (path : jsstring) (data : json) : group_put_reply :=
  match route_id path with
  | None => GroupIdInvalid
  | Some id =>
      match
        n ← get data (js "name");
        if match n with
           | Undefined => false
           | Val (JStr s) => is_empty (trim s)
           | Val _ => true
           end
        then Some GroupNameInvalid
        else
          o ← get data (js "order_num");
          if match o with
             | Undefined | Val (JNum _) => false
             | Val _ => true
             end
          then Some GroupOrderInvalid
          else Some (GroupUpdate id data)
      with
      | Some reply => reply
      | None => GroupPutFailed
      end
  end.

(** [if (x !== undefined) { updates.push(fragment); params.push(x); }]. *)
Definition push_field (fragment : jsstring) (x : jsvalue)
    (acc : list jsstring * list json) : list jsstring * list json :=
  match x with
  | Undefined => acc
  | Val v => (acc.1 ++ [fragment], acc.2 ++ [v])
  end.

(** The query text and the bound parameters of [updateGroup(id, group)]. *)
Definition updateGroup_statement (id : number) (group : json)
  : option (jsstring * list json) :=
  let acc := ([js "updated_at = CURRENT_TIMESTAMP"], []) in
  name ← get group (js "name");
  let acc := push_field (js "name = ?") name acc in
  order_num ← get group (js "order_num");
  let acc := push_field (js "order_num = ?") order_num acc in
  Some (js "UPDATE groups SET " ++ join (js ", ") acc.1
          ++ js " WHERE id = ? RETURNING id, name, order_num, created_at, updated_at",
        acc.2 ++ [JNum id]).

(** The query text and the bound parameters of [updateSite(id, site)]. *)
Definition updateSite_statement (id : number) (site : json)
  : option (jsstring * list json) :=
  let acc := ([js "updated_at = CURRENT_TIMESTAMP"], []) in
  group_id ← get site (js "group_id");
  let acc := push_field (js "group_id = ?") group_id acc in
  name ← get site (js "name");
  let acc := push_field (js "name = ?") name acc in
  url ← get site (js "url");
  let acc := push_field (js "url = ?") url acc in
  icon ← get site (js "icon");
  let acc := push_field (js "icon = ?") icon acc in
  description ← get site (js "description");
  let acc := push_field (js "description = ?") description acc in
  notes ← get site (js "notes");
  let acc := push_field (js "notes = ?") notes acc in
  order_num ← get site (js "order_num");
  let acc := push_field (js "order_num = ?") order_num acc in
  Some (js "UPDATE sites SET " ++ join (js ", ") acc.1
          ++ js " WHERE id = ? RETURNING id, group_id, name, url, icon, description, notes, order_num, created_at, updated_at",
        acc.2 ++ [JNum id]).

(** [validateConfig(data)]: its [valid]. *)
Definition validateConfig (data : json) : option bool :=
  v ← get data (js "value");
  Some (match filled_string v with Some _ => true | None => false end).

(** The answers of [PUT configs/:key]: status 400 from the validation,
    status 400 for a missing value, the call [api.setConfig(key,
    data.value)] whose result is the answer, status 500. *)
Inductive config_put_reply :=
| ConfigRejected
| ConfigValueMissing
| ConfigSet (key : jsstring) (value : json)
| ConfigPutFailed.

(** [path.substring("configs/".length)]. *)
Definition config_key (path : jsstring) : jsstring := drop 8 path.

Definition config_put_route (path : jsstring) (data : json)
  : config_put_reply :=
  let key := config_key path in
  match
    valid ← validateConfig data;
    if negb valid then Some ConfigRejected
    else
      value ← get data (js "value");
      match value with
      | Undefined => Some ConfigValueMissing
      | Val v => Some (ConfigSet key v)
      end
  with
  | Some reply => reply
  | None => ConfigPutFailed
  end.

End Routes.

(** [groups.map((group, index) => ({ id: group.id, order_num: index }))] of
    [handleSaveGroupOrder], and the same on the sites of
    [handleSaveSiteOrder] (src/App.tsx), for the ids of the rows in their
    order on the screen. *)
Definition order_items (ids : list number) : list json :=
  imap (fun index id =>
          JObj [(js "id", JNum id);
                (js "order_num", JNum (Int (Z.of_nat index)))]) ids.

(** A string or a number, the values [bind] is meant to receive. *)
Definition string_or_number (v : json) : bool :=
  match v with JStr _ | JNum _ => true | _ => false end.

(** The number of placeholders [?] in a query text. *)
Definition placeholders (query : jsstring) : nat :=
  length (filter (fun c => c = 63) query).

(** The condition on what follows a run of digits: nothing, or a
    character that is no digit. *)
Definition ends_digits (tail : jsstring) : Prop :=
  match tail with
  | [] => True
  | c :: _ => is_digit c = false
  end.

(** The orders [handleSaveGroupOrder] builds for rows with the given ids,
    as pairs of an id and a position. *)
Definition positions (ids : list Z) : list (Z * Z) :=
  imap (fun index id => (id, Z.of_nat index)) ids.

Definition order_of_pair (p : Z * Z) : json :=
  order_json (Int p.1) (Int p.2).

(** The tokens of the text of one order. *)
Definition order_tokens (p : Z * Z) : list JS.token :=
  [TLBrace; TString (js "id"); TColon; TWord (digits_of p.1); TComma;
   TString (js "order_num"); TColon; TWord (digits_of p.2); TRBrace].

(** [handleCreateGroup] (src/App.tsx) for the name typed into the form
    opened by [handleOpenAddGroup] when the screen shows [count] groups:
    the body posted, or [None] when the name is empty and only an error is
    shown. *)
Definition handleCreateGroup (name : jsstring) (count : Z) : option jsstring :=
  if is_empty name then None
  else Some (NavigationClient.group_body name (Int count)).


(** ** Facts about the platform functions *)

Lemma missing_false (x : option jsstring) :
  missing x = false <-> exists c r, x = Some (c :: r).
Proof.
  split.
  - destruct x as [[|c r]|]; simpl; try discriminate. eauto.
  - intros (c & r & ->). reflexivity.
Qed.

Lemma missing_Some (s : jsstring) : missing (Some s) = is_empty s.
Proof. destruct s; reflexivity. Qed.

Lemma is_empty_false (s : jsstring) : is_empty s = false <-> s <> [].
Proof. destruct s; simpl; split; congruence. Qed.

Lemma split_not_nil sep s : split sep s <> [].
Proof.
  destruct s as [|c r]; simpl; [discriminate|].
  destruct (c =? sep); [discriminate|].
  destruct (split sep r); discriminate.
Qed.

Lemma latin1_app (a b : jsstring) : latin1 (a ++ b) = latin1 a && latin1 b.
Proof. unfold latin1. apply forallb_app. Qed.

Lemma btoa_not_latin1 (x : jsstring) : latin1 x = false -> btoa x = None.
Proof. unfold btoa. intros ->. reflexivity. Qed.

Lemma base64url_not_latin1 (x : jsstring) :
  latin1 x = false -> base64url x = None.
Proof. unfold base64url. intros H. rewrite (btoa_not_latin1 _ H). reflexivity. Qed.

(** ** [verifyToken] *)

(** The three leading segments of a token, read as the destructuring
    assignment of [verifyToken] reads them. *)
Lemma verifyToken_try_segments now token :
  verifyToken_try now token =
  match split 46 token with
  | header :: claims :: tag :: _ =>
      if is_empty header || is_empty claims || is_empty tag then None
      else
        decoded ← decode_claims claims;
        if unexpired now decoded then Some decoded else None
  | _ => None
  end.
Proof.
  unfold verifyToken_try, decode_claims, unexpired.
  destruct (split 46 token) as [|h [|c [|t rest]]] eqn:E; simpl;
    rewrite ?missing_Some.
  - reflexivity.
  - rewrite orb_true_r. reflexivity.
  - rewrite orb_true_r. reflexivity.
  - destruct h as [|h0 h], c as [|c0 c], t as [|t0 t]; simpl; try reflexivity.
    destruct (atob _) as [text|]; simpl; [|reflexivity].
    destruct (JSON_parse text) as [d|]; simpl; [|reflexivity].
    destruct (get d (js "exp")) as [e|]; simpl; [|reflexivity].
    destruct (truthy e); [|reflexivity].
    destruct (less_than e (now / 1000)) as [[|]|]; reflexivity.
Qed.

Lemma verifyToken_enabled this now token :
  authEnabled this = true ->
  verifyToken this now token =
  match verifyToken_try now token with
  | Some decoded => {| valid := true; payload := Some decoded |}
  | None => {| valid := false; payload := None |}
  end.
Proof. unfold verifyToken. intros ->. reflexivity. Qed.

(** The verdict of [verifyToken], with authentication enabled, in terms of
    the token's segments. *)
Lemma verifyToken_valid_segments this now token :
  authEnabled this = true ->
  valid (verifyToken this now token) = true <->
  exists header claims tag rest decoded,
    split 46 token = header :: claims :: tag :: rest
    /\ header <> [] /\ claims <> [] /\ tag <> []
    /\ decode_claims claims = Some decoded
    /\ unexpired now decoded = true.
Proof.
  intros Hen. rewrite (verifyToken_enabled _ _ _ Hen), verifyToken_try_segments.
  split.
  - destruct (split 46 token) as [|h [|c [|t rest]]]; try discriminate.
    destruct h as [|h0 h], c as [|c0 c], t as [|t0 t]; try discriminate.
    cbn [is_empty orb].
    destruct (decode_claims (c0 :: c)) as [d|] eqn:Ed; [|discriminate].
    cbn [mbind option_bind].
    destruct (unexpired now d) eqn:Eu; [|discriminate].
    intros _. exists (h0 :: h), (c0 :: c), (t0 :: t), rest, d.
    repeat split; try discriminate; assumption.
  - intros (h & c & t & rest & d & -> & Hh & Hc & Ht & Hd & Hu).
    apply is_empty_false in Hh, Hc, Ht. rewrite Hh, Hc, Ht.
    cbn [orb]. rewrite Hd. cbn [mbind option_bind]. rewrite Hu. reflexivity.
Qed.

(** The token the sample API issues is [sample_token]. *)
Lemma sample_token_issued :
  generateToken sample_api 1700000000123 1700000000123
    [(js "username", JStr (js "admin"))] = Some sample_token.
Proof. vm_compute. reflexivity. Qed.

(** C1, as stated, fails: the token issued for [admin] verifies, and it
    still verifies after character 23 of its claims segment is changed
    from [u] to [v] (the claims then name the user [admio]), although its
    tag is not the one computed over the changed segments. *)
Lemma tampered_claims_accepted :
  valid (verifyToken sample_api 1700000000123 sample_token) = true
  /\ sample_claims !! 23%nat = Some 117
  /\ verifyToken sample_api 1700000000123
       (dotted sample_header (<[23%nat := 118]> sample_claims) sample_tag)
     = {| valid := true;
          payload := Some (JObj [(js "username", JStr (js "admio"));
                                 (js "exp", JNum (Int 1700086400));
                                 (js "iat", JNum (Int 1700000000))]) |}
  /\ expected_tag sample_api sample_header (<[23%nat := 118]> sample_claims)
     <> Some sample_tag.
Proof.
  repeat split; try (vm_compute; reflexivity).
  intros H. vm_compute in H. discriminate H.
Qed.

(** C1, amended: with authentication enabled the tag and the secret play
    no part in the verdict.  Two tokens with the same header and claims
    segments get the same result whatever their (non-empty) tags, whatever
    follows the third segment and whatever the secrets of the APIs; so a
    valid token stays valid under every non-empty tag.  A token is valid
    only if its header and claims segments are not empty and its claims
    segment decodes and parses to a value other than [null]. *)
Theorem verifyToken_ignores_tag
    (this other : API) (now : Z) (token token' : jsstring)
    (header claims tag tag' : jsstring) (rest rest' : list jsstring) :
  authEnabled this = true -> authEnabled other = true ->
  split 46 token = header :: claims :: tag :: rest ->
  split 46 token' = header :: claims :: tag' :: rest' ->
  tag <> [] -> tag' <> [] ->
  verifyToken this now token = verifyToken other now token'
  /\ (valid (verifyToken this now token) = true ->
      valid (verifyToken other now token') = true)
  /\ (valid (verifyToken this now token) = true ->
      header <> [] /\ claims <> []
      /\ exists decoded, decode_claims claims = Some decoded
                         /\ decoded <> JNull).
Proof.
  intros Hen Hen' Hs Hs' Ht Ht'.
  assert (E : verifyToken this now token = verifyToken other now token').
  { rewrite (verifyToken_enabled _ _ _ Hen), (verifyToken_enabled _ _ _ Hen').
    rewrite !verifyToken_try_segments, Hs, Hs'.
    apply is_empty_false in Ht, Ht'. rewrite Ht, Ht'. reflexivity. }
  split; [exact E|]. split; [rewrite E; trivial|].
  rewrite (verifyToken_valid_segments _ _ _ Hen), Hs.
  intros (h & c & t & r & d & Eq & Hh & Hc & _ & Hd & Hu).
  injection Eq as <- <- <- <-.
  split; [exact Hh|]. split; [exact Hc|].
  exists d. split; [exact Hd|]. intros ->. discriminate Hu.
Qed.

Lemma verifyToken_ignores_tag_witness :
  verifyToken sample_api 1700000000123 sample_token
  = verifyToken
      {| authEnabled := true; username := []; password := [];
         secret := default_secret |}
      1700000000123 (dotted sample_header sample_claims (js "x"))
  /\ (valid (verifyToken sample_api 1700000000123 sample_token) = true ->
      valid (verifyToken
               {| authEnabled := true; username := []; password := [];
                  secret := default_secret |}
               1700000000123 (dotted sample_header sample_claims (js "x")))
      = true)
  /\ (valid (verifyToken sample_api 1700000000123 sample_token) = true ->
      sample_header <> [] /\ sample_claims <> []
      /\ exists decoded, decode_claims sample_claims = Some decoded
                         /\ decoded <> JNull).
Proof.
  apply (verifyToken_ignores_tag sample_api _ 1700000000123 sample_token
           (dotted sample_header sample_claims (js "x"))
           sample_header sample_claims sample_tag (js "x") [] []);
    solve [ reflexivity | vm_compute; reflexivity | discriminate ].
Defined.




(** C6, as stated, fails: a token of five segments whose header and tag
    segments are no base64url text at all is valid, its second segment
    being the only one decoded. *)
Lemma extra_segments_and_raw_header_accepted :
  length (split 46 (js "!.eyJ1c2VybmFtZSI6ImFkbWluIn0.?.zz.")) = 5%nat
  /\ atob (replace_all 95 47 (replace_all 45 43 (js "!"))) = None
  /\ atob (replace_all 95 47 (replace_all 45 43 (js "?"))) = None
  /\ verifyToken sample_api 1700000000123
       (js "!.eyJ1c2VybmFtZSI6ImFkbWluIn0.?.zz.")
     = {| valid := true;
          payload := Some (JObj [(js "username", JStr (js "admin"))]) |}.
Proof. repeat split; vm_compute; reflexivity. Qed.

(** C6, amended: with authentication enabled, [verifyToken] rejects every
    token that splits on [.] into fewer than three segments, or one of
    whose first three segments is empty, or whose second (claims) segment
    fails [atob] after the base64url characters are mapped back, or whose
    decoded claims text fails [JSON.parse] or parses to [null].  Segments
    after the third, and the content of the first and third, are not
    examined. *)
Theorem verifyToken_rejects_malformed (this : API) (now : Z) (token : jsstring) :
  authEnabled this = true ->
  ((length (split 46 token) < 3)%nat
   \/ (exists i, (i < 3)%nat /\ split 46 token !! i = Some [])
   \/ (exists claims,
         split 46 token !! 1%nat = Some claims
         /\ (atob (replace_all 95 47 (replace_all 45 43 claims)) = None
             \/ exists text,
                 atob (replace_all 95 47 (replace_all 45 43 claims)) = Some text
                 /\ (JSON_parse text = None \/ JSON_parse text = Some JNull)))) ->
  verifyToken this now token = {| valid := false; payload := None |}.
Proof.
  intros Hen H.
  rewrite (verifyToken_enabled _ _ _ Hen), verifyToken_try_segments.
  destruct (split 46 token) as [|h [|c [|t rest]]]; try reflexivity.
  destruct H as [H | [(i & Hi & H) | (claims & Hc & H)]].
  - simpl in H. lia.
  - destruct i as [|[|[|i]]]; [ | | | lia ]; simpl in H;
      injection H as ->; simpl; rewrite ?orb_true_r; reflexivity.
  - simpl in Hc. injection Hc as ->.
    destruct (is_empty h || is_empty claims || is_empty t); [reflexivity|].
    unfold decode_claims.
    destruct H as [Ha | (text & Ha & Hp)]; rewrite Ha;
      cbn [mbind option_bind]; [reflexivity|].
    destruct Hp as [-> | ->]; reflexivity.
Qed.

Lemma verifyToken_rejects_malformed_witness :
  verifyToken sample_api 1700000000123 (js "eyJhbGciOiJIUzI1NiJ9.e30")
  = {| valid := false; payload := None |}.
Proof.
  apply (verifyToken_rejects_malformed sample_api 1700000000123
           (js "eyJhbGciOiJIUzI1NiJ9.e30")).
  - reflexivity.
  - left. vm_compute. lia.
Defined.

(** ** The authentication middleware *)

Lemma auth_middleware_header api now request authHeader :
  isAuthEnabled api = true ->
  Authorization request = Some authHeader -> authHeader <> [] ->
  auth_middleware api now request =
  if negb (bool_decide (split 32 authHeader !! 0%nat = Some (js "Bearer")))
     || missing (split 32 authHeader !! 1%nat)
  then Deny {| status := 401; headers := []; body := Plain InvalidAuthInfo |}
  else if negb (valid (verifyToken api now
                         (default [] (split 32 authHeader !! 1%nat))))
  then Deny {| status := 401; headers := []; body := Plain ExpiredOrInvalid |}
  else Proceed.
Proof.
  intros Hen Hh Hne. unfold auth_middleware. rewrite Hen, Hh.
  destruct authHeader as [|c r]; [congruence|]. reflexivity.
Qed.

(** C4, as stated, fails: with authentication enabled, a gated request
    whose Authorization header is present but empty has a scheme other
    than [Bearer] and no token, yet it is not answered with the generic
    401: [!authHeader] holds of the empty string, and the request gets the
    401 with [WWW-Authenticate: Bearer] of a missing header. *)
Lemma empty_header_challenged :
  gated {| path := js "groups"; method := js "GET";
           Authorization := Some [] |} = true
  /\ split 32 [] !! 0%nat <> Some (js "Bearer")
  /\ split 32 [] !! 1%nat = None
  /\ fetch_gate sample_api 1700000000123
       {| path := js "groups"; method := js "GET"; Authorization := Some [] |}
     = Some (Deny {| status := 401;
                     headers := [(js "WWW-Authenticate", js "Bearer")];
                     body := Plain PleaseLogin |})
  /\ fetch_gate sample_api 1700000000123
       {| path := js "groups"; method := js "GET"; Authorization := Some [] |}
     <> Some (Deny {| status := 401; headers := [];
                      body := Plain InvalidAuthInfo |}).
Proof.
  split; [reflexivity|]. split; [discriminate|]. split; [reflexivity|].
  split; [reflexivity|]. discriminate.
Qed.

(** C4, amended: on every gated request, with authentication disabled the
    request proceeds whatever its Authorization header; with
    authentication enabled, a header that is missing or empty is answered
    401 with [WWW-Authenticate: Bearer]; a header that is not empty, and
    whose scheme is other than [Bearer] or whose token is absent or empty,
    is answered with the generic 401; a token that [verifyToken] rejects
    is answered with the re-authenticate 401, and a token it accepts lets
    the request proceed to the routes.  Every gated request falls under
    one of these cases. *)
Theorem auth_gate_decisions (api : API) (now : Z) (request : Request) :
  gated request = true ->
  (isAuthEnabled api = false -> fetch_gate api now request = Some Proceed)
  /\ (isAuthEnabled api = true ->
      Authorization request = None \/ Authorization request = Some [] ->
      fetch_gate api now request
      = Some (Deny {| status := 401;
                      headers := [(js "WWW-Authenticate", js "Bearer")];
                      body := Plain PleaseLogin |}))
  /\ (forall authHeader,
      isAuthEnabled api = true ->
      Authorization request = Some authHeader -> authHeader <> [] ->
      split 32 authHeader !! 0%nat <> Some (js "Bearer")
      \/ split 32 authHeader !! 1%nat = None
      \/ split 32 authHeader !! 1%nat = Some [] ->
      fetch_gate api now request
      = Some (Deny {| status := 401; headers := [];
                      body := Plain InvalidAuthInfo |}))
  /\ (forall authHeader token rest,
      isAuthEnabled api = true ->
      Authorization request = Some authHeader ->
      split 32 authHeader = js "Bearer" :: token :: rest -> token <> [] ->
      (valid (verifyToken api now token) = false ->
       fetch_gate api now request
       = Some (Deny {| status := 401; headers := [];
                       body := Plain ExpiredOrInvalid |}))
      /\ (valid (verifyToken api now token) = true ->
          fetch_gate api now request = Some Proceed))
  /\ (isAuthEnabled api = false
      \/ Authorization request = None
      \/ Authorization request = Some []
      \/ (exists authHeader,
            Authorization request = Some authHeader /\ authHeader <> []
            /\ (split 32 authHeader !! 0%nat <> Some (js "Bearer")
                \/ split 32 authHeader !! 1%nat = None
                \/ split 32 authHeader !! 1%nat = Some []))
      \/ (exists authHeader token rest,
            Authorization request = Some authHeader
            /\ split 32 authHeader = js "Bearer" :: token :: rest
            /\ token <> []
            /\ (valid (verifyToken api now token) = false
                \/ valid (verifyToken api now token) = true))).
Proof.
  intros Hg. unfold fetch_gate. rewrite Hg.
  split; [|split; [|split; [|split]]].
  - unfold auth_middleware. intros ->. reflexivity.
  - unfold auth_middleware. intros -> [-> | ->]; reflexivity.
  - intros h Hen Hh Hne Hbad.
    rewrite (auth_middleware_header _ _ _ _ Hen Hh Hne).
    unfold jsstring in *.
    destruct Hbad as [H | [H | H]].
    + rewrite bool_decide_eq_false_2 by exact H. reflexivity.
    + rewrite H. cbn [missing]. destruct (negb _); reflexivity.
    + rewrite H. cbn [missing]. destruct (negb _); reflexivity.
  - intros authHeader token rest Hen Hh Hs Ht.
    assert (Hne : authHeader <> []) by (intros ->; discriminate Hs).
    rewrite (auth_middleware_header _ _ _ _ Hen Hh Hne), Hs.
    change ((js "Bearer" :: token :: rest) !! 0%nat) with (Some (js "Bearer")).
    change ((js "Bearer" :: token :: rest) !! 1%nat) with (Some token).
    rewrite bool_decide_eq_true_2 by reflexivity.
    destruct token as [|t0 t]; [congruence|].
    cbn [missing negb orb]. cbv [default from_option Datatypes.id].
    split; intros ->; reflexivity.
  - destruct (isAuthEnabled api); [|left; reflexivity].
    destruct (Authorization request) as [[|c0 h]|];
      [right; right; left; reflexivity| |right; left; reflexivity].
    right. right. right.
    destruct (split 32 (c0 :: h)) as [|scheme [|token rest]] eqn:Es.
    + left. exists (c0 :: h). split; [reflexivity|]. split; [discriminate|].
      left. unfold jsstring in *. rewrite Es. discriminate.
    + left. exists (c0 :: h). split; [reflexivity|]. split; [discriminate|].
      right. left. unfold jsstring in *. rewrite Es. reflexivity.
    + destruct (decide (scheme = js "Bearer")) as [-> | Hsch].
      * destruct token as [|t0 t].
        -- left. exists (c0 :: h). split; [reflexivity|].
           split; [discriminate|]. right. right.
           unfold jsstring in *. rewrite Es. reflexivity.
        -- right. exists (c0 :: h), (t0 :: t), rest.
           split; [reflexivity|]. split; [exact Es|]. split; [discriminate|].
           destruct (valid (verifyToken api now (t0 :: t))); auto.
      * left. exists (c0 :: h). split; [reflexivity|]. split; [discriminate|].
        left. unfold jsstring in *. rewrite Es.
        intros [= E]. apply Hsch. exact E.
Qed.

Lemma auth_gate_decisions_witness :
  fetch_gate sample_api 1700000000123 sample_request = Some Proceed
  /\ fetch_gate sample_api 1700086401000 sample_request
     = Some (Deny {| status := 401; headers := [];
                     body := Plain ExpiredOrInvalid |}).
Proof.
  split.
  - destruct (auth_gate_decisions sample_api 1700000000123 sample_request
                eq_refl) as (_ & _ & _ & H & _).
    destruct (H (js "Bearer " ++ sample_token) sample_token []
                eq_refl eq_refl eq_refl) as [_ Hok]; [discriminate|].
    apply Hok. vm_compute. reflexivity.
  - destruct (auth_gate_decisions sample_api 1700086401000 sample_request
                eq_refl) as (_ & _ & _ & H & _).
    destruct (H (js "Bearer " ++ sample_token) sample_token []
                eq_refl eq_refl eq_refl) as [Hko _]; [discriminate|].
    apply Hko. vm_compute. reflexivity.
Defined.

(** ** [generateToken] and [login] *)

Lemma or_default_self (x : jsstring) : or_default (Some x) [] = x.
Proof. destruct x; reflexivity. Qed.

Lemma generateToken_needs_latin1_secret this t1 t2 payload :
  latin1 (secret this) = false -> generateToken this t1 t2 payload = None.
Proof.
  intros H. unfold generateToken.
  destruct (base64url (JSON_stringify jwt_header)) as [h|];
    cbn [mbind option_bind]; [|reflexivity].
  destruct (base64url (JSON_stringify (JObj _))) as [c|];
    cbn [mbind option_bind]; [|reflexivity].
  rewrite base64url_not_latin1; [reflexivity|].
  rewrite latin1_app, H. reflexivity.
Qed.

Lemma default_secret_not_latin1 : latin1 default_secret = false.
Proof. reflexivity. Qed.

(** C10 fails on the code: in a deployment that sets no [AUTH_SECRET] the
    secret is the source's default text, whose characters [btoa] refuses,
    so [generateToken] throws for every payload and at every time. *)
Theorem generateToken_throws_on_default_secret
    (enabled user pass : option jsstring) (t1 t2 : Z)
    (payload : list (jsstring * json)) :
  generateToken (constructor (env_without_secret enabled user pass)) t1 t2 payload
  = None.
Proof.
  apply generateToken_needs_latin1_secret. exact default_secret_not_latin1.
Qed.

(** C7 fails on the code, by the defect of C10: with no [AUTH_SECRET] set,
    [login] throws instead of returning a guest token when authentication
    is off, and throws on the right credentials when it is on. *)
Theorem login_throws_on_default_secret
    (user pass : jsstring) (t1 t2 : Z) (request : LoginRequest) :
  login (constructor (env_without_secret None (Some user) (Some pass)))
    t1 t2 request = None
  /\ login (constructor (env_without_secret (Some (js "true"))
                          (Some (req_username request))
                          (Some (req_password request))))
       t1 t2 request = None.
Proof.
  split.
  - unfold login. cbn [constructor env_without_secret authEnabled AUTH_ENABLED].
    rewrite bool_decide_eq_false_2 by discriminate. cbn [negb].
    rewrite generateToken_needs_latin1_secret; [reflexivity|].
    exact default_secret_not_latin1.
  - unfold login.
    cbn [constructor env_without_secret authEnabled username password
         AUTH_ENABLED AUTH_USERNAME AUTH_PASSWORD].
    rewrite bool_decide_eq_true_2 by reflexivity. cbn [negb].
    rewrite !or_default_self. unfold str_eqb.
    rewrite !bool_decide_eq_true_2 by reflexivity. cbn [andb].
    rewrite generateToken_needs_latin1_secret; [reflexivity|].
    exact default_secret_not_latin1.
Qed.

(** *** The shape of a base64url segment *)

Lemma b64_char_range (i : Z) :
  0 <= i -> 0 <= b64_char i <= 255 /\ b64_char i <> 61.
Proof.
  intros Hi. unfold b64_char.
  repeat match goal with
         | |- context [?a <? ?b] => destruct (Z.ltb_spec a b)
         | |- context [?a =? ?b] => destruct (Z.eqb_spec a b)
         end; lia.
Qed.

Lemma latin1_Forall (s : jsstring) :
  latin1 s = true <-> Forall (fun c => 0 <= c <= 255) s.
Proof.
  unfold latin1. rewrite forallb_forall, Forall_forall.
  split; intros H c Hc; apply H in Hc; lia.
Qed.

(** The padded encoding is a run of alphabet characters followed by at
    most two [=]. *)
Lemma b64_encode_shape (n : nat) (x : jsstring) :
  (length x <= n)%nat -> Forall (fun c => 0 <= c) x ->
  exists body pad,
    b64_encode x = body ++ repeat 61 pad
    /\ Forall (fun c => 0 <= c <= 255 /\ c <> 61) body.
Proof.
  revert x. induction n as [|n IH]; intros x Hlen Hx.
  - destruct x; [|simpl in Hlen; lia]. exists [], 0%nat. split; [reflexivity|constructor].
  - destruct x as [|a [|b [|c r]]].
    + exists [], 0%nat. split; [reflexivity|constructor].
    + inversion_clear Hx as [|? ? Ha _].
      exists [b64_char (Z.shiftr a 2); b64_char (Z.shiftl (Z.land a 3) 4)], 2%nat.
      split; [reflexivity|].
      repeat constructor; apply b64_char_range;
        rewrite ?Z.shiftr_nonneg, ?Z.shiftl_nonneg, ?Z.land_nonneg; auto.
    + inversion_clear Hx as [|? ? Ha Hx']. inversion_clear Hx' as [|? ? Hb _].
      exists [b64_char (Z.shiftr a 2);
              b64_char (Z.lor (Z.shiftl (Z.land a 3) 4) (Z.shiftr b 4));
              b64_char (Z.shiftl (Z.land b 15) 2)], 1%nat.
      split; [reflexivity|].
      repeat constructor; apply b64_char_range;
        rewrite ?Z.lor_nonneg, ?Z.shiftr_nonneg, ?Z.shiftl_nonneg,
          ?Z.land_nonneg; auto.
    + inversion_clear Hx as [|? ? Ha Hx']. inversion_clear Hx' as [|? ? Hb Hx].
      inversion_clear Hx as [|? ? Hc Hr].
      destruct (IH r) as (body & pad & E & Hbody); [simpl in Hlen; lia|exact Hr|].
      exists (b64_char (Z.shiftr a 2)
              :: b64_char (Z.lor (Z.shiftl (Z.land a 3) 4) (Z.shiftr b 4))
              :: b64_char (Z.lor (Z.shiftl (Z.land b 15) 2) (Z.shiftr c 6))
              :: b64_char (Z.land c 63) :: body), pad.
      split; [simpl; rewrite E; reflexivity|].
      repeat constructor; try exact Hbody; apply b64_char_range;
        rewrite ?Z.lor_nonneg, ?Z.shiftr_nonneg, ?Z.shiftl_nonneg,
          ?Z.land_nonneg; auto.
Qed.

Lemma strip_trailing_repeat (c : Z) (n : nat) : strip_trailing c (repeat c n) = [].
Proof.
  induction n as [|n IH]; [reflexivity|]. simpl. rewrite IH, Z.eqb_refl. reflexivity.
Qed.

Lemma strip_trailing_padded (c : Z) (body : jsstring) (n : nat) :
  Forall (fun x => x <> c) body ->
  strip_trailing c (body ++ repeat c n) = body.
Proof.
  induction body as [|x b IH]; intros H.
  - apply strip_trailing_repeat.
  - inversion_clear H as [|? ? Hx Hb]. simpl. rewrite (IH Hb).
    destruct b; [|reflexivity].
    destruct (Z.eqb_spec x c); [contradiction|reflexivity].
Qed.

Lemma replace_all_repeat (c d x : Z) (n : nat) :
  x <> c -> replace_all c d (repeat x n) = repeat x n.
Proof.
  intros H. unfold replace_all. induction n as [|n IH]; [reflexivity|].
  simpl. rewrite IH. destruct (Z.eqb_spec x c); [contradiction|reflexivity].
Qed.

Lemma replace_all_app (c d : Z) (a b : jsstring) :
  replace_all c d (a ++ b) = replace_all c d a ++ replace_all c d b.
Proof. apply map_app. Qed.

Lemma replace_all_Forall (P Q : Z -> Prop) (c d : Z) (l : jsstring) :
  (forall x, P x -> Q (if x =? c then d else x)) ->
  Forall P l -> Forall Q (replace_all c d l).
Proof.
  intros H Hl. unfold replace_all. apply List.Forall_map.
  eapply List.Forall_impl; [exact H|exact Hl].
Qed.

(** Every segment [base64url] produces consists of segment characters. *)
Lemma base64url_shape (x y : jsstring) :
  base64url x = Some y -> Forall segment_char y.
Proof.
  unfold base64url, btoa. destruct (latin1 x) eqn:Hx; [|discriminate].
  cbn [mbind option_bind]. intros [= <-].
  apply latin1_Forall in Hx.
  destruct (b64_encode_shape (length x) x) as (body & pad & E & Hbody);
    [lia | eapply List.Forall_impl; [|exact Hx]; simpl; intros; lia |].
  rewrite E, !replace_all_app, !replace_all_repeat by lia.
  assert (Hseg : Forall segment_char (replace_all 47 95 (replace_all 43 45 body))).
  { apply (replace_all_Forall
             (fun c => 0 <= c <= 255 /\ c <> 61 /\ c <> 43)).
    - intros c Hc. unfold segment_char.
      destruct (Z.eqb_spec c 47); lia.
    - apply (replace_all_Forall (fun c => 0 <= c <= 255 /\ c <> 61));
        [|exact Hbody].
      intros c Hc. destruct (Z.eqb_spec c 43); lia. }
  rewrite strip_trailing_padded; [exact Hseg|].
  eapply List.Forall_impl; [|exact Hseg]. intros c Hc. apply Hc.
Qed.

Lemma segment_latin1 (y : jsstring) : Forall segment_char y -> latin1 y = true.
Proof.
  intros H. apply latin1_Forall. eapply List.Forall_impl; [|exact H].
  intros c Hc. apply Hc.
Qed.

Lemma base64url_total (x : jsstring) :
  latin1 x = true -> exists y, base64url x = Some y.
Proof. unfold base64url, btoa. intros ->. eauto. Qed.

(** [generateToken] returns a token exactly when [btoa] accepts its three
    arguments, that is when the secret and the JSON text of the claims are
    Latin-1. *)
Lemma generateToken_succeeds_iff this t1 t2 payload :
  (exists token, generateToken this t1 t2 payload = Some token) <->
  latin1 (secret this) = true
  /\ latin1 (JSON_stringify
               (JObj (set_property (js "iat") (JNum (Int (t2 / 1000)))
                        (set_property (js "exp")
                           (JNum (Int (t1 / 1000 + 24 * 60 * 60))) payload))))
     = true.
Proof.
  unfold generateToken.
  destruct (base64url (JSON_stringify jwt_header)) as [h|] eqn:Eh;
    [|vm_compute in Eh; discriminate].
  cbn [mbind option_bind].
  set (text := JSON_stringify (JObj _)).
  pose proof (segment_latin1 _ (base64url_shape _ _ Eh)) as Hh.
  split.
  - intros [token H].
    destruct (base64url text) as [c|] eqn:Ec; [|discriminate].
    cbn [mbind option_bind] in H.
    destruct (base64url (secret this ++ h ++ c)) as [s|] eqn:Es; [|discriminate].
    split.
    + unfold base64url, btoa in Es.
      destruct (latin1 (secret this ++ h ++ c)) eqn:E; [|discriminate].
      rewrite latin1_app in E. apply andb_true_iff in E. apply E.
    + unfold base64url, btoa in Ec.
      destruct (latin1 text); [reflexivity|discriminate].
  - intros [Hs Ht].
    destruct (base64url_total _ Ht) as [c Ec]. rewrite Ec.
    cbn [mbind option_bind].
    pose proof (segment_latin1 _ (base64url_shape _ _ Ec)) as Hc.
    destruct (base64url_total (secret this ++ h ++ c)) as [s Es].
    { rewrite !latin1_app, Hs, Hh, Hc. reflexivity. }
    rewrite Es. cbn [mbind option_bind]. eauto.
Qed.

(** C9, as stated, fails: the claims of the token issued for [admin] are
    the JSON text with the members [username], [exp] and [iat]; it has no
    [subject], [issuedAt] or [expiresAt] member. *)
Lemma issued_claims_have_no_subject :
  generateToken sample_api 1700000000123 1700000000123
    [(js "username", JStr (js "admin"))]
  = Some (dotted sample_header sample_claims sample_tag)
  /\ atob sample_claims
     = Some (json_text "{'username':'admin','exp':1700086400,'iat':1700000000}")
  /\ (decode_claims sample_claims ≫= fun d => get d (js "subject"))
     = Some Undefined
  /\ (decode_claims sample_claims ≫= fun d => get d (js "issuedAt"))
     = Some Undefined
  /\ (decode_claims sample_claims ≫= fun d => get d (js "expiresAt"))
     = Some Undefined.
Proof. repeat split; vm_compute; reflexivity. Qed.

(** C9, amended: a token returned by [generateToken] for an identity is
    [header.claims.tag], each segment base64url text without [=], [+] or
    [/]; the header encodes [{"alg":"HS256","typ":"JWT"}]; the claims
    segment encodes the JSON text of the object with the members
    [username] = the identity, [exp] = the first clock reading in seconds
    plus 86400, and [iat] = the second clock reading in seconds, in this
    order; the tag is the base64url text of the secret followed by the
    header and claims segments. *)
Theorem generateToken_format
    (this : API) (t1 t2 : Z) (identity token : jsstring) :
  generateToken this t1 t2 [(js "username", JStr identity)] = Some token ->
  exists header claims tag,
    token = dotted header claims tag
    /\ base64url (json_text "{'alg':'HS256','typ':'JWT'}") = Some header
    /\ base64url
         (JSON_stringify
            (JObj [(js "username", JStr identity);
                   (js "exp", JNum (Int (t1 / 1000 + 86400)));
                   (js "iat", JNum (Int (t2 / 1000)))]))
       = Some claims
    /\ JSON_stringify
         (JObj [(js "username", JStr identity);
                (js "exp", JNum (Int (t1 / 1000 + 86400)));
                (js "iat", JNum (Int (t2 / 1000)))])
       = json_text "{'username':" ++ quote identity
           ++ json_text ",'exp':" ++ number_to_string (Int (t1 / 1000 + 86400))
           ++ json_text ",'iat':" ++ number_to_string (Int (t2 / 1000))
           ++ json_text "}"
    /\ expected_tag this header claims = Some tag
    /\ Forall segment_char header
    /\ Forall segment_char claims
    /\ Forall segment_char tag.
Proof.
  unfold generateToken, expected_tag.
  change (JSON_stringify jwt_header)
    with (json_text "{'alg':'HS256','typ':'JWT'}").
  change (set_property (js "iat") (JNum (Int (t2 / 1000)))
            (set_property (js "exp") (JNum (Int (t1 / 1000 + 24 * 60 * 60)))
               [(js "username", JStr identity)]))
    with [(js "username", JStr identity);
          (js "exp", JNum (Int (t1 / 1000 + 86400)));
          (js "iat", JNum (Int (t2 / 1000)))].
  destruct (base64url (json_text _)) as [h|] eqn:Eh; [|discriminate].
  cbn [mbind option_bind].
  destruct (base64url (JSON_stringify _)) as [c|] eqn:Ec; [|discriminate].
  cbn [mbind option_bind].
  destruct (base64url (secret this ++ h ++ c)) as [s|] eqn:Es; [|discriminate].
  cbn [mbind option_bind]. intros [= <-].
  exists h, c, s.
  repeat split; try reflexivity; eauto using base64url_shape.
  cbn [JSON_stringify map join fst snd]. unfold quote.
  rewrite <- !app_assoc. reflexivity.
Qed.

Lemma generateToken_format_witness :
  exists header claims tag,
    sample_token = dotted header claims tag
    /\ base64url (json_text "{'alg':'HS256','typ':'JWT'}") = Some header
    /\ base64url
         (JSON_stringify
            (JObj [(js "username", JStr (js "admin"));
                   (js "exp", JNum (Int (1700000000123 / 1000 + 86400)));
                   (js "iat", JNum (Int (1700000000123 / 1000)))]))
       = Some claims
    /\ JSON_stringify
         (JObj [(js "username", JStr (js "admin"));
                (js "exp", JNum (Int (1700000000123 / 1000 + 86400)));
                (js "iat", JNum (Int (1700000000123 / 1000)))])
       = json_text "{'username':" ++ quote (js "admin")
           ++ json_text ",'exp':"
           ++ number_to_string (Int (1700000000123 / 1000 + 86400))
           ++ json_text ",'iat':"
           ++ number_to_string (Int (1700000000123 / 1000))
           ++ json_text "}"
    /\ expected_tag sample_api header claims = Some tag
    /\ Forall segment_char header
    /\ Forall segment_char claims
    /\ Forall segment_char tag.
Proof.
  apply (generateToken_format sample_api 1700000000123 1700000000123
           (js "admin") sample_token).
  vm_compute. reflexivity.
Defined.

(** ** Order Sync: [updateGroupOrder] and [updateSiteOrder] *)














(** *** The order routes *)

Lemma item_rejected_acceptable (item : json) :
  item_rejected item
  = match item with
    | JNull => None
    | _ => Some (negb (acceptable item))
    end.
Proof.
  destruct item as [| b | n | x | l | l]; try reflexivity.
  unfold item_rejected, acceptable. cbn [get mbind option_bind].
  destruct (own_property (js "id") l) as [|[| b | n | x | l' | l']];
    try reflexivity.
  - destruct b; reflexivity.
  - cbn [truthy is_number].
    destruct (own_property (js "order_num") l) as [|[| b | m | x | l' | l']];
      destruct (is_zero n); reflexivity.
  - cbn [truthy]. destruct (is_empty x); reflexivity.
Qed.


(** The loop runs to its end exactly on the lists of acceptable items. *)
Lemma items_accepted_true (data : list json) :
  items_accepted data = Some true <-> Forall (fun item => acceptable item = true) data.
Proof.
  induction data as [|item rest IH]; cbn [items_accepted].
  - split; [constructor|reflexivity].
  - rewrite item_rejected_acceptable. split.
    + destruct item; try discriminate;
        (destruct (acceptable _) eqn:E; cbn [negb]; [|discriminate]);
        intros H; constructor; [exact E | apply IH, H].
    + intros H. inversion_clear H as [|? ? Ha Hr].
      destruct item; try discriminate Ha; rewrite Ha; cbn [negb]; apply IH, Hr.
Qed.


Lemma lookup_map {A B} (f : A -> B) (l : list A) (k : nat) :
  map f l !! k = f <$> l !! k.
Proof.
  revert k. induction l as [|x r IH]; intros [|k]; cbn; try reflexivity.
  apply IH.
Qed.






(** The scenario of the spec: the three groups reordered without failure
    end at the positions 1, 0, 2; under a failure after the first
    statement they keep the positions 0, 1, 2. *)
Example sample_reorder_applied :
  let after := store (fst (updateGroupOrder Commits 2000 sample_reorder sample_db)) in
  let failed := store (fst (updateGroupOrder (Aborts 1) 2000 sample_reorder sample_db)) in
  (g_order_num <$> groups after !! 1, g_order_num <$> groups after !! 2,
   g_order_num <$> groups after !! 3)
  = (Some (Int 1), Some (Int 0), Some (Int 2))
  /\ (g_order_num <$> groups failed !! 1, g_order_num <$> groups failed !! 2,
      g_order_num <$> groups failed !! 3)
     = (Some (Int 0), Some (Int 1), Some (Int 2))
  /\ snd (updateGroupOrder (Aborts 1) 2000 sample_reorder sample_db) = false.
Proof. repeat split; vm_compute; reflexivity. Qed.






(** *** What [login] does around the token *)

(** With authentication off, [login] is the guest token wrapped in a
    success response, whatever the request. *)
Lemma login_disabled this t1 t2 request :
  authEnabled this = false ->
  login this t1 t2 request
  = (tok ← generateToken this t1 t2 [(js "username", JStr (js "guest"))];
     Some {| success := true; token := Some tok; message := MsgAuthDisabled |}).
Proof. unfold login. intros ->. reflexivity. Qed.

(** With authentication on and the configured credentials, [login] is the
    token for the user wrapped in a success response. *)
Lemma login_right_credentials this t1 t2 request :
  authEnabled this = true ->
  req_username request = username this ->
  req_password request = password this ->
  login this t1 t2 request
  = (tok ← generateToken this t1 t2
             [(js "username", JStr (req_username request))];
     Some {| success := true; token := Some tok; message := MsgLoggedIn |}).
Proof.
  unfold login, str_eqb. intros -> -> ->.
  rewrite !bool_decide_eq_true_2 by reflexivity. reflexivity.
Qed.

(** With authentication on, any difference in the user name or in the
    password gives the same failure response, without a token. *)
Lemma login_wrong_credentials this t1 t2 request :
  authEnabled this = true ->
  req_username request <> username this \/ req_password request <> password this ->
  login this t1 t2 request
  = Some {| success := false; token := None; message := MsgBadCredentials |}.
Proof.
  unfold login, str_eqb. intros -> [H | H]; cbn [negb].
  - rewrite (bool_decide_eq_false_2 _ H). reflexivity.
  - rewrite (bool_decide_eq_false_2 _ H), andb_false_r. reflexivity.
Qed.

(** With a Latin-1 secret the sample deployment logs its user in. *)
Example login_sample :
  login sample_api 1700000000123 1700000000123
    {| req_username := js "admin"; req_password := js "pw" |}
  = Some {| success := true; token := Some sample_token; message := MsgLoggedIn |}
  /\ login sample_api 1700000000123 1700000000123
       {| req_username := js "Admin"; req_password := js "pw" |}
     = Some {| success := false; token := None; message := MsgBadCredentials |}.
Proof. split; vm_compute; reflexivity. Qed.

(** *** When the token can be issued *)

Lemma latin1_cons (c : Z) (s : jsstring) :
  latin1 (c :: s) = (0 <=? c) && (c <=? 255) && latin1 s.
Proof. reflexivity. Qed.

Lemma latin1_js (s : string) : latin1 (js s) = true.
Proof.
  induction s as [|a s IH]; [reflexivity|].
  change (js (String a s)) with (Z.of_N (N_of_ascii a) :: js s).
  rewrite latin1_cons, IH. pose proof (N_ascii_bounded a).
  apply andb_true_iff. split; [|reflexivity].
  apply andb_true_iff. split; lia.
Qed.

Lemma latin1_repeat (c : Z) (n : nat) :
  0 <= c <= 255 -> latin1 (repeat c n) = true.
Proof.
  intros Hc. induction n as [|n IH]; [reflexivity|].
  cbn [repeat]. rewrite latin1_cons, IH.
  apply andb_true_iff. split; [|reflexivity]. apply andb_true_iff. split; lia.
Qed.

Lemma latin1_take (n : nat) (s : jsstring) :
  latin1 s = true -> latin1 (take n s) = true.
Proof.
  revert n. induction s as [|c r IH]; intros [|n] H; try reflexivity.
  rewrite latin1_cons in H. apply andb_true_iff in H as [Hc Hr].
  cbn [take]. rewrite latin1_cons, Hc. apply IH, Hr.
Qed.

Lemma latin1_drop (n : nat) (s : jsstring) :
  latin1 s = true -> latin1 (drop n s) = true.
Proof.
  revert n. induction s as [|c r IH]; intros [|n] H; try reflexivity; [exact H|].
  rewrite latin1_cons in H. apply andb_true_iff in H as [Hc Hr].
  cbn [drop]. apply IH, Hr.
Qed.

Lemma latin1_strip_trailing (c : Z) (s : jsstring) :
  latin1 s = true -> latin1 (strip_trailing c s) = true.
Proof.
  induction s as [|x r IH]; [reflexivity|].
  rewrite latin1_cons. intros H. apply andb_true_iff in H as [Hx Hr].
  cbn [strip_trailing]. specialize (IH Hr).
  destruct (strip_trailing c r) as [|y r'].
  - destruct (x =? c); [reflexivity|]. rewrite latin1_cons, Hx. reflexivity.
  - rewrite latin1_cons, Hx, IH. reflexivity.
Qed.

Lemma latin1_digits_of (z : Z) : latin1 (digits_of z) = true.
Proof. apply latin1_js. Qed.

Lemma latin1_place_digits (ds : jsstring) (n : Z) :
  latin1 ds = true -> latin1 (place_digits ds n) = true.
Proof.
  intros H. unfold place_digits, zeros.
  destruct (_ && _).
  { rewrite latin1_app, H, latin1_repeat by lia. reflexivity. }
  destruct (_ && _).
  { rewrite !latin1_app, latin1_take, latin1_drop by exact H. reflexivity. }
  destruct (_ && _).
  { rewrite !latin1_app, H, latin1_repeat by lia. reflexivity. }
  match goal with
  | |- context [?m ++ [101] ++ _] =>
      assert (Hm : latin1 m = true)
        by (destruct ds as [|d [|d' r]]; exact H);
      rewrite !latin1_app, Hm, latin1_digits_of
  end.
  destruct (n - 1 <? 0); reflexivity.
Qed.

Lemma latin1_number_to_string (x : number) : latin1 (number_to_string x) = true.
Proof.
  destruct x as [z | m k]; unfold number_to_string.
  - destruct (z =? 0); [reflexivity|]. unfold significant.
    rewrite latin1_app, latin1_place_digits
      by apply latin1_strip_trailing, latin1_digits_of.
    destruct (z <? 0); reflexivity.
  - rewrite latin1_app, latin1_place_digits by apply latin1_digits_of.
    destruct (m <? 0); reflexivity.
Qed.

Lemma hex_char_nibble (x : Z) : 0 <= hex_char (Z.land x 15) <= 255.
Proof.
  change 15 with (Z.ones 4). rewrite Z.land_ones by lia.
  pose proof (Z.mod_pos_bound x (2 ^ 4) eq_refl). unfold hex_char.
  destruct (_ <? 10); lia.
Qed.

Lemma latin1_unicode_escape (c : Z) : latin1 (unicode_escape c) = true.
Proof.
  unfold unicode_escape. rewrite !latin1_cons.
  pose proof (hex_char_nibble (Z.shiftr c 12)).
  pose proof (hex_char_nibble (Z.shiftr c 8)).
  pose proof (hex_char_nibble (Z.shiftr c 4)).
  pose proof (hex_char_nibble c).
  repeat (apply andb_true_iff; split); try reflexivity; lia.
Qed.

(** The quoted form of a Latin-1 string is Latin-1. *)
Lemma latin1_quote_chars (s : jsstring) :
  latin1 s = true -> latin1 (quote_chars s) = true.
Proof.
  induction s as [|c r IH]; [reflexivity|].
  rewrite latin1_cons. intros H. apply andb_true_iff in H as [Hc Hr].
  specialize (IH Hr). cbn [quote_chars].
  repeat match goal with
         | |- context [if ?c =? ?k then _ else _] =>
             destruct (Z.eqb_spec c k); [rewrite !latin1_cons, IH; reflexivity|]
         end.
  destruct (c <? 32).
  { rewrite latin1_app, latin1_unicode_escape, IH. reflexivity. }
  assert (Hh : is_high_surrogate c = false).
  { unfold is_high_surrogate. apply andb_true_iff in Hc as [_ Hc].
    apply andb_false_iff. left. lia. }
  assert (Hl : is_low_surrogate c = false).
  { unfold is_low_surrogate. apply andb_true_iff in Hc as [_ Hc].
    apply andb_false_iff. left. lia. }
  rewrite Hh, Hl, latin1_cons, Hc, IH. reflexivity.
Qed.

Lemma latin1_quote (s : jsstring) : latin1 s = true -> latin1 (quote s) = true.
Proof.
  intros H. unfold quote. rewrite !latin1_app, latin1_quote_chars by exact H.
  reflexivity.
Qed.

(** With a Latin-1 secret, [generateToken] returns a token for every
    Latin-1 identity, at every time. *)
Lemma generateToken_latin1 this t1 t2 identity :
  latin1 (secret this) = true -> latin1 identity = true ->
  exists token,
    generateToken this t1 t2 [(js "username", JStr identity)] = Some token.
Proof.
  intros Hs Hi. apply generateToken_succeeds_iff. split; [exact Hs|].
  change (set_property (js "iat") (JNum (Int (t2 / 1000)))
            (set_property (js "exp") (JNum (Int (t1 / 1000 + 24 * 60 * 60)))
               [(js "username", JStr identity)]))
    with [(js "username", JStr identity);
          (js "exp", JNum (Int (t1 / 1000 + 86400)));
          (js "iat", JNum (Int (t2 / 1000)))].
  cbn [JSON_stringify map join fst snd].
  rewrite !latin1_app, !latin1_quote, !latin1_number_to_string
    by (exact Hi || apply latin1_js).
  reflexivity.
Qed.

(** With a Latin-1 secret, [login] with authentication off succeeds with a
    guest token for every request. *)
Lemma login_guest_succeeds this t1 t2 request :
  latin1 (secret this) = true -> authEnabled this = false ->
  exists tok,
    login this t1 t2 request
    = Some {| success := true; token := Some tok; message := MsgAuthDisabled |}.
Proof.
  intros Hs Hd. rewrite (login_disabled _ _ _ _ Hd).
  destruct (generateToken_latin1 this t1 t2 (js "guest") Hs (latin1_js _))
    as [tok ->].
  exists tok. reflexivity.
Qed.

(** A user name outside Latin-1 makes [generateToken] throw even with a
    Latin-1 secret. *)
Example generateToken_chinese_user :
  generateToken sample_api 1700000000123 1700000000123
    [(js "username", JStr [31649; 29702; 21592])] = None.
Proof. vm_compute. reflexivity. Qed.

Example number_to_string_seconds :
  number_to_string (Int 1700086400) = js "1700086400".
Proof. vm_compute. reflexivity. Qed.

(** The row an [UPDATE] touches has the bound [order_num]; its other
    columns, the timestamp of the update apart, are kept. *)
Lemma touch_group_columns (o : number) (ts : Z) (g : Group) :
  g_order_num (touch_group o ts g) = o
  /\ g_updated_at (touch_group o ts g) = ts
  /\ g_name (touch_group o ts g) = g_name g
  /\ g_created_at (touch_group o ts g) = g_created_at g.
Proof. repeat split. Qed.

Lemma touch_site_columns (o : number) (ts : Z) (x : Site) :
  s_order_num (touch_site o ts x) = o
  /\ s_updated_at (touch_site o ts x) = ts
  /\ s_group_id (touch_site o ts x) = s_group_id x
  /\ s_name (touch_site o ts x) = s_name x
  /\ s_url (touch_site o ts x) = s_url x.
Proof. repeat split. Qed.

(** Outside the precondition of distinct ids: of two items for one id the
    later one decides the position. *)
Example repeated_id_last_wins :
  g_order_num <$>
    groups (store (fst (updateGroupOrder Commits 2000
                          [ {| id := Int 1; order_num := Int 5 |};
                            {| id := Int 1; order_num := Int 7 |} ]
                          sample_db))) !! 1
  = Some (Int 7).
Proof. vm_compute. reflexivity. Qed.

(** ** Round trip of a segment: [base64url] then [atob] *)

Lemma in_all_bytes (a : Z) : 0 <= a <= 255 -> In a all_bytes.
Proof. intros H. apply list_elem_of_In, elem_of_seqZ. lia. Qed.

Lemma in_all_sextets (i : Z) : 0 <= i < 64 -> In i all_sextets.
Proof. intros H. apply list_elem_of_In, elem_of_seqZ. lia. Qed.

(** A property of one or two bytes holds when it holds on every byte. *)
Lemma byte_cases (P : Z -> bool) :
  forallb P all_bytes = true -> forall a, 0 <= a <= 255 -> P a = true.
Proof.
  intros H a Ha. rewrite forallb_forall in H. apply H, in_all_bytes, Ha.
Qed.

Lemma byte_pair_cases (P : Z -> Z -> bool) :
  forallb (fun a => forallb (P a) all_bytes) all_bytes = true ->
  forall a b, 0 <= a <= 255 -> 0 <= b <= 255 -> P a b = true.
Proof.
  intros H a b Ha Hb.
  apply (byte_cases (P a)); [|exact Hb].
  apply (byte_cases (fun a => forallb (P a) all_bytes)); assumption.
Qed.

Lemma sextet_cases (P : Z -> bool) :
  forallb P all_sextets = true -> forall i, 0 <= i < 64 -> P i = true.
Proof.
  intros H i Hi. rewrite forallb_forall in H. apply H, in_all_sextets, Hi.
Qed.

Lemma is_sextet_spec (i : Z) : is_sextet i = true <-> 0 <= i < 64.
Proof. unfold is_sextet. rewrite andb_true_iff. lia. Qed.

Ltac split_ands :=
  repeat match goal with
         | H : _ && _ = true |- _ => apply andb_true_iff in H; destruct H
         end.

(** Induction in steps of three bytes, as [btoa] consumes them. *)
Lemma three_step_ind (P : list Z -> Prop) :
  P [] -> (forall a, P [a]) -> (forall a b, P [a; b]) ->
  (forall a b c r, P r -> P (a :: b :: c :: r)) ->
  forall s, P s.
Proof.
  intros H0 H1 H2 H3 s.
  assert (H : forall n s, (length s <= n)%nat -> P s).
  { clear s. induction n as [|n IH]; intros s Hs.
    - destruct s; [exact H0|simpl in Hs; lia].
    - destruct s as [|a [|b [|c r]]]; auto.
      apply H3, IH. simpl in Hs. lia. }
  apply (H (length s)). lia.
Qed.

Lemma b64_encode_sextets (s : list Z) :
  b64_encode s = map b64_char (sextets s) ++ repeat 61 (padding s).
Proof.
  induction s as [| a | a b | a b c r IH] using three_step_ind;
    try reflexivity.
  cbn [b64_encode sextets padding map app]. rewrite IH. reflexivity.
Qed.

Lemma sextets_length (s : list Z) :
  (length (sextets s) mod 4 <> 1)%nat.
Proof.
  induction s as [| a | a b | a b c r IH] using three_step_ind;
    try (cbn; lia).
  cbn [sextets length].
  change (S (S (S (S (length (sextets r))))))
    with (4 + length (sextets r))%nat.
  rewrite <- Nat.Div0.add_mod_idemp_l. exact IH.
Qed.

Lemma sextets_range (s : list Z) :
  Forall (fun c => 0 <= c <= 255) s ->
  Forall (fun i => is_sextet i = true) (sextets s).
Proof.
  assert (H1 : forall a, 0 <= a <= 255 ->
             is_sextet (Z.shiftr a 2) && is_sextet (Z.shiftl (Z.land a 3) 4)
             && is_sextet (Z.shiftl (Z.land a 15) 2) && is_sextet (Z.land a 63)
             = true).
  { apply (byte_cases (fun a => _)). vm_compute. reflexivity. }
  assert (H2 : forall a b, 0 <= a <= 255 -> 0 <= b <= 255 ->
             is_sextet (Z.lor (Z.shiftl (Z.land a 3) 4) (Z.shiftr b 4))
             && is_sextet (Z.lor (Z.shiftl (Z.land a 15) 2) (Z.shiftr b 6))
             = true).
  { apply (byte_pair_cases (fun a b => _)). vm_compute. reflexivity. }
  induction s as [| a | a b | a b c r IH] using three_step_ind; intros Hs.
  - constructor.
  - inversion_clear Hs as [|? ? Ha _].
    pose proof (H1 a Ha) as Pa. split_ands.
    cbn [sextets]. repeat (constructor; [assumption|]). constructor.
  - inversion_clear Hs as [|? ? Ha Hs']. inversion_clear Hs' as [|? ? Hb _].
    pose proof (H1 a Ha) as Pa. pose proof (H1 b Hb) as Pb.
    pose proof (H2 a b Ha Hb) as Pab. split_ands.
    cbn [sextets]. repeat (constructor; [assumption|]). constructor.
  - inversion_clear Hs as [|? ? Ha Hs']. inversion_clear Hs' as [|? ? Hb Hs].
    inversion_clear Hs as [|? ? Hc Hr].
    pose proof (H1 a Ha) as Pa. pose proof (H1 c Hc) as Pc.
    pose proof (H2 a b Ha Hb) as Pab. pose proof (H2 b c Hb Hc) as Pbc.
    split_ands. cbn [sextets].
    repeat (constructor; [assumption|]). exact (IH Hr).
Qed.

(** The bytes come back from their six-bit groups. *)
Lemma b64_decode_sextets (s : list Z) :
  Forall (fun c => 0 <= c <= 255) s -> b64_decode (sextets s) = s.
Proof.
  assert (H1 : forall a, 0 <= a <= 255 ->
             (Z.lor (Z.shiftl (Z.shiftr a 2) 2)
                (Z.shiftr (Z.shiftl (Z.land a 3) 4) 4) =? a) = true).
  { apply (byte_cases (fun a => _)). vm_compute. reflexivity. }
  assert (H2 : forall a b, 0 <= a <= 255 -> 0 <= b <= 255 ->
             (Z.lor (Z.shiftl (Z.shiftr a 2) 2)
                (Z.shiftr (Z.lor (Z.shiftl (Z.land a 3) 4) (Z.shiftr b 4)) 4)
              =? a)
             && (Z.lor
                   (Z.shiftl
                      (Z.land (Z.lor (Z.shiftl (Z.land a 3) 4) (Z.shiftr b 4)) 15)
                      4)
                   (Z.shiftr (Z.shiftl (Z.land b 15) 2) 2)
                 =? b)
             && (Z.land (Z.lor (Z.shiftl (Z.land a 3) 4) (Z.shiftr b 4)) 15
                 =? Z.shiftr b 4)
             && (Z.shiftr (Z.lor (Z.shiftl (Z.land a 15) 2) (Z.shiftr b 6)) 2
                 =? Z.land a 15)
             && (Z.land (Z.lor (Z.shiftl (Z.land a 15) 2) (Z.shiftr b 6)) 3
                 =? Z.shiftr b 6)
             && (Z.lor (Z.shiftl (Z.shiftr b 4) 4) (Z.land b 15) =? b)
             && (Z.lor (Z.shiftl (Z.shiftr b 6) 6) (Z.land b 63) =? b)
             = true).
  { apply (byte_pair_cases (fun a b => _)). vm_compute. reflexivity. }
  induction s as [| a | a b | a b c r IH] using three_step_ind; intros Hs.
  - reflexivity.
  - inversion_clear Hs as [|? ? Ha _].
    cbn [sextets b64_decode]. f_equal. apply Z.eqb_eq, H1, Ha.
  - inversion_clear Hs as [|? ? Ha Hs']. inversion_clear Hs' as [|? ? Hb _].
    pose proof (H2 a b Ha Hb) as P. split_ands.
    repeat match goal with H : (_ =? _) = true |- _ => apply Z.eqb_eq in H end.
    cbn [sextets b64_decode]. f_equal; [assumption|]. f_equal. assumption.
  - inversion_clear Hs as [|? ? Ha Hs']. inversion_clear Hs' as [|? ? Hb Hs].
    inversion_clear Hs as [|? ? Hc Hr].
    pose proof (H2 a b Ha Hb) as Pab. pose proof (H2 b c Hb Hc) as Pbc.
    split_ands.
    repeat match goal with H : (_ =? _) = true |- _ => apply Z.eqb_eq in H end.
    cbn [sextets b64_decode]. rewrite (IH Hr).
    repeat match goal with H : _ = _ |- _ => rewrite H end.
    reflexivity.
Qed.

Lemma sextet_characters (i : Z) :
  0 <= i < 64 ->
  url_char i <> 61
  /\ is_url_char (url_char i) = true
  /\ (if url_char i =? 45 then 43
      else if url_char i =? 95 then 47 else url_char i) = b64_char i
  /\ is_ascii_whitespace (b64_char i) = false
  /\ b64_char i <> 61
  /\ b64_index (b64_char i) = Some i.
Proof.
  intros Hi.
  assert (H : negb (url_char i =? 61) && is_url_char (url_char i)
              && ((if url_char i =? 45 then 43
                   else if url_char i =? 95 then 47 else url_char i)
                  =? b64_char i)
              && negb (is_ascii_whitespace (b64_char i))
              && negb (b64_char i =? 61)
              && bool_decide (b64_index (b64_char i) = Some i) = true).
  { revert i Hi. apply (sextet_cases (fun i => _)). vm_compute. reflexivity. }
  split_ands.
  repeat match goal with
         | H : negb _ = true |- _ => apply negb_true_iff in H
         | H : (_ =? _) = true |- _ => apply Z.eqb_eq in H
         | H : (_ =? _) = false |- _ => apply Z.eqb_neq in H
         | H : bool_decide _ = true |- _ => apply bool_decide_eq_true_1 in H
         end.
  repeat split; assumption.
Qed.

Lemma Forall_sextet (l : list Z) :
  Forall (fun i => is_sextet i = true) l -> Forall (fun i => 0 <= i < 64) l.
Proof.
  intros H. eapply List.Forall_impl; [|exact H]. intros i. apply is_sextet_spec.
Qed.

(** The segment [base64url] writes, group by group. *)
Lemma base64url_sextets (x : jsstring) :
  latin1 x = true -> base64url x = Some (map url_char (sextets x)).
Proof.
  intros Hx. unfold base64url, btoa. rewrite Hx. cbn [mbind option_bind].
  f_equal. apply latin1_Forall in Hx.
  pose proof (Forall_sextet _ (sextets_range _ Hx)) as Hs.
  rewrite b64_encode_sextets, !replace_all_app, !replace_all_repeat by lia.
  unfold replace_all. rewrite map_map, map_map.
  change (map (fun x0 : Z => _) (sextets x)) with (map url_char (sextets x)).
  apply strip_trailing_padded. apply List.Forall_map.
  eapply List.Forall_impl; [|exact Hs].
  intros i Hi. apply (sextet_characters i Hi).
Qed.

Lemma strip_padding_none (d : jsstring) :
  Forall (fun c => c <> 61) d -> strip_padding d = d.
Proof.
  intros H. unfold strip_padding.
  destruct (rev d) as [|c r] eqn:E; [reflexivity|].
  assert (Hc : c <> 61).
  { rewrite List.Forall_forall in H. apply H, in_rev. rewrite E. left. reflexivity. }
  clear E H. destruct c as [|p|p]; try reflexivity.
  do 6 (try (destruct p as [p|p|]; try reflexivity)). contradiction.
Qed.

(** [atob] of the base64 characters of six-bit groups, when their number
    is not 1 modulo 4. *)
Lemma atob_b64_chars (idx : list Z) :
  Forall (fun i => 0 <= i < 64) idx ->
  (length idx mod 4 <> 1)%nat ->
  atob (map b64_char idx) = Some (b64_decode idx).
Proof.
  intros Hidx Hlen. unfold atob.
  assert (Hf : List.filter (fun c => negb (is_ascii_whitespace c))
                 (map b64_char idx) = map b64_char idx).
  { clear Hlen. induction Hidx as [|i r Hi _ IH]; [reflexivity|].
    cbn [map List.filter].
    destruct (sextet_characters i Hi) as (_ & _ & _ & -> & _).
    cbn [negb]. rewrite IH. reflexivity. }
  assert (Hp : strip_padding (map b64_char idx) = map b64_char idx).
  { apply strip_padding_none, List.Forall_map.
    eapply List.Forall_impl; [|exact Hidx].
    intros i Hi. apply (sextet_characters i Hi). }
  assert (Hm : mapM b64_index (map b64_char idx) = Some idx).
  { clear Hlen Hf Hp. induction Hidx as [|i r Hi _ IH]; [reflexivity|].
    cbn [map mapM].
    destruct (sextet_characters i Hi) as (_ & _ & _ & _ & _ & ->).
    cbn [mbind option_bind]. rewrite IH. reflexivity. }
  rewrite Hf, Hp. destruct (_ =? 0); rewrite length_map.
  all: replace (Z.of_nat (length idx) mod 4 =? 1) with false
    by (symmetry; apply Z.eqb_neq; intros E; apply Hlen;
        apply Nat2Z.inj; rewrite Nat2Z.inj_mod; exact E).
  all: rewrite Hm; reflexivity.
Qed.

Lemma base64url_Some_latin1 (x y : jsstring) :
  base64url x = Some y -> latin1 x = true.
Proof.
  unfold base64url, btoa. destruct (latin1 x); [reflexivity|discriminate].
Qed.

Lemma unmap_url_chars (idx : list Z) :
  Forall (fun i => 0 <= i < 64) idx ->
  replace_all 95 47 (replace_all 45 43 (map url_char idx)) = map b64_char idx.
Proof.
  intros H. unfold replace_all. rewrite !map_map.
  induction H as [|i r Hi _ IH]; [reflexivity|].
  cbn [map]. rewrite IH. f_equal. cbv beta.
  destruct (sextet_characters i Hi) as (_ & _ & E & _). rewrite <- E.
  destruct (url_char i =? 45); reflexivity.
Qed.

Lemma base64url_decodes (x y : jsstring) :
  base64url x = Some y -> decode_segment y = Some x.
Proof.
  intros H. pose proof (base64url_Some_latin1 _ _ H) as Hx.
  rewrite (base64url_sextets _ Hx) in H. injection H as <-.
  pose proof (proj1 (latin1_Forall _) Hx) as Hb.
  pose proof (Forall_sextet _ (sextets_range _ Hb)) as Hs.
  unfold decode_segment.
  rewrite (unmap_url_chars _ Hs), (atob_b64_chars _ Hs (sextets_length x)).
  rewrite (b64_decode_sextets _ Hb). reflexivity.
Qed.

Lemma base64url_url_chars (x y : jsstring) :
  base64url x = Some y -> Forall (fun c => is_url_char c = true) y.
Proof.
  intros H. pose proof (base64url_Some_latin1 _ _ H) as Hx.
  rewrite (base64url_sextets _ Hx) in H. injection H as <-.
  pose proof (proj1 (latin1_Forall _) Hx) as Hb.
  pose proof (Forall_sextet _ (sextets_range _ Hb)) as Hs.
  apply List.Forall_map. eapply List.Forall_impl; [|exact Hs].
  intros i Hi. apply (sextet_characters i Hi).
Qed.

(** X1: what [generateToken] encodes, [verifyToken] decodes.  Whenever
    [base64url] returns a segment for a text, the segment consists of
    letters, digits, [-] and [_] only, and mapping [-] and [_] back and
    applying [atob], as [verifyToken] does, returns the text. *)
Theorem segment_round_trip (x y : jsstring) :
  base64url x = Some y ->
  decode_segment y = Some x /\ Forall (fun c => is_url_char c = true) y.
Proof.
  intros H. split.
  - exact (base64url_decodes x y H).
  - exact (base64url_url_chars x y H).
Qed.

Lemma segment_round_trip_witness :
  decode_segment sample_claims
  = Some (json_text "{'username':'admin','exp':1700086400,'iat':1700000000}")
  /\ Forall (fun c => is_url_char c = true) sample_claims.
Proof.
  apply (segment_round_trip
           (json_text "{'username':'admin','exp':1700086400,'iat':1700000000}")
           sample_claims).
  vm_compute. reflexivity.
Defined.

(** ** Round trip of the claims: [JSON.stringify] then [JSON.parse] *)


(** *** Decimal digits *)

Lemma uint_values_range (u : Decimal.uint) :
  Forall (fun d => 0 <= d <= 9) (uint_values u).
Proof. induction u; cbn [uint_values]; constructor; (lia || assumption). Qed.

Lemma js_string_of_uint (u : Decimal.uint) :
  js (NilEmpty.string_of_uint u) = map (fun d => 48 + d) (uint_values u).
Proof.
  induction u; cbn [uint_values map NilEmpty.string_of_uint];
    [reflexivity | ..];
    match goal with
    | |- js (String ?a ?s) = _ =>
        change (js (String a s)) with (Z.of_N (N_of_ascii a) :: js s)
    end; rewrite IHu; reflexivity.
Qed.

Lemma to_uint_not_nil (n : N) : N.to_uint n <> Decimal.Nil.
Proof.
  destruct n as [|p]; [discriminate|]. apply DecimalPos.Unsigned.to_uint_nonnil.
Qed.

Lemma digits_of_values (n : Z) :
  digits_of n = map (fun d => 48 + d) (digit_values n).
Proof.
  unfold digits_of, digit_values. rewrite <- js_string_of_uint.
  pose proof (to_uint_not_nil (Z.to_N n)) as H.
  destruct (N.to_uint (Z.to_N n)); [contradiction|..]; reflexivity.
Qed.

Lemma fold_of_uint_acc (u : Decimal.uint) (acc : positive) :
  fold_left (fun a d => a * 10 + d) (uint_values u) (Z.pos acc)
  = Z.pos (Pos.of_uint_acc u acc).
Proof.
  revert acc. induction u; intros acc; cbn [uint_values fold_left Pos.of_uint_acc];
    [reflexivity | ..];
    match goal with
    | |- fold_left _ _ ?x = Z.pos (Pos.of_uint_acc _ ?y) =>
        replace x with (Z.pos y) by lia
    end; apply IHu.
Qed.

Lemma fold_of_uint (u : Decimal.uint) :
  digits_value 10 (uint_values u) = Z.of_N (Pos.of_uint u).
Proof.
  unfold digits_value.
  induction u; cbn [uint_values fold_left Pos.of_uint];
    [reflexivity | exact IHu | ..];
    match goal with
    | |- fold_left _ _ ?x = Z.of_N (N.pos (Pos.of_uint_acc _ ?y)) =>
        change x with (Z.pos y)
    end; apply fold_of_uint_acc.
Qed.

(** The value of the digits of a natural number is the number. *)
Lemma digit_values_value (n : Z) :
  0 <= n -> digits_value 10 (digit_values n) = n.
Proof.
  intros Hn. unfold digit_values. rewrite fold_of_uint.
  change (Pos.of_uint ?u) with (N.of_uint u).
  rewrite DecimalN.Unsigned.of_to. lia.
Qed.

Lemma nzhead_not_D0 (u v : Decimal.uint) : Decimal.nzhead u <> Decimal.D0 v.
Proof. induction u; cbn [Decimal.nzhead]; try discriminate. exact IHu. Qed.

(** The digits of a number have no leading zero, the single digit of 0
    apart. *)
Lemma digit_values_head (n : Z) :
  exists d r, digit_values n = d :: r /\ (d = 0 -> r = []).
Proof.
  unfold digit_values. set (m := Z.to_N n).
  assert (Hnorm : Decimal.unorm (N.to_uint m) = N.to_uint m).
  { rewrite <- DecimalN.Unsigned.to_of, DecimalN.Unsigned.of_to. reflexivity. }
  pose proof (to_uint_not_nil m) as Hnil.
  destruct (N.to_uint m) as [|u|u|u|u|u|u|u|u|u|u] eqn:E;
    [contradiction | | eexists _, _; split; [reflexivity|intros; lia] ..].
  exists 0, (uint_values u). split; [reflexivity|]. intros _.
  unfold Decimal.unorm in Hnorm. cbn [Decimal.nzhead] in Hnorm.
  destruct (Decimal.nzhead u) eqn:Eh;
    try (exfalso; eapply (nzhead_not_D0 u); rewrite Eh, Hnorm; reflexivity).
  injection Hnorm as <-. reflexivity.
Qed.

Lemma digits_value_lower (r : list Z) (acc : Z) :
  0 <= acc -> Forall (fun d => 0 <= d <= 9) r ->
  acc * 10 ^ Z.of_nat (length r) <= fold_left (fun a d => a * 10 + d) r acc.
Proof.
  intros Hacc Hr. revert acc Hacc.
  induction Hr as [|d r Hd _ IH]; intros acc Hacc.
  - cbn. lia.
  - cbn [fold_left length]. rewrite Nat2Z.inj_succ, Z.pow_succ_r by lia.
    specialize (IH (acc * 10 + d) ltac:(lia)).
    pose proof (Z.pow_nonneg 10 (Z.of_nat (length r)) ltac:(lia)). nia.
Qed.

(** A natural number below 10^21 has at most 21 digits. *)
Lemma digit_values_length (n : Z) :
  0 <= n < 10 ^ 21 -> (length (digit_values n) <= 21)%nat.
Proof.
  intros Hn.
  destruct (digit_values_head n) as (d & r & E & Hd).
  pose proof (digit_values_value n ltac:(lia)) as Hv.
  pose proof (uint_values_range (N.to_uint (Z.to_N n))) as Hr.
  fold (digit_values n) in Hr. rewrite E in Hv, Hr |- *.
  inversion_clear Hr as [|? ? Hd9 Hr'].
  destruct (Z.eq_dec d 0) as [->|Hnz].
  - rewrite (Hd eq_refl). cbn. lia.
  - unfold digits_value in Hv. cbn [fold_left] in Hv.
    pose proof (digits_value_lower r (0 * 10 + d) ltac:(lia) Hr') as Hl.
    rewrite Hv in Hl.
    assert (Hp : 10 ^ Z.of_nat (length r) < 10 ^ 21).
    { pose proof (Z.pow_pos_nonneg 10 (Z.of_nat (length r)) ltac:(lia) ltac:(lia)).
      nia. }
    apply Z.pow_lt_mono_r_iff in Hp; [|lia|lia]. cbn [length]. lia.
Qed.

Lemma strip_trailing_restore (c : Z) (s : jsstring) :
  strip_trailing c s
    ++ repeat c (length s - length (strip_trailing c s)) = s.
Proof.
  induction s as [|x r IH]; [reflexivity|].
  cbn [strip_trailing]. destruct (strip_trailing c r) as [|y r'] eqn:E.
  - cbn [app length Nat.sub] in IH. rewrite Nat.sub_0_r in IH.
    destruct (Z.eqb_spec x c) as [->|_].
    + cbn [app length Nat.sub repeat]. rewrite IH. reflexivity.
    + cbn [app length]. rewrite Nat.sub_succ, Nat.sub_0_r, IH. reflexivity.
  - cbn [app length Nat.sub] in IH |- *. rewrite IH. reflexivity.
Qed.

Lemma strip_trailing_length (c : Z) (s : jsstring) :
  (length (strip_trailing c s) <= length s)%nat.
Proof.
  rewrite <- (strip_trailing_restore c s) at 2. rewrite length_app. lia.
Qed.

(** [Number::toString] of a natural number below 10^21 is its digits. *)
Lemma number_to_string_nat (n : Z) :
  0 <= n < 10 ^ 21 -> number_to_string (Int n) = digits_of n.
Proof.
  intros Hn. unfold number_to_string.
  destruct (Z.eqb_spec n 0) as [->|Hnz]; [reflexivity|].
  unfold significant. replace (n <? 0) with false by lia.
  rewrite Z.abs_eq by lia. cbn [app].
  unfold place_digits, zeros.
  pose proof (strip_trailing_length 48 (digits_of n)) as Hl.
  pose proof (digit_values_length n Hn) as H21.
  assert (Hlen : length (digits_of n) = length (digit_values n))
    by (rewrite digits_of_values; apply length_map).
  replace ((_ <=? _) && (_ <=? 21)) with true
    by (symmetry; apply andb_true_iff; split; lia).
  replace (Z.to_nat (Z.of_nat (length (digits_of n))
                     - Z.of_nat (length (strip_trailing 48 (digits_of n)))))
    with (length (digits_of n) - length (strip_trailing 48 (digits_of n)))%nat
    by lia.
  apply strip_trailing_restore.
Qed.

Lemma take_digits_values (ds : list Z) (rest : jsstring) :
  Forall (fun d => 0 <= d <= 9) ds ->
  match rest with [] => True | c :: _ => is_digit c = false end ->
  take_digits (map (fun d => 48 + d) ds ++ rest) = (ds, rest).
Proof.
  intros Hds Hrest. induction Hds as [|d r Hd _ IH].
  - cbn [map app]. destruct rest as [|c rest]; [reflexivity|].
    cbn [take_digits]. rewrite Hrest. reflexivity.
  - cbn [map app take_digits]. rewrite IH.
    replace (is_digit (48 + d)) with true
      by (symmetry; unfold is_digit; apply andb_true_iff; lia).
    f_equal. f_equal. lia.
Qed.

(** The digits of a natural number read as the JSON number it is. *)
Lemma json_number_digits (n : Z) :
  0 <= n -> json_number (digits_of n) = Some (Int n).
Proof.
  intros Hn. rewrite digits_of_values.
  destruct (digit_values_head n) as (d & r & E & Hd).
  pose proof (digit_values_value n Hn) as Hv.
  pose proof (uint_values_range (N.to_uint (Z.to_N n))) as Hr.
  fold (digit_values n) in Hr. rewrite E in Hv, Hr |- *.
  pose proof (take_digits_values (d :: r) [] Hr I) as Ht.
  rewrite app_nil_r in Ht.
  inversion_clear Hr as [|? ? Hd9 _].
  assert (Hz : (d =? 0) && negb (is_empty r) = false).
  { destruct (Z.eqb_spec d 0) as [Hz|]; [|reflexivity].
    rewrite (Hd Hz). reflexivity. }
  assert (Hc : d = 0 \/ d = 1 \/ d = 2 \/ d = 3 \/ d = 4 \/ d = 5 \/ d = 6
               \/ d = 7 \/ d = 8 \/ d = 9) by lia.
  cbn [map] in Ht |- *. unfold json_number.
  repeat destruct Hc as [Hc | Hc]; subst d;
    match goal with
    | |- context [48 + ?k :: _] =>
        let v := eval compute in (48 + k) in
        change (48 + k) with v in Ht |- *
    end;
    cbv beta iota; rewrite Ht, Hz;
    cbn [mbind option_bind optional_exponent length];
    rewrite app_nil_r, Hv; unfold scaled; cbn; f_equal; f_equal; lia.
Qed.

(** *** The lexer on what [JSON.stringify] writes *)

Lemma lex_str_end acc out r :
  lex (LStr acc) out (34 :: r) = lex LTop (TString (rev acc) :: out) r.
Proof. reflexivity. Qed.

Lemma lex_str_backslash acc out r :
  lex (LStr acc) out (92 :: r) = lex (LEsc acc) out r.
Proof. reflexivity. Qed.

Lemma lex_str_raw acc out c r :
  32 <= c -> c <> 34 -> c <> 92 ->
  lex (LStr acc) out (c :: r) = lex (LStr (c :: acc)) out r.
Proof.
  intros H32 H34 H92. cbn [lex].
  destruct (Z.eqb_spec c 34); [contradiction|].
  destruct (Z.eqb_spec c 92); [contradiction|].
  destruct (Z.ltb_spec c 32); [lia|]. reflexivity.
Qed.

Lemma lex_esc_simple acc out e c r :
  e <> 117 -> escape_char e = Some c ->
  lex (LEsc acc) out (e :: r) = lex (LStr (c :: acc)) out r.
Proof.
  intros Hu He. cbn [lex].
  destruct (Z.eqb_spec e 117); [contradiction|]. rewrite He. reflexivity.
Qed.

Lemma lex_esc_u acc out r :
  lex (LEsc acc) out (117 :: r) = lex (LUni acc 4 0) out r.
Proof. reflexivity. Qed.

Lemma lex_uni_step acc out k v c h r :
  hex_value c = Some h ->
  lex (LUni acc (S (S k)) v) out (c :: r)
  = lex (LUni acc (S k) (v * 16 + h)) out r.
Proof. intros H. cbn [lex]. rewrite H. reflexivity. Qed.

Lemma lex_uni_last acc out v c h r :
  hex_value c = Some h ->
  lex (LUni acc 1 v) out (c :: r) = lex (LStr (v * 16 + h :: acc)) out r.
Proof. intros H. cbn [lex]. rewrite H. reflexivity. Qed.

Lemma hex_value_hex_char (d : Z) :
  0 <= d < 16 -> hex_value (hex_char d) = Some d.
Proof.
  intros Hd.
  assert (H : d = 0 \/ d = 1 \/ d = 2 \/ d = 3 \/ d = 4 \/ d = 5 \/ d = 6
              \/ d = 7 \/ d = 8 \/ d = 9 \/ d = 10 \/ d = 11 \/ d = 12
              \/ d = 13 \/ d = 14 \/ d = 15) by lia.
  repeat destruct H as [H | H]; subst d; reflexivity.
Qed.

Lemma nibble_spec (c : Z) (k : Z) :
  0 <= k -> Z.land (Z.shiftr c k) 15 = (c / 2 ^ k) mod 16.
Proof.
  intros Hk. rewrite Z.shiftr_div_pow2 by assumption.
  change 15 with (Z.ones 4). rewrite Z.land_ones by lia. reflexivity.
Qed.

(** The four hexadecimal digits of an escape spell the code unit. *)
Lemma unicode_escape_digits (c : Z) :
  code_unit c ->
  exists h3 h2 h1 h0,
    hex_value (hex_char (Z.land (Z.shiftr c 12) 15)) = Some h3
    /\ hex_value (hex_char (Z.land (Z.shiftr c 8) 15)) = Some h2
    /\ hex_value (hex_char (Z.land (Z.shiftr c 4) 15)) = Some h1
    /\ hex_value (hex_char (Z.land c 15)) = Some h0
    /\ (((0 * 16 + h3) * 16 + h2) * 16 + h1) * 16 + h0 = c.
Proof.
  unfold code_unit. intros Hc.
  change (Z.land c 15) with (Z.land (Z.shiftr c 0) 15).
  rewrite !nibble_spec by lia.
  change (2 ^ 0) with 1. change (2 ^ 4) with 16.
  change (2 ^ 8) with (16 * 16). change (2 ^ 12) with (16 * (16 * 16)).
  rewrite Z.div_1_r, <- !Z.div_div by lia.
  set (a := c / 16). set (b := a / 16).
  exists (b / 16 mod 16), (b mod 16), (a mod 16), (c mod 16).
  repeat split; try (apply hex_value_hex_char, Z.mod_pos_bound; lia).
  subst a b. Z.div_mod_to_equations. lia.
Qed.

Lemma lex_unicode_escape acc out c r :
  code_unit c ->
  lex (LStr acc) out (unicode_escape c ++ r) = lex (LStr (c :: acc)) out r.
Proof.
  intros Hc.
  destruct (unicode_escape_digits c Hc) as (h3 & h2 & h1 & h0 & E3 & E2 & E1 & E0 & Ev).
  unfold unicode_escape. cbn [app].
  rewrite lex_str_backslash, lex_esc_u.
  rewrite (lex_uni_step _ _ _ _ _ _ _ E3), (lex_uni_step _ _ _ _ _ _ _ E2).
  rewrite (lex_uni_step _ _ _ _ _ _ _ E1), (lex_uni_last _ _ _ _ _ _ E0).
  rewrite Ev. reflexivity.
Qed.

(** The lexer reads the body of a quoted string back. *)
Lemma lex_quote_chars (n : nat) (s : jsstring) :
  (length s <= n)%nat -> Forall code_unit s ->
  forall acc out rest,
    lex (LStr acc) out (quote_chars s ++ 34 :: rest)
    = lex LTop (TString (rev acc ++ s) :: out) rest.
Proof.
  revert s. induction n as [|n IH]; intros s Hlen Hs acc out rest.
  { destruct s; [|simpl in Hlen; lia].
    cbn [quote_chars app]. rewrite lex_str_end, app_nil_r. reflexivity. }
  destruct s as [|c r].
  { cbn [quote_chars app]. rewrite lex_str_end, app_nil_r. reflexivity. }
  inversion_clear Hs as [|? ? Hc Hr].
  assert (Hlr : (length r <= n)%nat) by (simpl in Hlen; lia).
  assert (Hcons : forall x, rev (x :: acc) ++ r = rev acc ++ x :: r).
  { intros x. cbn [rev]. rewrite <- app_assoc. reflexivity. }
  cbn [quote_chars].
  repeat match goal with
         | |- context [if c =? ?k then _ else _] =>
             destruct (Z.eqb_spec c k) as [->|?];
             [ cbn [app]; rewrite lex_str_backslash;
               erewrite lex_esc_simple by (reflexivity || discriminate);
               rewrite (IH r Hlr Hr), Hcons; reflexivity |]
         end.
  destruct (Z.ltb_spec c 32).
  { rewrite <- app_assoc, (lex_unicode_escape _ _ _ _ Hc),
      (IH r Hlr Hr), Hcons. reflexivity. }
  destruct (is_high_surrogate c).
  { destruct r as [|l r'].
    - rewrite (lex_unicode_escape _ _ _ _ Hc). cbn [quote_chars app] in *.
      rewrite lex_str_end. reflexivity.
    - destruct (is_low_surrogate l) eqn:El.
      + inversion_clear Hr as [|? ? Hl Hr'].
        cbn [app]. rewrite (lex_str_raw _ _ c) by lia.
        unfold is_low_surrogate in El. apply andb_true_iff in El as [El _].
        rewrite (lex_str_raw _ _ l) by lia.
        rewrite (IH r' ltac:(simpl in Hlr; lia) Hr').
        cbn [rev]. rewrite <- !app_assoc. reflexivity.
      + rewrite <- app_assoc, (lex_unicode_escape _ _ _ _ Hc),
          (IH _ Hlr Hr), Hcons. reflexivity. }
  destruct (is_low_surrogate c).
  { rewrite <- app_assoc, (lex_unicode_escape _ _ _ _ Hc),
      (IH r Hlr Hr), Hcons. reflexivity. }
  cbn [app]. rewrite (lex_str_raw _ _ c) by lia.
  rewrite (IH r Hlr Hr), Hcons. reflexivity.
Qed.

Lemma lex_quoted (s : jsstring) out rest :
  Forall code_unit s ->
  lex LTop out (quote s ++ rest) = lex LTop (TString s :: out) rest.
Proof.
  intros Hs. unfold quote. rewrite <- !app_assoc. cbn [app].
  change (lex LTop out (34 :: quote_chars s ++ 34 :: rest))
    with (lex (LStr []) out (quote_chars s ++ 34 :: rest)).
  apply (lex_quote_chars (length s) s (le_n _) Hs).
Qed.

Lemma punctuation_not_whitespace (p : Z) (t : JS.token) :
  punctuation p = Some t -> is_json_whitespace p = false.
Proof.
  unfold punctuation.
  repeat match goal with
         | |- context [if p =? ?k then _ else _] =>
             destruct (Z.eqb_spec p k) as [->|?]; [reflexivity|]
         end.
  discriminate.
Qed.

Lemma digit_char_plain (d : Z) :
  0 <= d <= 9 ->
  is_json_whitespace (48 + d) = false /\ punctuation (48 + d) = None
  /\ (48 + d =? 34) = false.
Proof.
  intros Hd. unfold is_json_whitespace, punctuation.
  repeat match goal with
         | |- context [?a =? ?k] => destruct (Z.eqb_spec a k); [lia|]
         end.
  repeat split.
Qed.

(** The lexer reads a run of digits before a punctuation mark as one
    word. *)
Lemma lex_word (ds : list Z) (p : Z) (t : JS.token) acc out rest :
  Forall (fun d => 0 <= d <= 9) ds -> punctuation p = Some t ->
  lex (LWord acc) out (map (fun d => 48 + d) ds ++ p :: rest)
  = lex LTop (t :: TWord (rev acc ++ map (fun d => 48 + d) ds) :: out) rest.
Proof.
  intros Hds Hp. revert acc. induction Hds as [|d r Hd _ IH]; intros acc.
  - cbn [map app lex]. rewrite (punctuation_not_whitespace _ _ Hp), Hp, app_nil_r.
    reflexivity.
  - cbn [map app lex].
    destruct (digit_char_plain d Hd) as (-> & -> & ->).
    rewrite IH. cbn [rev]. rewrite <- app_assoc. reflexivity.
Qed.

Lemma lex_digits (n p : Z) (t : JS.token) out rest :
  punctuation p = Some t ->
  lex LTop out (digits_of n ++ p :: rest)
  = lex LTop (t :: TWord (digits_of n) :: out) rest.
Proof.
  intros Hp. rewrite digits_of_values.
  destruct (digit_values_head n) as (d & r & E & _).
  pose proof (uint_values_range (N.to_uint (Z.to_N n))) as Hr.
  fold (digit_values n) in Hr. rewrite E in Hr |- *.
  inversion_clear Hr as [|? ? Hd Hr'].
  cbn [map app lex].
  destruct (digit_char_plain d Hd) as (-> & -> & ->).
  rewrite (lex_word r p t _ _ _ Hr' Hp). reflexivity.
Qed.

Lemma word_value_digits (n : Z) :
  0 <= n -> word_value (digits_of n) = Some (JNum (Int n)).
Proof.
  intros Hn. unfold word_value. rewrite (json_number_digits n Hn).
  assert (H : forall w : string,
             match list_ascii_of_string w with
             | a :: _ => (57 < N_of_ascii a)%N
             | [] => True
             end -> str_eqb (digits_of n) (js w) = false).
  { intros w Hw. unfold str_eqb. apply bool_decide_eq_false_2.
    rewrite digits_of_values.
    destruct (digit_values_head n) as (d & r & E & _).
    pose proof (uint_values_range (N.to_uint (Z.to_N n))) as Hr.
    fold (digit_values n) in Hr. rewrite E in Hr |- *.
    inversion_clear Hr as [|? ? Hd _].
    unfold js. destruct (list_ascii_of_string w) as [|a l]; [discriminate|].
    cbn [map]. intros [= Ea _]. lia. }
  rewrite !H by (cbn; lia). reflexivity.
Qed.

(** *** The claims of an issued token, written and read back *)

Lemma issued_claims_text (identity : jsstring) (t1 t2 : Z) :
  0 <= t1 <= max_time -> 0 <= t2 <= max_time ->
  JSON_stringify (issued_claims identity t1 t2)
  = json_text "{'username':" ++ quote identity
      ++ json_text ",'exp':" ++ digits_of (t1 / 1000 + 86400)
      ++ json_text ",'iat':" ++ digits_of (t2 / 1000)
      ++ json_text "}".
Proof.
  intros H1 H2. unfold max_time in *.
  assert (0 <= t1 / 1000 <= 8640000000000) as B1
      by (split; [apply Z.div_pos; lia
                 | apply Z.div_le_upper_bound; lia]).
  assert (0 <= t2 / 1000 <= 8640000000000) as B2
      by (split; [apply Z.div_pos; lia
                 | apply Z.div_le_upper_bound; lia]).
  rewrite <- (number_to_string_nat (t1 / 1000 + 86400)) by lia.
  rewrite <- (number_to_string_nat (t2 / 1000)) by lia.
  unfold issued_claims.
  cbn [JSON_stringify map join fst snd]. unfold quote.
  rewrite <- !app_assoc. reflexivity.
Qed.

(** [JSON.parse] reads the claims back from the text [JSON.stringify]
    writes for them. *)
Lemma JSON_parse_issued_claims (identity : jsstring) (t1 t2 : Z) :
  Forall code_unit identity ->
  0 <= t1 <= max_time -> 0 <= t2 <= max_time ->
  JSON_parse (JSON_stringify (issued_claims identity t1 t2))
  = Some (issued_claims identity t1 t2).
Proof.
  intros Hid H1 H2. rewrite issued_claims_text by assumption.
  assert (0 <= t1 / 1000) as B1 by (apply Z.div_pos; lia).
  assert (0 <= t2 / 1000) as B2 by (apply Z.div_pos; lia).
  unfold JSON_parse.
  set (e := t1 / 1000 + 86400). set (i := t2 / 1000).
  change (lex LTop [] (json_text "{'username':" ++ quote identity
                         ++ json_text ",'exp':" ++ digits_of e
                         ++ json_text ",'iat':" ++ digits_of i
                         ++ json_text "}"))
    with (lex LTop [TColon; TString (js "username"); TLBrace]
            (quote identity
               ++ json_text ",'exp':" ++ digits_of e
               ++ json_text ",'iat':" ++ digits_of i ++ json_text "}")).
  rewrite (lex_quoted identity _ _ Hid).
  change (lex LTop [TString identity; TColon; TString (js "username"); TLBrace]
            (json_text ",'exp':" ++ digits_of e
               ++ json_text ",'iat':" ++ digits_of i ++ json_text "}"))
    with (lex LTop [TColon; TString (js "exp"); TComma; TString identity;
                    TColon; TString (js "username"); TLBrace]
            (digits_of e ++ 44 :: json_text "'iat':" ++ digits_of i
               ++ json_text "}")).
  rewrite (lex_digits e 44 TComma) by reflexivity.
  match goal with
  | |- context [lex LTop ?out (json_text "'iat':" ++ ?r)] =>
      change (lex LTop out (json_text "'iat':" ++ r))
        with (lex LTop (TColon :: TString (js "iat") :: out)
                (digits_of i ++ 125 :: []))
  end.
  rewrite (lex_digits i 125 TRBrace) by reflexivity.
  cbn [lex rev app mbind option_bind prun pstep start_value complete].
  rewrite (word_value_digits e) by (unfold e; lia).
  cbn [mbind option_bind prun pstep start_value complete].
  rewrite (word_value_digits i) by assumption.
  reflexivity.
Qed.

(** *** A token of [generateToken] before [verifyToken] *)

Lemma split_no_sep (sep : Z) (a : jsstring) :
  Forall (fun c => c <> sep) a -> split sep a = [a].
Proof.
  induction 1 as [|c r Hc _ IH]; [reflexivity|].
  cbn [split]. destruct (Z.eqb_spec c sep); [contradiction|].
  rewrite IH. reflexivity.
Qed.

Lemma split_app_sep (sep : Z) (a r : jsstring) :
  Forall (fun c => c <> sep) a ->
  split sep (a ++ sep :: r) = a :: split sep r.
Proof.
  induction 1 as [|c a' Hc _ IH].
  - cbn [app split]. rewrite Z.eqb_refl. reflexivity.
  - cbn [app split]. destruct (Z.eqb_spec c sep); [contradiction|].
    rewrite IH. reflexivity.
Qed.

Lemma url_chars_no_dot (y : jsstring) :
  Forall (fun c => is_url_char c = true) y -> Forall (fun c => c <> 46) y.
Proof.
  intros H. eapply List.Forall_impl; [|exact H].
  intros c Hc ->. discriminate Hc.
Qed.

Lemma base64url_nonempty (x y : jsstring) :
  x <> [] -> base64url x = Some y -> y <> [].
Proof.
  intros Hx H ->. apply base64url_decodes in H.
  vm_compute in H. congruence.
Qed.

(** The shape of a token of [generateToken]: three non-empty segments of
    letters, digits, [-] and [_], joined by dots. *)
Lemma generateToken_shape this t1 t2 payload token :
  generateToken this t1 t2 payload = Some token ->
  exists header claims tag,
    token = header ++ 46 :: claims ++ 46 :: tag
    /\ Forall (fun c => is_url_char c = true) header
    /\ Forall (fun c => is_url_char c = true) claims
    /\ Forall (fun c => is_url_char c = true) tag
    /\ header <> [] /\ claims <> [] /\ tag <> []
    /\ base64url
         (JSON_stringify
            (JObj (set_property (js "iat") (JNum (Int (t2 / 1000)))
                     (set_property (js "exp")
                        (JNum (Int (t1 / 1000 + 24 * 60 * 60))) payload))))
       = Some claims.
Proof.
  unfold generateToken.
  destruct (base64url (JSON_stringify jwt_header)) as [h|] eqn:Eh; [|discriminate].
  cbn [mbind option_bind].
  destruct (base64url (JSON_stringify (JObj _))) as [c|] eqn:Ec; [|discriminate].
  cbn [mbind option_bind].
  destruct (base64url (secret this ++ h ++ c)) as [s|] eqn:Es; [|discriminate].
  cbn [mbind option_bind]. intros [= <-].
  assert (Hh : h <> []).
  { apply (base64url_nonempty (JSON_stringify jwt_header) h);
      [vm_compute; discriminate | exact Eh]. }
  exists h, c, s.
  repeat split; eauto using base64url_url_chars.
  - refine (base64url_nonempty _ _ _ Ec).
    cbn [JSON_stringify app]. discriminate.
  - refine (base64url_nonempty _ _ _ Es).
    destruct (secret this); [destruct h; [contradiction|]|]; discriminate.
Qed.

(** The segments [split] finds in a token of [generateToken]. *)
Lemma generateToken_segments this t1 t2 payload token :
  generateToken this t1 t2 payload = Some token ->
  exists header claims tag,
    split 46 token = [header; claims; tag]
    /\ header <> [] /\ claims <> [] /\ tag <> []
    /\ base64url
         (JSON_stringify
            (JObj (set_property (js "iat") (JNum (Int (t2 / 1000)))
                     (set_property (js "exp")
                        (JNum (Int (t1 / 1000 + 24 * 60 * 60))) payload))))
       = Some claims.
Proof.
  intros H.
  destruct (generateToken_shape _ _ _ _ _ H)
    as (h & c & s & -> & Uh & Uc & Us & Hh & Hc & Hs & Ec).
  exists h, c, s. repeat split; try assumption.
  rewrite !split_app_sep, split_no_sep by (apply url_chars_no_dot; assumption).
  reflexivity.
Qed.

Lemma unexpired_issued_claims (identity : jsstring) (t1 t2 now : Z) :
  0 <= t1 ->
  unexpired now (issued_claims identity t1 t2)
  = (now / 1000 <=? t1 / 1000 + 86400).
Proof.
  intros H1. assert (0 <= t1 / 1000) by (apply Z.div_pos; lia).
  unfold unexpired, issued_claims, get.
  change (own_property (js "exp")
            [(js "username", JStr identity);
             (js "exp", JNum (Int (t1 / 1000 + 86400)));
             (js "iat", JNum (Int (t2 / 1000)))])
    with (Val (JNum (Int (t1 / 1000 + 86400)))).
  cbn [truthy is_zero negb less_than to_number mbind option_bind lt_numeric lt_number].
  destruct (Z.eqb_spec (t1 / 1000 + 86400) 0); [lia|]. cbn [negb].
  destruct (Z.ltb_spec (t1 / 1000 + 86400) (now / 1000));
    destruct (Z.leb_spec (now / 1000) (t1 / 1000 + 86400)); try lia; reflexivity.
Qed.

Lemma latin1_code_units (s : jsstring) :
  latin1 s = true -> Forall code_unit s.
Proof.
  intros H. apply latin1_Forall in H.
  eapply List.Forall_impl; [|exact H]. unfold code_unit. intros; lia.
Qed.

(** The [try] block of [verifyToken] on a token of [generateToken]. *)
Lemma verifyToken_try_issued (this : API) (t1 t2 now : Z)
    (identity token : jsstring) :
  Forall code_unit identity ->
  0 <= t1 <= max_time -> 0 <= t2 <= max_time ->
  generateToken this t1 t2 [(js "username", JStr identity)] = Some token ->
  verifyToken_try now token
  = if now / 1000 <=? t1 / 1000 + 86400
    then Some (issued_claims identity t1 t2) else None.
Proof.
  intros Hid H1 H2 Htok.
  destruct (generateToken_segments _ _ _ _ _ Htok)
    as (h & c & s & Hsplit & Hh & Hc & Hs & Ec).
  change (JObj (set_property (js "iat") (JNum (Int (t2 / 1000)))
                  (set_property (js "exp")
                     (JNum (Int (t1 / 1000 + 24 * 60 * 60)))
                     [(js "username", JStr identity)])))
    with (issued_claims identity t1 t2) in Ec.
  rewrite verifyToken_try_segments, Hsplit.
  apply is_empty_false in Hh, Hc, Hs. rewrite Hh, Hc, Hs. cbn [orb].
  unfold decode_claims. fold (decode_segment c).
  rewrite (base64url_decodes _ _ Ec). cbn [mbind option_bind].
  rewrite (JSON_parse_issued_claims identity t1 t2 Hid H1 H2).
  cbn [mbind option_bind].
  rewrite (unexpired_issued_claims identity t1 t2 now) by lia.
  reflexivity.
Qed.

(** X2.  With authentication enabled, a token [generateToken] issues for an
    identity, at clock readings within the range of [Date], is accepted by
    [verifyToken] with exactly the claims that were written, as long as the
    current time in whole seconds is not past the expiry; afterwards it is
    rejected. *)
Theorem issued_token_verifies
    (this : API) (t1 t2 now : Z) (identity token : jsstring) :
  authEnabled this = true ->
  Forall code_unit identity ->
  0 <= t1 <= max_time -> 0 <= t2 <= max_time ->
  generateToken this t1 t2 [(js "username", JStr identity)] = Some token ->
  verifyToken this now token
  = if now / 1000 <=? t1 / 1000 + 86400
    then {| valid := true; payload := Some (issued_claims identity t1 t2) |}
    else {| valid := false; payload := None |}.
Proof.
  intros Hen Hid H1 H2 Htok.
  rewrite (verifyToken_enabled _ _ _ Hen).
  rewrite (verifyToken_try_issued this t1 t2 now identity token Hid H1 H2 Htok).
  destruct (now / 1000 <=? t1 / 1000 + 86400); reflexivity.
Qed.

Lemma issued_token_verifies_witness :
  verifyToken sample_api 1700086400999 sample_token
  = if 1700086400999 / 1000 <=? 1700000000123 / 1000 + 86400
    then {| valid := true;
            payload := Some (issued_claims (js "admin")
                               1700000000123 1700000000123) |}
    else {| valid := false; payload := None |}.
Proof.
  apply (issued_token_verifies sample_api 1700000000123 1700000000123
           1700086400999 (js "admin") sample_token).
  - reflexivity.
  - apply latin1_code_units. reflexivity.
  - unfold max_time. lia.
  - unfold max_time. lia.
  - vm_compute. reflexivity.
Defined.

(** *** The client's requests before the middleware *)

Lemma split_bearer (tok : jsstring) :
  Forall (fun c => c <> 32) tok ->
  split 32 (js "Bearer " ++ tok) = [js "Bearer"; tok].
Proof.
  intros H.
  change (js "Bearer " ++ tok) with (js "Bearer" ++ 32 :: tok).
  rewrite split_app_sep by (repeat (constructor; [discriminate|]); constructor).
  rewrite (split_no_sep 32 tok H). reflexivity.
Qed.

Lemma generateToken_no_space this t1 t2 payload tok :
  generateToken this t1 t2 payload = Some tok ->
  tok <> [] /\ Forall (fun c => c <> 32) tok.
Proof.
  intros H.
  destruct (generateToken_shape _ _ _ _ _ H)
    as (h & c & s & -> & Uh & Uc & Us & Hh & _).
  assert (N : forall y, Forall (fun c => is_url_char c = true) y ->
                        Forall (fun c => c <> 32) y).
  { intros y Hy. eapply List.Forall_impl; [|exact Hy].
    intros x Hx ->. discriminate Hx. }
  split; [destruct h; [contradiction|discriminate]|].
  apply Forall_app; split; [auto|].
  constructor; [discriminate|].
  apply Forall_app; split; [auto|].
  constructor; [discriminate|]. auto.
Qed.

(** A successful [login] with authentication enabled carries a token of
    [generateToken] for the user name of the request. *)
Lemma login_success_token this t1 t2 request resp :
  authEnabled this = true ->
  login this t1 t2 request = Some resp -> success resp = true ->
  exists tok,
    generateToken this t1 t2 [(js "username", JStr (req_username request))]
    = Some tok
    /\ resp = {| success := true; token := Some tok; message := MsgLoggedIn |}.
Proof.
  unfold login. intros -> H Hs. cbn [negb] in H.
  destruct (str_eqb _ _ && str_eqb _ _).
  - destruct (generateToken _ _ _ _) as [tok|]; [|discriminate].
    injection H as <-. exists tok. split; reflexivity.
  - injection H as <-. discriminate Hs.
Qed.

(** The gate on a request that carries a token of [generateToken] the way
    the client sends it. *)
Lemma auth_middleware_bearer api t1 t2 now identity tok path method :
  authEnabled api = true ->
  Forall code_unit identity ->
  0 <= t1 <= max_time -> 0 <= t2 <= max_time ->
  generateToken api t1 t2 [(js "username", JStr identity)] = Some tok ->
  auth_middleware api now
    (received path method (NavigationClient.request_headers (Some tok)))
  = if now / 1000 <=? t1 / 1000 + 86400 then Proceed
    else Deny {| status := 401; headers := []; body := Plain ExpiredOrInvalid |}.
Proof.
  intros Hen Hid H1 H2 Htok.
  destruct (generateToken_no_space _ _ _ _ _ Htok) as [Hne Hsp].
  assert (Hh : Authorization
                 (received path method
                    (NavigationClient.request_headers (Some tok)))
               = Some (js "Bearer " ++ tok)).
  { unfold received, NavigationClient.request_headers.
    destruct tok; [contradiction|]. reflexivity. }
  rewrite (auth_middleware_header api now _ _ Hen Hh) by discriminate.
  rewrite (split_bearer tok Hsp). cbn [lookup list_lookup].
  rewrite bool_decide_eq_true_2 by reflexivity.
  destruct tok as [|c0 tok']; [contradiction|].
  cbn [negb orb missing default from_option Datatypes.id].
  rewrite (verifyToken_enabled _ _ _ Hen).
  rewrite (verifyToken_try_issued api t1 t2 now identity _ Hid H1 H2 Htok).
  destruct (now / 1000 <=? t1 / 1000 + 86400); reflexivity.
Qed.

(** X3.  A session, end to end.  With authentication enabled, when [login]
    succeeds and the client has read its response, the next request of the
    client to a gated route carries the token as a bearer credential, the
    middleware reads exactly this token back from the header, and the
    request passes as long as the current time in whole seconds is not past
    the expiry; afterwards it is answered 401. *)
Theorem session_request_passes
    (api : API) (t1 t2 now : Z) (request : LoginRequest) (resp : LoginResponse)
    (this : NavigationClient.Client) (path method : jsstring) :
  authEnabled api = true ->
  Forall code_unit (req_username request) ->
  0 <= t1 <= max_time -> 0 <= t2 <= max_time ->
  login api t1 t2 request = Some resp -> success resp = true ->
  gated (received path method []) = true ->
  let this' := NavigationClient.login resp this in
  NavigationClient.isLoggedIn this' = true
  /\ fetch_gate api now
       (received path method (NavigationClient.request_headers this'))
     = Some (if now / 1000 <=? t1 / 1000 + 86400 then Proceed
             else Deny {| status := 401; headers := [];
                          body := Plain ExpiredOrInvalid |}).
Proof.
  intros Hen Hid H1 H2 Hlogin Hok Hgated this'.
  destruct (login_success_token _ _ _ _ _ Hen Hlogin Hok) as (tok & Htok & ->).
  destruct (generateToken_no_space _ _ _ _ _ Htok) as [Hne _].
  assert (E : this' = Some tok).
  { unfold this', NavigationClient.login. cbn [success token andb].
    destruct tok; [contradiction|]. reflexivity. }
  rewrite E. split.
  - destruct tok; [contradiction|]. reflexivity.
  - unfold fetch_gate.
    change (gated (received path method
                     (NavigationClient.request_headers (Some tok))))
      with (gated (received path method [])).
    rewrite Hgated.
    rewrite (auth_middleware_bearer api t1 t2 now _ tok path method
               Hen Hid H1 H2 Htok).
    reflexivity.
Qed.

Lemma session_request_passes_witness :
  let this' :=
    NavigationClient.login
      {| success := true; token := Some sample_token; message := MsgLoggedIn |}
      None in
  NavigationClient.isLoggedIn this' = true
  /\ fetch_gate sample_api 1700000001000
       (received (js "groups") (js "GET")
          (NavigationClient.request_headers this'))
     = Some (if 1700000001000 / 1000 <=? 1700000000123 / 1000 + 86400
             then Proceed
             else Deny {| status := 401; headers := [];
                          body := Plain ExpiredOrInvalid |}).
Proof.
  apply (session_request_passes sample_api 1700000000123 1700000000123
           1700000001000
           {| req_username := js "admin"; req_password := js "pw" |}
           {| success := true; token := Some sample_token;
              message := MsgLoggedIn |}
           None (js "groups") (js "GET")).
  - reflexivity.
  - apply latin1_code_units. reflexivity.
  - unfold max_time. lia.
  - unfold max_time. lia.
  - vm_compute. reflexivity.
  - reflexivity.
  - reflexivity.
Defined.

(** X4.  An expired session.  With authentication enabled, once the
    current time in whole seconds is past the expiry of the token a
    successful [login] gave the client, the client's request to a gated
    route is answered 401; on that status the client drops the token and is
    no longer logged in, so that its next request carries no
    [Authorization] header and is answered, at any time, with 401, the
    text asking to log in and the [WWW-Authenticate: Bearer] challenge. *)
Theorem expired_session_logged_out
    (api : API) (t1 t2 now later : Z) (request : LoginRequest)
    (resp : LoginResponse) (this : NavigationClient.Client)
    (path method : jsstring) :
  authEnabled api = true ->
  Forall code_unit (req_username request) ->
  0 <= t1 <= max_time -> 0 <= t2 <= max_time ->
  login api t1 t2 request = Some resp -> success resp = true ->
  gated (received path method []) = true ->
  t1 / 1000 + 86400 < now / 1000 ->
  exists r,
    fetch_gate api now
      (received path method
         (NavigationClient.request_headers (NavigationClient.login resp this)))
    = Some (Deny r)
    /\ status r = 401
    /\ let this' :=
         fst (NavigationClient.request_settled (status r)
                (NavigationClient.login resp this)) in
       NavigationClient.isLoggedIn this' = false
       /\ Authorization
            (received path method (NavigationClient.request_headers this'))
          = None
       /\ fetch_gate api later
            (received path method (NavigationClient.request_headers this'))
          = Some (Deny {| status := 401;
                          headers := [(js "WWW-Authenticate", js "Bearer")];
                          body := Plain PleaseLogin |}).
Proof.
  intros Hen Hid H1 H2 Hlogin Hok Hgated Hlate.
  destruct (login_success_token _ _ _ _ _ Hen Hlogin Hok) as (tok & Htok & ->).
  destruct (generateToken_no_space _ _ _ _ _ Htok) as [Hne _].
  assert (E : NavigationClient.login
                {| success := true; token := Some tok; message := MsgLoggedIn |}
                this = Some tok).
  { unfold NavigationClient.login. cbn [success token andb].
    destruct tok; [contradiction|]. reflexivity. }
  rewrite E.
  exists {| status := 401; headers := []; body := Plain ExpiredOrInvalid |}.
  split; [|split; [reflexivity|]].
  - unfold fetch_gate.
    change (gated (received path method
                     (NavigationClient.request_headers (Some tok))))
      with (gated (received path method [])).
    rewrite Hgated.
    rewrite (auth_middleware_bearer api t1 t2 now _ tok path method
               Hen Hid H1 H2 Htok).
    destruct (Z.leb_spec (now / 1000) (t1 / 1000 + 86400)); [lia|reflexivity].
  - change (fst (NavigationClient.request_settled
                   (status {| status := 401; headers := [];
                              body := Plain ExpiredOrInvalid |}) (Some tok)))
      with (@None jsstring).
    cbv zeta. split; [reflexivity|]. split; [reflexivity|].
    unfold fetch_gate.
    change (gated (received path method
                     (NavigationClient.request_headers None)))
      with (gated (received path method [])).
    rewrite Hgated. unfold auth_middleware, isAuthEnabled. rewrite Hen.
    reflexivity.
Qed.

Lemma expired_session_logged_out_witness :
  exists r,
    fetch_gate sample_api 1700086401000
      (received (js "groups") (js "GET")
         (NavigationClient.request_headers
            (NavigationClient.login
               {| success := true; token := Some sample_token;
                  message := MsgLoggedIn |} None)))
    = Some (Deny r)
    /\ status r = 401
    /\ let this' :=
         fst (NavigationClient.request_settled (status r)
                (NavigationClient.login
                   {| success := true; token := Some sample_token;
                      message := MsgLoggedIn |} None)) in
       NavigationClient.isLoggedIn this' = false
       /\ Authorization
            (received (js "groups") (js "GET")
               (NavigationClient.request_headers this'))
          = None
       /\ fetch_gate sample_api 1700086402000
            (received (js "groups") (js "GET")
               (NavigationClient.request_headers this'))
          = Some (Deny {| status := 401;
                          headers := [(js "WWW-Authenticate", js "Bearer")];
                          body := Plain PleaseLogin |}).
Proof.
  apply (expired_session_logged_out sample_api 1700000000123 1700000000123
           1700086401000 1700086402000
           {| req_username := js "admin"; req_password := js "pw" |}
           {| success := true; token := Some sample_token;
              message := MsgLoggedIn |}
           None (js "groups") (js "GET")).
  - reflexivity.
  - apply latin1_code_units. reflexivity.
  - unfold max_time. lia.
  - unfold max_time. lia.
  - vm_compute. reflexivity.
  - reflexivity.
  - reflexivity.
  - vm_compute. reflexivity.
Defined.

(** *** The login route on what the client posts *)

Lemma login_body_text (u p : jsstring) :
  NavigationClient.login_body u p
  = json_text "{'username':" ++ quote u
      ++ json_text ",'password':" ++ quote p ++ json_text "}".
Proof.
  unfold NavigationClient.login_body.
  cbn [JSON_stringify map join fst snd]. unfold quote.
  rewrite <- !app_assoc. reflexivity.
Qed.

(** [JSON.parse] reads back the credentials the client posts. *)
Lemma JSON_parse_login_body (u p : jsstring) :
  Forall code_unit u -> Forall code_unit p ->
  JSON_parse (NavigationClient.login_body u p)
  = Some (JObj [(js "username", JStr u); (js "password", JStr p)]).
Proof.
  intros Hu Hp. rewrite login_body_text. unfold JSON_parse.
  change (lex LTop [] (json_text "{'username':" ++ quote u
                         ++ json_text ",'password':" ++ quote p
                         ++ json_text "}"))
    with (lex LTop [TColon; TString (js "username"); TLBrace]
            (quote u ++ json_text ",'password':" ++ quote p ++ json_text "}")).
  rewrite (lex_quoted u _ _ Hu).
  change (lex LTop [TString u; TColon; TString (js "username"); TLBrace]
            (json_text ",'password':" ++ quote p ++ json_text "}"))
    with (lex LTop [TColon; TString (js "password"); TComma; TString u;
                    TColon; TString (js "username"); TLBrace]
            (quote p ++ json_text "}")).
  rewrite (lex_quoted p _ _ Hp). reflexivity.
Qed.

Lemma validateLogin_filled (data : json) (v : Routes.LoginValidation) :
  Routes.validateLogin data = Some v ->
  Routes.login_valid v = true ->
  exists u p,
    u <> [] /\ p <> []
    /\ get data (js "username") = Some (Val (JStr u))
    /\ get data (js "password") = Some (Val (JStr p))
    /\ Routes.as_login_request data
       = Some {| req_username := u; req_password := p |}.
Proof.
  unfold Routes.validateLogin, Routes.as_login_request.
  destruct (get data (js "username")) as [x|]; [|discriminate].
  destruct (get data (js "password")) as [y|]; [|discriminate].
  cbn [mbind option_bind].
  destruct x as [|[| | |[|u0 u]| |]]; cbn [Routes.filled_string];
    destruct y as [|[| | |[|p0 p]| |]]; cbn [Routes.filled_string];
    intros [= <-]; cbn; try discriminate.
  intros _. exists (u0 :: u), (p0 :: p). repeat split; discriminate.
Qed.

(** X5.  The login route never hands [login] anything but two non-empty
    strings: when it answers with a result, the body parsed to a value
    whose [username] and [password] are non-empty strings and the result is
    what [login] returns for them; when it answers 400 it lists at least
    one error, and then [username] or [password] is not a non-empty
    string. *)
Theorem login_route_guards_login
    (api : API) (t1 t2 : Z) (text : jsstring) :
  (forall result,
     Routes.login_route api t1 t2 text = Routes.LoginAnswered result ->
     exists data u p,
       JSON_parse text = Some data
       /\ get data (js "username") = Some (Val (JStr u)) /\ u <> []
       /\ get data (js "password") = Some (Val (JStr p)) /\ p <> []
       /\ login api t1 t2 {| req_username := u; req_password := p |}
          = Some result)
  /\ (forall errors,
        Routes.login_route api t1 t2 text = Routes.LoginRejected errors ->
        errors <> []
        /\ exists data x y,
             JSON_parse text = Some data
             /\ get data (js "username") = Some x
             /\ get data (js "password") = Some y
             /\ (Routes.filled_string x = None
                 \/ Routes.filled_string y = None)).
Proof.
  unfold Routes.login_route.
  destruct (JSON_parse text) as [data|]; cbn [mbind option_bind];
    [|split; intros ? [=]].
  destruct (Routes.validateLogin data) as [v|] eqn:Ev; cbn [mbind option_bind];
    [|split; intros ? [=]].
  destruct (Routes.login_valid v) eqn:Hv; cbn [negb].
  - destruct (validateLogin_filled data v Ev Hv)
      as (u & p & Hu & Hp & Gu & Gp & ->).
    cbn [mbind option_bind]. split.
    + intros result H. exists data, u, p.
      destruct (login api t1 t2 _) as [r|] eqn:El; [|discriminate].
      cbn [mbind option_bind] in H. injection H as <-.
      repeat split; assumption.
    + intros errors H.
      destruct (login api t1 t2 _); discriminate.
  - split; [intros ? [=]|]. intros errors [= <-].
    unfold Routes.validateLogin in Ev.
    destruct (get data (js "username")) as [x|] eqn:Gx; [|discriminate].
    destruct (get data (js "password")) as [y|] eqn:Gy; [|discriminate].
    cbn [mbind option_bind] in Ev. injection Ev as <-.
    cbn [Routes.login_valid Routes.login_errors] in *.
    split.
    + destruct (Routes.filled_string x), (Routes.filled_string y);
        cbn in Hv |- *; congruence.
    + exists data, x, y.
      split; [reflexivity|]. split; [exact Gx|]. split; [exact Gy|].
      destruct (Routes.filled_string x), (Routes.filled_string y);
        cbn in Hv; try discriminate; auto.
Qed.

Lemma login_route_on_client_body_eq
    (api : API) (t1 t2 : Z) (u p : jsstring) :
  Forall code_unit u -> Forall code_unit p ->
  Routes.login_route api t1 t2 (NavigationClient.login_body u p)
  = if is_empty u || is_empty p
    then Routes.LoginRejected
           ((if is_empty u then [Routes.UsernameRequired] else [])
              ++ (if is_empty p then [Routes.PasswordRequired] else []))
    else match login api t1 t2 {| req_username := u; req_password := p |} with
         | Some result => Routes.LoginAnswered result
         | None => Routes.LoginFailed
         end.
Proof.
  intros Hu Hp. unfold Routes.login_route.
  rewrite (JSON_parse_login_body u p Hu Hp). cbn [mbind option_bind].
  unfold Routes.validateLogin, Routes.as_login_request, get.
  change (own_property (js "username")
            [(js "username", JStr u); (js "password", JStr p)])
    with (Val (JStr u)).
  change (own_property (js "password")
            [(js "username", JStr u); (js "password", JStr p)])
    with (Val (JStr p)).
  cbn [mbind option_bind].
  destruct u as [|u0 u], p as [|p0 p]; cbn; try reflexivity.
  destruct (login api t1 t2 _); reflexivity.
Qed.

(** X6.  Login, from the browser to [login].  For a user name and a
    password of UTF-16 code units, the login route on the body the client
    posts answers 400 when one of them is empty, and otherwise answers with
    exactly what [login] returns for this user name and password, or with
    500 when [login] throws. *)
Theorem login_route_on_client_body
    (api : API) (t1 t2 : Z) (u p : jsstring) :
  Forall code_unit u -> Forall code_unit p ->
  Routes.login_route api t1 t2 (NavigationClient.login_body u p)
  = if is_empty u || is_empty p
    then Routes.LoginRejected
           ((if is_empty u then [Routes.UsernameRequired] else [])
              ++ (if is_empty p then [Routes.PasswordRequired] else []))
    else match login api t1 t2 {| req_username := u; req_password := p |} with
         | Some result => Routes.LoginAnswered result
         | None => Routes.LoginFailed
         end.
Proof.
  intros Hu Hp.
  rewrite (login_route_on_client_body_eq api t1 t2 u p Hu Hp).
  destruct (is_empty u || is_empty p); reflexivity.
Qed.

Lemma login_route_on_client_body_witness :
  Routes.login_route sample_api 1700000000123 1700000000123
    (NavigationClient.login_body (js "admin") (js "pw"))
  = if is_empty (js "admin") || is_empty (js "pw")
    then Routes.LoginRejected
           ((if is_empty (js "admin") then [Routes.UsernameRequired] else [])
              ++ (if is_empty (js "pw") then [Routes.PasswordRequired] else []))
    else match login sample_api 1700000000123 1700000000123
                 {| req_username := js "admin"; req_password := js "pw" |} with
         | Some result => Routes.LoginAnswered result
         | None => Routes.LoginFailed
         end.
Proof.
  apply (login_route_on_client_body sample_api 1700000000123 1700000000123
           (js "admin") (js "pw"));
    apply latin1_code_units; reflexivity.
Defined.

(** *** Group names: [POST groups] and [PUT groups/:id] *)

Lemma drop_while_all (p : Z -> bool) (s : jsstring) :
  Forall (fun c => p c = true) s -> drop_while p s = [].
Proof.
  induction 1 as [|c r Hc _ IH]; [reflexivity|].
  cbn [drop_while]. rewrite Hc. exact IH.
Qed.

Lemma drop_while_head (p : Z -> bool) (s : jsstring) (c : Z) :
  head (drop_while p s) = Some c -> p c = false.
Proof.
  induction s as [|x r IH]; [discriminate|].
  cbn [drop_while]. destruct (p x) eqn:E; [exact IH|].
  intros [= <-]. exact E.
Qed.

Lemma trim_blank (s : jsstring) :
  Forall (fun c => is_str_whitespace c = true) s -> trim s = [].
Proof. intros H. unfold trim. rewrite (drop_while_all _ s H). reflexivity. Qed.

Lemma drop_while_suffix (p : Z -> bool) (s : jsstring) :
  exists pre, s = pre ++ drop_while p s.
Proof.
  induction s as [|x r [pre IH]]; [exists []; reflexivity|].
  cbn [drop_while]. destruct (p x).
  - exists (x :: pre). cbn [app]. f_equal. exact IH.
  - exists []. reflexivity.
Qed.

Lemma drop_while_last (p : Z -> bool) (s : jsstring) (c : Z) :
  p c = false -> drop_while p (s ++ [c]) = drop_while p s ++ [c].
Proof.
  intros Hc. induction s as [|x r IH].
  - cbn [app drop_while]. rewrite Hc. reflexivity.
  - cbn [app drop_while]. destruct (p x); [exact IH|reflexivity].
Qed.

(** What [trim] leaves starts with no white space. *)
Lemma trim_head (s : jsstring) (c : Z) :
  head (trim s) = Some c -> is_str_whitespace c = false.
Proof.
  unfold trim.
  set (t := drop_while is_str_whitespace s).
  assert (Ht : forall c, head t = Some c -> is_str_whitespace c = false)
    by (intros; eapply drop_while_head; eassumption).
  clearbody t. revert Ht c.
  induction t as [|x r IH] using rev_ind; intros Ht c.
  - discriminate.
  - rewrite rev_app_distr. cbn [rev app drop_while].
    destruct (is_str_whitespace x) eqn:Ex.
    + intros H. apply (IH ltac:(intros c' Hc'; apply Ht;
                                destruct r; [discriminate|exact Hc']) c H).
    + cbn [rev]. rewrite rev_involutive. intros H. apply Ht.
      destruct r; exact H.
Qed.

Lemma head_take (n : nat) (s : jsstring) (c : Z) :
  head (take n s) = Some c -> head s = Some c.
Proof. destruct n, s; cbn; congruence. Qed.

Lemma group_post_route_created (s : jsstring) (k : number) c0 r :
  s = c0 :: r ->
  Routes.group_post_route (JObj [(js "name", JStr s); (js "order_num", JNum k)])
  = Routes.GroupCreate
      {| Routes.sanitized_name := Some (take 100 (trim s));
         Routes.sanitized_order_num := Some k |}.
Proof.
  intros ->. unfold Routes.group_post_route, Routes.validateGroup, get.
  change (own_property (js "name")
            [(js "name", JStr (c0 :: r)); (js "order_num", JNum k)])
    with (Val (JStr (c0 :: r))).
  change (own_property (js "order_num")
            [(js "name", JStr (c0 :: r)); (js "order_num", JNum k)])
    with (Val (JNum k)).
  reflexivity.
Qed.

(** X7.  [POST groups] calls [createGroup] exactly for a body whose [name]
    is a non-empty string and whose [order_num] is a number, and then with
    that number and with the name trimmed and cut to 100 code units: the
    name stored has at most 100 code units and does not start with white
    space. *)
Theorem group_post_route_creates (data : json) (g : Routes.SanitizedGroup) :
  Routes.group_post_route data = Routes.GroupCreate g <->
  exists s k,
    s <> []
    /\ get data (js "name") = Some (Val (JStr s))
    /\ get data (js "order_num") = Some (Val (JNum k))
    /\ g = {| Routes.sanitized_name := Some (take 100 (trim s));
              Routes.sanitized_order_num := Some k |}
    /\ (length (take 100 (trim s)) <= 100)%nat
    /\ (forall c, head (take 100 (trim s)) = Some c ->
                  is_str_whitespace c = false).
Proof.
  unfold Routes.group_post_route, Routes.validateGroup.
  split.
  - destruct (get data (js "name")) as [n|]; [|discriminate].
    destruct (get data (js "order_num")) as [o|];
      [|destruct n as [|[| | |[|c0 s]| |]]; discriminate].
    cbn [mbind option_bind].
    destruct n as [|[| | |[|c0 s]| |]]; cbn [Routes.filled_string];
      destruct o as [|[| |k| | |]]; cbn; try discriminate.
    intros [= <-]. exists (c0 :: s), k.
    repeat split; try discriminate.
    + rewrite length_take. lia.
    + intros c Hc. apply (trim_head (c0 :: s)), (head_take 100), Hc.
  - intros (s & k & Hs & -> & -> & -> & _).
    destruct s as [|c0 s]; [contradiction|]. reflexivity.
Qed.

(** X8.  A blank name.  A name that is not empty but consists of white
    space only passes [validateGroup]: [POST groups] calls [createGroup]
    with the empty name, whereas [PUT groups/:id] rejects the same body
    with status 400. *)
Theorem blank_name_created_not_updated
    (s : jsstring) (k : number) (path : jsstring) (id : number) :
  s <> [] -> Forall (fun c => is_str_whitespace c = true) s ->
  Routes.route_id path = Some id ->
  let data := JObj [(js "name", JStr s); (js "order_num", JNum k)] in
  Routes.group_post_route data
  = Routes.GroupCreate {| Routes.sanitized_name := Some [];
                          Routes.sanitized_order_num := Some k |}
  /\ Routes.group_put_route path data = Routes.GroupNameInvalid.
Proof.
  intros Hs Hb Hid data. subst data.
  unfold Routes.group_post_route, Routes.validateGroup,
    Routes.group_put_route, get.
  rewrite Hid.
  change (own_property (js "name")
            [(js "name", JStr s); (js "order_num", JNum k)])
    with (Val (JStr s)).
  change (own_property (js "order_num")
            [(js "name", JStr s); (js "order_num", JNum k)])
    with (Val (JNum k)).
  cbn [mbind option_bind].
  pose proof (trim_blank s Hb) as Et.
  destruct s as [|c0 s]; [contradiction|].
  cbn [Routes.filled_string]. rewrite Et. split; reflexivity.
Qed.

Lemma blank_name_created_not_updated_witness :
  let data := JObj [(js "name", JStr (js "  ")); (js "order_num", JNum (Int 3))] in
  Routes.group_post_route data
  = Routes.GroupCreate {| Routes.sanitized_name := Some [];
                          Routes.sanitized_order_num := Some (Int 3) |}
  /\ Routes.group_put_route (js "groups/7") data = Routes.GroupNameInvalid.
Proof.
  apply (blank_name_created_not_updated (js "  ") (Int 3) (js "groups/7") (Int 7)).
  - discriminate.
  - repeat constructor.
  - reflexivity.
Defined.

(** *** [PUT configs/:key] *)

(** X9.  In [PUT configs/:key] the second check, for a missing value, can
    never answer: whenever [validateConfig] passes, the value is a
    non-empty string.  [setConfig] is therefore called only with the key
    cut from the path and a non-empty string of the body. *)
Theorem config_put_route_sets_filled_value (path : jsstring) (data : json) :
  Routes.config_put_route path data <> Routes.ConfigValueMissing
  /\ forall key v,
       Routes.config_put_route path data = Routes.ConfigSet key v ->
       key = Routes.config_key path
       /\ exists s, s <> [] /\ v = JStr s
                    /\ get data (js "value") = Some (Val (JStr s)).
Proof.
  unfold Routes.config_put_route, Routes.validateConfig.
  destruct (get data (js "value")) as [x|]; cbn [mbind option_bind];
    [|split; [discriminate|intros ? ? [=]]].
  destruct x as [|[| | |[|c0 s]| |]]; cbn;
    (split; [discriminate|]); intros key v H; try discriminate H.
  injection H as <- <-. split; [reflexivity|].
  exists (c0 :: s). repeat split. discriminate.
Qed.

Lemma config_body_text (value : jsstring) :
  NavigationClient.config_body value
  = json_text "{'value':" ++ quote value ++ json_text "}".
Proof.
  unfold NavigationClient.config_body.
  cbn [JSON_stringify map join fst snd]. unfold quote.
  rewrite <- !app_assoc. reflexivity.
Qed.

Lemma JSON_parse_config_body (value : jsstring) :
  Forall code_unit value ->
  JSON_parse (NavigationClient.config_body value)
  = Some (JObj [(js "value", JStr value)]).
Proof.
  intros Hv. rewrite config_body_text. unfold JSON_parse.
  change (lex LTop [] (json_text "{'value':" ++ quote value ++ json_text "}"))
    with (lex LTop [TColon; TString (js "value"); TLBrace]
            (quote value ++ json_text "}")).
  rewrite (lex_quoted value _ _ Hv). reflexivity.
Qed.

(** X10.  Setting a configuration value from the browser.  For a value of
    UTF-16 code units, the body the client's [setConfig] puts parses, and
    [PUT configs/:key] on it calls [setConfig] with the key of the path and
    this very value, unless the value is empty: an empty value is answered
    400 and never stored. *)
Theorem config_put_route_on_client_body (path value : jsstring) :
  Forall code_unit value ->
  exists data,
    JSON_parse (NavigationClient.config_body value) = Some data
    /\ Routes.config_put_route path data
       = if is_empty value then Routes.ConfigRejected
         else Routes.ConfigSet (drop 8 path) (JStr value).
Proof.
  intros Hv. exists (JObj [(js "value", JStr value)]).
  split; [exact (JSON_parse_config_body value Hv)|].
  unfold Routes.config_put_route, Routes.validateConfig, get.
  change (own_property (js "value") [(js "value", JStr value)])
    with (Val (JStr value)).
  destruct value; reflexivity.
Qed.

Lemma config_put_route_on_client_body_witness :
  exists data,
    JSON_parse (NavigationClient.config_body (js "NaviHive")) = Some data
    /\ Routes.config_put_route (js "configs/site.title") data
       = if is_empty (js "NaviHive") then Routes.ConfigRejected
         else Routes.ConfigSet (drop 8 (js "configs/site.title"))
                (JStr (js "NaviHive")).
Proof.
  apply (config_put_route_on_client_body (js "configs/site.title")
           (js "NaviHive")).
  apply latin1_code_units. reflexivity.
Defined.

(** *** The statements of [updateGroup] and [updateSite] *)

(** X11.  [updateGroup] and [updateSite] bind one parameter for every
    placeholder of the query they build, whichever fields are present, and
    the last parameter is the id. *)
Theorem update_statements_bind_every_placeholder
    (id : number) (data : json) (query : jsstring) (params : list json) :
  Routes.updateGroup_statement id data = Some (query, params)
  \/ Routes.updateSite_statement id data = Some (query, params) ->
  placeholders query = length params
  /\ exists fields, params = fields ++ [JNum id].
Proof.
  unfold Routes.updateGroup_statement, Routes.updateSite_statement.
  intros [H | H].
  - destruct (get data (js "name")) as [[|?]|];
      destruct (get data (js "order_num")) as [[|?]|];
      try discriminate H; injection H as <- <-;
      (split; [reflexivity|]);
      match goal with
      | |- exists fields, ?l = _ => exists (removelast l); reflexivity
      end.
  - destruct (get data (js "group_id")) as [[|?]|]; [| |discriminate H];
      (destruct (get data (js "name")) as [[|?]|]; [| |discriminate H]);
      (destruct (get data (js "url")) as [[|?]|]; [| |discriminate H]);
      (destruct (get data (js "icon")) as [[|?]|]; [| |discriminate H]);
      (destruct (get data (js "description")) as [[|?]|]; [| |discriminate H]);
      (destruct (get data (js "notes")) as [[|?]|]; [| |discriminate H]);
      (destruct (get data (js "order_num")) as [[|?]|]; [| |discriminate H]);
      injection H as <- <-;
      (split; [reflexivity|]);
      match goal with
      | |- exists fields, ?l = _ => exists (removelast l); reflexivity
      end.
Qed.

Lemma update_statements_bind_every_placeholder_witness :
  placeholders
    (js "UPDATE groups SET updated_at = CURRENT_TIMESTAMP, name = ? WHERE id = ? RETURNING id, name, order_num, created_at, updated_at")
  = length [JStr (js "Tools"); JNum (Int 7)]
  /\ exists fields, [JStr (js "Tools"); JNum (Int 7)] = fields ++ [JNum (Int 7)].
Proof.
  apply (update_statements_bind_every_placeholder (Int 7)
           (JObj [(js "name", JStr (js "Tools"))])).
  left. reflexivity.
Defined.

(** X12.  What [PUT groups/:id] lets through to [updateGroup].  When the
    route calls [updateGroup], it does so with the id read from the path
    and the body as it was parsed, the statement [updateGroup] prepares
    exists, and every parameter it binds is a string or a number: a
    [name] that is no string, a blank [name] and an [order_num] that is no
    number never reach the statement. *)
Theorem group_put_route_binds_strings_and_numbers
    (path : jsstring) (data data' : json) (id : number) :
  Routes.group_put_route path data = Routes.GroupUpdate id data' ->
  data' = data
  /\ Routes.route_id path = Some id
  /\ exists query params,
       Routes.updateGroup_statement id data = Some (query, params)
       /\ Forall (fun v => string_or_number v = true) params
       /\ placeholders query = length params.
Proof.
  unfold Routes.group_put_route, Routes.updateGroup_statement.
  destruct (Routes.route_id path) as [i|]; [|discriminate].
  destruct (get data (js "name")) as [n|]; cbn [mbind option_bind];
    [|discriminate].
  destruct n as [|[| | |s| |]]; try discriminate;
    try (destruct (is_empty (trim s)); [discriminate|]);
    (destruct (get data (js "order_num")) as [o|]; cbn [mbind option_bind];
     [|discriminate]);
    (destruct o as [|[| |k| | |]]; try discriminate);
    intros [= <- <-]; (split; [reflexivity|]); (split; [reflexivity|]);
    eexists; eexists; (split; [reflexivity|]);
    (split; [repeat constructor|reflexivity]).
Qed.

Lemma group_put_route_binds_strings_and_numbers_witness :
  JObj [(js "name", JStr (js "Tools"))] = JObj [(js "name", JStr (js "Tools"))]
  /\ Routes.route_id (js "groups/7") = Some (Int 7)
  /\ exists query params,
       Routes.updateGroup_statement (Int 7)
         (JObj [(js "name", JStr (js "Tools"))]) = Some (query, params)
       /\ Forall (fun v => string_or_number v = true) params
       /\ placeholders query = length params.
Proof.
  apply (group_put_route_binds_strings_and_numbers (js "groups/7")
           (JObj [(js "name", JStr (js "Tools"))])
           (JObj [(js "name", JStr (js "Tools"))]) (Int 7)).
  reflexivity.
Defined.

(** *** The id of a row, from the client's endpoint to the route *)

Lemma radix_digit_decimal (d : Z) :
  0 <= d <= 9 -> radix_digit 10 (48 + d) = Some d.
Proof.
  intros Hd. unfold radix_digit, hex_value, is_digit.
  destruct (Z.leb_spec 48 (48 + d)); [|lia].
  destruct (Z.leb_spec (48 + d) 57); [|lia].
  cbn [andb mbind option_bind].
  replace (48 + d - 48) with d by lia.
  destruct (Z.ltb_spec d 10); [reflexivity|lia].
Qed.

Lemma radix_digit_other (c : Z) :
  is_digit c = false -> radix_digit 10 c = None.
Proof.
  intros Hc. unfold radix_digit, hex_value. rewrite Hc.
  destruct ((97 <=? c) && (c <=? 102)) eqn:E1.
  - cbn [mbind option_bind]. destruct (Z.ltb_spec (c - 87) 10); [lia|reflexivity].
  - destruct ((65 <=? c) && (c <=? 70)) eqn:E2; [|reflexivity].
    cbn [mbind option_bind]. destruct (Z.ltb_spec (c - 55) 10); [lia|reflexivity].
Qed.

Lemma take_radix_digits (ds : list Z) (tail : jsstring) :
  Forall (fun d => 0 <= d <= 9) ds -> ends_digits tail ->
  Routes.take_radix 10 (map (fun d => 48 + d) ds ++ tail) = ds.
Proof.
  intros Hds Ht. induction Hds as [|d r Hd _ IH].
  - destruct tail as [|c t]; [reflexivity|].
    cbn [map app Routes.take_radix]. rewrite (radix_digit_other c Ht).
    reflexivity.
  - cbn [map app Routes.take_radix]. rewrite (radix_digit_decimal d Hd), IH.
    reflexivity.
Qed.

(** [parseInt] on a text that starts with a digit, when the text does not
    start with the prefix of a hexadecimal literal. *)
Lemma parseInt_unsigned (c : Z) (t : jsstring) :
  is_digit c = true ->
  (c = 48 -> match t with x :: _ => x <> 120 /\ x <> 88 | [] => True end) ->
  Routes.parseInt (c :: t)
  = match Routes.take_radix 10 (c :: t) with
    | [] => None
    | ds => Some (Int (digits_value 10 ds))
    end.
Proof.
  intros Hc Hx. unfold is_digit in Hc. apply andb_true_iff in Hc as [H1 H2].
  assert (H : c = 48 \/ c = 49 \/ c = 50 \/ c = 51 \/ c = 52 \/ c = 53
              \/ c = 54 \/ c = 55 \/ c = 56 \/ c = 57) by lia.
  clear H1 H2.
  destruct H as [-> | H].
  - specialize (Hx eq_refl). destruct t as [|x t']; [reflexivity|].
    unfold Routes.parseInt. cbn [drop_while is_str_whitespace Z.leb Z.eqb
      Z.compare Pos.compare Pos.compare_cont andb orb Pos.eqb].
    destruct (Z.eqb_spec x 120); [lia|]. destruct (Z.eqb_spec x 88); [lia|].
    reflexivity.
  - repeat destruct H as [-> | H]; try subst c; reflexivity.
Qed.

Lemma parseInt_digits (n : Z) (tail : jsstring) :
  0 <= n -> ends_digits tail ->
  (n = 0 -> match tail with x :: _ => x <> 120 /\ x <> 88 | [] => True end) ->
  Routes.parseInt (digits_of n ++ tail) = Some (Int n).
Proof.
  intros Hn Ht Hx. rewrite digits_of_values.
  destruct (digit_values_head n) as (d & r & E & Hd).
  pose proof (digit_values_value n Hn) as Hv.
  pose proof (uint_values_range (N.to_uint (Z.to_N n))) as Hr.
  fold (digit_values n) in Hr. rewrite E in Hr, Hv |- *.
  pose proof Hr as Hr'. inversion_clear Hr' as [|? ? Hd0 _].
  cbn [map app]. rewrite parseInt_unsigned.
  - change (48 + d :: map (fun d => 48 + d) r ++ tail)
      with (map (fun d => 48 + d) (d :: r) ++ tail).
    rewrite (take_radix_digits (d :: r) tail Hr Ht), Hv. reflexivity.
  - unfold is_digit. apply andb_true_iff. split; lia.
  - intros H0. assert (d = 0) as -> by lia. rewrite (Hd eq_refl) in *.
    cbn [map app]. apply Hx. cbn in Hv. lia.
Qed.

Lemma digits_no_slash (n : Z) : Forall (fun c => c <> 47) (digits_of n).
Proof.
  rewrite digits_of_values. apply List.Forall_map.
  eapply List.Forall_impl; [|apply uint_values_range]. cbv beta. intros; lia.
Qed.

Lemma split_first (sep : Z) (a r : jsstring) :
  Forall (fun c => c <> sep) a ->
  exists seg segs,
    split sep (a ++ r) = (a ++ seg) :: segs
    /\ (seg = [] \/ exists c t t', seg = c :: t /\ r = c :: t').
Proof.
  intros Ha. induction Ha as [|x a' Hx _ (seg & segs & E & Hs)].
  - cbn [app]. destruct r as [|c r']; [exists [], []; auto|].
    cbn [split]. destruct (c =? sep); [exists [], (split sep r'); auto|].
    destruct (split sep r') as [|seg segs] eqn:Er;
      [destruct (split_not_nil _ _ Er)|].
    exists (c :: seg), segs. split; [reflexivity|]. right. eauto.
  - cbn [app split]. destruct (Z.eqb_spec x sep); [contradiction|].
    rewrite E. exists seg, segs. split; [reflexivity|exact Hs].
Qed.

(** The id [PUT groups/:id] and its like read from a path made of a
    collection name, a slash, digits, and a tail. *)
Lemma route_id_digits (collection : jsstring) (n : Z) (tail : jsstring) :
  Forall (fun c => c <> 47) collection ->
  0 <= n -> ends_digits tail ->
  (n = 0 -> match tail with x :: _ => x <> 120 /\ x <> 88 | [] => True end) ->
  Routes.route_id (collection ++ 47 :: digits_of n ++ tail) = Some (Int n).
Proof.
  intros Hc Hn Ht Hx. unfold Routes.route_id.
  rewrite (split_app_sep 47 collection _ Hc).
  destruct (split_first 47 (digits_of n) tail (digits_no_slash n))
    as (seg & segs & -> & Hs).
  cbn [lookup list_lookup].
  apply parseInt_digits; [exact Hn| |].
  - destruct Hs as [-> | (c & t & t' & -> & ->)]; [exact I|exact Ht].
  - intros H0. destruct Hs as [-> | (c & t & t' & -> & ->)];
      [exact I|exact (Hx H0)].
Qed.

(** X13.  The id of a row survives the trip from the browser to the
    worker: for an id that is a natural number below 2^53, the endpoint the
    client builds for a group or for a site is read by the route as
    exactly this id. *)
Theorem endpoint_id_reaches_route (n : Z) :
  0 <= n < 2 ^ 53 ->
  Routes.route_id (NavigationClient.group_endpoint (Int n)) = Some (Int n)
  /\ Routes.route_id (NavigationClient.site_endpoint (Int n)) = Some (Int n).
Proof.
  intros Hn.
  unfold NavigationClient.group_endpoint, NavigationClient.site_endpoint.
  rewrite (number_to_string_nat n) by lia.
  rewrite <- (app_nil_r (digits_of n)).
  split.
  - apply (route_id_digits (js "groups") n []);
      [repeat (constructor; [discriminate|]); constructor|lia|exact I|].
    intros _. exact I.
  - apply (route_id_digits (js "sites") n []);
      [repeat (constructor; [discriminate|]); constructor|lia|exact I|].
    intros _. exact I.
Qed.

Lemma endpoint_id_reaches_route_witness :
  Routes.route_id (NavigationClient.group_endpoint (Int 42)) = Some (Int 42)
  /\ Routes.route_id (NavigationClient.site_endpoint (Int 42)) = Some (Int 42).
Proof. apply (endpoint_id_reaches_route 42). lia. Defined.

(** X14.  The routes read an id leniently: in [PUT groups/:id] and its
    like, for an id below 2^53, whatever follows the leading digits of the
    second path segment is ignored, be it further text in the segment or
    further segments, as long as it does not start with a digit (nor, after
    a lone [0], with [x] or [X]): the path addresses the row with the id of
    the leading digits. *)
Theorem route_id_ignores_tail (n : Z) (tail : jsstring) :
  0 <= n < 2 ^ 53 -> ends_digits tail ->
  (n = 0 -> match tail with x :: _ => x <> 120 /\ x <> 88 | [] => True end) ->
  Routes.route_id (js "groups/" ++ digits_of n ++ tail) = Some (Int n)
  /\ Routes.route_id (js "sites/" ++ digits_of n ++ tail) = Some (Int n).
Proof.
  intros Hn Ht Hx. split.
  - apply (route_id_digits (js "groups") n tail);
      [repeat (constructor; [discriminate|]); constructor
      |lia|assumption|assumption].
  - apply (route_id_digits (js "sites") n tail);
      [repeat (constructor; [discriminate|]); constructor
      |lia|assumption|assumption].
Qed.

Lemma route_id_ignores_tail_witness :
  Routes.route_id (js "groups/" ++ digits_of 12 ++ js "abc/x") = Some (Int 12)
  /\ Routes.route_id (js "sites/" ++ digits_of 12 ++ js "abc/x") = Some (Int 12).
Proof.
  apply (route_id_ignores_tail 12 (js "abc/x")).
  - lia.
  - reflexivity.
  - intros H. discriminate H.
Defined.

(** *** A saved order, from the screen to the batch *)

Lemma order_json_text (p : Z * Z) :
  0 <= p.1 < 10 ^ 21 -> 0 <= p.2 < 10 ^ 21 ->
  JSON_stringify (order_of_pair p)
  = json_text "{'id':" ++ digits_of p.1
      ++ json_text ",'order_num':" ++ digits_of p.2 ++ json_text "}".
Proof.
  intros Ha Hb. unfold order_of_pair, order_json.
  rewrite <- (number_to_string_nat p.1), <- (number_to_string_nat p.2)
    by assumption.
  cbn [JSON_stringify map join fst snd]. unfold quote.
  rewrite <- !app_assoc. reflexivity.
Qed.

Lemma lex_order (p : Z * Z) out rest :
  0 <= p.1 < 10 ^ 21 -> 0 <= p.2 < 10 ^ 21 ->
  lex LTop out (JSON_stringify (order_of_pair p) ++ rest)
  = lex LTop (rev (order_tokens p) ++ out) rest.
Proof.
  intros Ha Hb. rewrite (order_json_text p Ha Hb), <- !app_assoc.
  change (lex LTop out
            (json_text "{'id':" ++ digits_of p.1
               ++ json_text ",'order_num':" ++ digits_of p.2
               ++ json_text "}" ++ rest))
    with (lex LTop (TColon :: TString (js "id") :: TLBrace :: out)
            (digits_of p.1 ++ 44 :: json_text "'order_num':" ++ digits_of p.2
               ++ json_text "}" ++ rest)).
  rewrite (lex_digits p.1 44 TComma) by reflexivity.
  match goal with
  | |- lex LTop ?o (json_text "'order_num':" ++ ?r) = _ =>
      change (lex LTop o (json_text "'order_num':" ++ r))
        with (lex LTop (TColon :: TString (js "order_num") :: o)
                (digits_of p.2 ++ 125 :: rest))
  end.
  rewrite (lex_digits p.2 125 TRBrace) by reflexivity.
  reflexivity.
Qed.

Lemma join_cons (sep x : jsstring) (r : list jsstring) :
  join sep (x :: r) = x ++ concat (map (fun y => sep ++ y) r).
Proof.
  revert x. induction r as [|y r IH]; intros x.
  - cbn. rewrite app_nil_r. reflexivity.
  - change (join sep (x :: y :: r)) with (x ++ sep ++ join sep (y :: r)).
    rewrite IH. cbn [map concat]. rewrite <- app_assoc. reflexivity.
Qed.

Lemma lex_more_orders (ps : list (Z * Z)) :
  Forall (fun p => 0 <= p.1 < 10 ^ 21 /\ 0 <= p.2 < 10 ^ 21) ps ->
  forall out rest,
    lex LTop out
      (concat (map (fun y => [44] ++ y)
                 (map (fun p => JSON_stringify (order_of_pair p)) ps)) ++ rest)
    = lex LTop
        (rev (concat (map (fun p => TComma :: order_tokens p) ps)) ++ out)
        rest.
Proof.
  induction 1 as [|p r [Ha Hb] _ IH]; intros out rest; [reflexivity|].
  cbn [map concat]. rewrite <- !app_assoc.
  change (lex LTop out ([44] ++ JSON_stringify (order_of_pair p) ++ ?x))
    with (lex LTop (TComma :: out) (JSON_stringify (order_of_pair p) ++ x)).
  rewrite (lex_order p _ _ Ha Hb), IH.
  f_equal. change (TComma :: order_tokens p ++ ?x)
    with ((TComma :: order_tokens p) ++ x).
  rewrite rev_app_distr, <- !app_assoc. reflexivity.
Qed.

Lemma prun_order (p : Z * Z) acc stk ts :
  0 <= p.1 -> 0 <= p.2 ->
  prun (PValue (FArr acc :: stk)) (order_tokens p ++ ts)
  = prun (PArrNext (order_of_pair p :: acc) stk) ts.
Proof.
  intros Ha Hb. unfold order_tokens.
  cbn [app prun pstep start_value complete mbind option_bind].
  rewrite (word_value_digits p.1 Ha).
  cbn [app prun pstep start_value complete mbind option_bind].
  rewrite (word_value_digits p.2 Hb).
  reflexivity.
Qed.

Lemma prun_more_orders (ps : list (Z * Z)) :
  Forall (fun p => 0 <= p.1 < 10 ^ 21 /\ 0 <= p.2 < 10 ^ 21) ps ->
  forall acc stk ts,
    prun (PArrNext acc stk)
      (concat (map (fun p => TComma :: order_tokens p) ps) ++ ts)
    = prun (PArrNext (rev (map order_of_pair ps) ++ acc) stk) ts.
Proof.
  induction 1 as [|p r [Ha Hb] _ IH]; intros acc stk ts; [reflexivity|].
  cbn [map concat]. rewrite <- app_assoc.
  change (prun (PArrNext acc stk) ((TComma :: order_tokens p) ++ ?x))
    with (prun (PValue (FArr acc :: stk)) (order_tokens p ++ x)).
  rewrite prun_order, IH by lia.
  cbn [rev]. rewrite <- app_assoc. reflexivity.
Qed.

(** [JSON.parse] reads back the orders the client puts. *)
Lemma JSON_parse_orders_body (ps : list (Z * Z)) :
  Forall (fun p => 0 <= p.1 < 10 ^ 21 /\ 0 <= p.2 < 10 ^ 21) ps ->
  JSON_parse (NavigationClient.orders_body (map order_of_pair ps))
  = Some (JArr (map order_of_pair ps)).
Proof.
  intros Hps. unfold NavigationClient.orders_body, JSON_parse.
  cbn [JSON_stringify]. rewrite map_map.
  destruct Hps as [|p r [Ha Hb] Hr]; [reflexivity|].
  cbn [map]. rewrite join_cons.
  change (lex LTop [] ([91] ++ ?x)) with (lex LTop [TLBracket] x).
  rewrite <- app_assoc, (lex_order p _ _ Ha Hb).
  rewrite (lex_more_orders r Hr).
  change (lex LTop ?o [93]) with (Some (rev (TRBracket :: o))).
  cbn [mbind option_bind rev].
  rewrite !rev_app_distr, !rev_involutive. cbn [rev app].
  rewrite <- !app_assoc.
  change (prun (PValue []) (TLBracket :: order_tokens p ++ ?x))
    with (prun (PValue [FArr []]) (order_tokens p ++ x)).
  rewrite prun_order by lia.
  rewrite (prun_more_orders r Hr).
  cbn [prun pstep complete mbind option_bind].
  rewrite rev_app_distr, rev_involutive. reflexivity.
Qed.

Lemma order_items_positions (ids : list Z) :
  order_items (map Int ids) = map order_of_pair (positions ids).
Proof.
  apply list_eq. intros i. unfold order_items, positions.
  rewrite list_lookup_imap, !lookup_map, list_lookup_imap.
  destruct (ids !! i); reflexivity.
Qed.

Lemma positions_bounds (ids : list Z) :
  Forall (fun id => 0 < id < 2 ^ 53) ids ->
  Z.of_nat (length ids) < 2 ^ 32 ->
  Forall (fun p => 0 <= p.1 < 10 ^ 21 /\ 0 <= p.2 < 10 ^ 21) (positions ids).
Proof.
  intros Hids Hlen. apply Forall_lookup. intros i p Hp.
  unfold positions in Hp. rewrite list_lookup_imap in Hp.
  destruct (ids !! i) as [id|] eqn:E; [|discriminate].
  injection Hp as <-. cbn [fst snd].
  pose proof (lookup_lt_Some _ _ _ E) as Hi.
  rewrite Forall_lookup in Hids. specialize (Hids i id E). cbv beta in Hids.
  assert (2 ^ 53 < 10 ^ 21) by reflexivity.
  assert (2 ^ 32 < 10 ^ 21) by reflexivity.
  lia.
Qed.

Lemma order_of_pair_acceptable (p : Z * Z) :
  p.1 <> 0 -> acceptable (order_of_pair p) = true.
Proof.
  intros Hp. unfold acceptable, order_of_pair, order_json, get.
  change (own_property (js "id")
            [(js "id", JNum (Int p.1)); (js "order_num", JNum (Int p.2))])
    with (Val (JNum (Int p.1))).
  change (own_property (js "order_num")
            [(js "id", JNum (Int p.1)); (js "order_num", JNum (Int p.2))])
    with (Val (JNum (Int p.2))).
  cbn [is_zero]. destruct (Z.eqb_spec p.1 0); [contradiction|reflexivity].
Qed.

Lemma orders_of_pairs (ps : list (Z * Z)) :
  mapM as_order_item (map order_of_pair ps)
  = Some (map (fun p => {| id := Int p.1; order_num := Int p.2 |}) ps).
Proof.
  induction ps as [|p r IH]; [reflexivity|].
  cbn [map mapM].
  change (as_order_item (order_of_pair p))
    with (Some {| id := Int p.1; order_num := Int p.2 |}).
  cbn [mbind option_bind]. rewrite IH. reflexivity.
Qed.

(** The order routes on the orders of the screen: the batch they hand to
    the database. *)
Lemma orders_route_positions
    (q : sql) (update : list OrderItem -> Handle -> Handle * bool)
    (o : outcome) (ts : Z) (ids : list Z) (db : Handle) :
  (forall orders h,
     update orders h
     = call_batch o ts
         (map (fun item => bind q (order_num item) (id item)) orders) h) ->
  Forall (fun id => 0 < id < 2 ^ 53) ids ->
  let reply := orders_route update (JArr (map order_of_pair (positions ids))) db in
  calls reply.1
  = calls db
      ++ [Batch (imap (fun index id => bind q (Int (Z.of_nat index)) (Int id))
                   ids)]
  /\ status reply.2 = 200.
Proof.
  intros Hupdate Hids reply. subst reply. unfold orders_route.
  assert (Hacc : items_accepted (map order_of_pair (positions ids)) = Some true).
  { apply items_accepted_true, List.Forall_map, Forall_lookup.
    intros i p Hp. apply order_of_pair_acceptable.
    unfold positions in Hp. rewrite list_lookup_imap in Hp.
    destruct (ids !! i) as [n|] eqn:E; [|discriminate].
    injection Hp as <-. cbn [fst].
    rewrite Forall_lookup in Hids. specialize (Hids i n E). cbv beta in Hids.
    lia. }
  rewrite Hacc, orders_of_pairs, Hupdate. unfold call_batch.
  destruct (batch o ts _ (store db)) as [db' ok]. cbn [fst snd calls status json_success].
  split; [|reflexivity]. do 2 f_equal. f_equal.
  apply list_eq. intros i. unfold positions.
  rewrite !lookup_map, !list_lookup_imap.
  destruct (ids !! i); reflexivity.
Qed.

(** X15.  A saved order, from the screen to the database.  For rows whose
    ids are positive integers below 2^53, in a list within the length of a
    JavaScript array, the body the client puts for the orders
    [handleSaveGroupOrder] and [handleSaveSiteOrder] build parses, the
    order routes accept it, answer with status 200, and hand the database
    exactly one batch: one [UPDATE] per row, in the order of the screen,
    that binds the position of the row on the screen, counted from zero, as
    its [order_num], and its id. *)
Theorem saved_order_reaches_batch
    (ids : list Z) (o : outcome) (ts : Z) (db : Handle) :
  Forall (fun id => 0 < id < 2 ^ 53) ids ->
  Z.of_nat (length ids) < 2 ^ 32 ->
  exists data,
    JSON_parse (NavigationClient.orders_body (order_items (map Int ids)))
    = Some data
    /\ calls (group_orders_route o ts data db).1
       = calls db
           ++ [Batch (imap (fun index id =>
                              bind UPDATE_groups_order
                                (Int (Z.of_nat index)) (Int id)) ids)]
    /\ status (group_orders_route o ts data db).2 = 200
    /\ calls (site_orders_route o ts data db).1
       = calls db
           ++ [Batch (imap (fun index id =>
                              bind UPDATE_sites_order
                                (Int (Z.of_nat index)) (Int id)) ids)]
    /\ status (site_orders_route o ts data db).2 = 200.
Proof.
  intros Hids Hlen. exists (JArr (map order_of_pair (positions ids))).
  split.
  - rewrite order_items_positions.
    apply JSON_parse_orders_body, positions_bounds; assumption.
  - destruct (orders_route_positions UPDATE_groups_order
                (updateGroupOrder o ts) o ts ids db) as [G1 G2];
      [reflexivity|exact Hids|].
    destruct (orders_route_positions UPDATE_sites_order
                (updateSiteOrder o ts) o ts ids db) as [S1 S2];
      [reflexivity|exact Hids|].
    unfold group_orders_route, site_orders_route. auto.
Qed.

Lemma saved_order_reaches_batch_witness :
  exists data,
    JSON_parse (NavigationClient.orders_body (order_items (map Int [2; 1; 3])))
    = Some data
    /\ calls (group_orders_route Commits 2000 data sample_db).1
       = calls sample_db
           ++ [Batch (imap (fun index id =>
                              bind UPDATE_groups_order
                                (Int (Z.of_nat index)) (Int id)) [2; 1; 3])]
    /\ status (group_orders_route Commits 2000 data sample_db).2 = 200
    /\ calls (site_orders_route Commits 2000 data sample_db).1
       = calls sample_db
           ++ [Batch (imap (fun index id =>
                              bind UPDATE_sites_order
                                (Int (Z.of_nat index)) (Int id)) [2; 1; 3])]
    /\ status (site_orders_route Commits 2000 data sample_db).2 = 200.
Proof.
  apply (saved_order_reaches_batch [2; 1; 3] Commits 2000 sample_db).
  - repeat (constructor; [lia|]). constructor.
  - reflexivity.
Defined.

(** *** [btoa] then [atob], and the login of the mock client *)

Lemma padding_spec (s : list Z) :
  (padding s <= 2)%nat /\ ((length (sextets s) + padding s) mod 4 = 0)%nat.
Proof.
  induction s as [| a | a b | a b c r [IH1 IH2]] using three_step_ind;
    try (cbn; lia).
  cbn [sextets padding length]. split; [exact IH1|].
  change (S (S (S (S (length (sextets r))))) + padding r)%nat
    with (4 + (length (sextets r) + padding r))%nat.
  rewrite <- Nat.Div0.add_mod_idemp_l. exact IH2.
Qed.

Lemma strip_padding_padded (body : jsstring) (pad : nat) :
  Forall (fun c => c <> 61) body -> (pad <= 2)%nat ->
  strip_padding (body ++ repeat 61 pad) = body.
Proof.
  intros Hb Hp.
  destruct pad as [|[|[|pad]]]; [| | |lia].
  - cbn [repeat]. rewrite app_nil_r. apply strip_padding_none, Hb.
  - unfold strip_padding. cbn [repeat]. rewrite rev_app_distr. cbn [rev app].
    destruct (rev body) as [|c r] eqn:E.
    + apply (f_equal (@rev Z)) in E. rewrite rev_involutive in E.
      rewrite E. reflexivity.
    + assert (Hc : c <> 61).
      { rewrite List.Forall_forall in Hb. apply Hb, in_rev. rewrite E.
        left. reflexivity. }
      rewrite <- (rev_involutive body), E.
      clear E Hb. destruct c as [|p|p]; try reflexivity.
      do 6 (try (destruct p as [p|p|]; try reflexivity)). contradiction.
  - unfold strip_padding. cbn [repeat]. rewrite rev_app_distr. cbn [rev app].
    apply rev_involutive.
Qed.

(** [atob] undoes [btoa]. *)
Lemma atob_btoa (x y : jsstring) : btoa x = Some y -> atob y = Some x.
Proof.
  unfold btoa. destruct (latin1 x) eqn:Hx; [|discriminate]. intros [= <-].
  pose proof (proj1 (latin1_Forall _) Hx) as Hb.
  pose proof (Forall_sextet _ (sextets_range _ Hb)) as Hs.
  destruct (padding_spec x) as [Hp Hl].
  rewrite b64_encode_sextets. set (idx := sextets x) in *.
  set (pad := padding x) in *.
  assert (Hne : Forall (fun c => c <> 61) (map b64_char idx)).
  { apply List.Forall_map. eapply List.Forall_impl; [|exact Hs].
    intros i Hi. apply (sextet_characters i Hi). }
  assert (Hf : List.filter (fun c => negb (is_ascii_whitespace c))
                 (map b64_char idx ++ repeat 61 pad)
               = map b64_char idx ++ repeat 61 pad).
  { rewrite List.filter_app. f_equal.
    - clear Hl Hne. induction Hs as [|i r Hi _ IH]; [reflexivity|].
      cbn [map List.filter].
      destruct (sextet_characters i Hi) as (_ & _ & _ & -> & _).
      cbn [negb]. rewrite IH. reflexivity.
    - clear. induction pad as [|n IH]; [reflexivity|].
      cbn [repeat List.filter]. rewrite IH. reflexivity. }
  assert (Hm : mapM b64_index (map b64_char idx) = Some idx).
  { clear Hl Hf Hne. induction Hs as [|i r Hi _ IH]; [reflexivity|].
    cbn [map mapM].
    destruct (sextet_characters i Hi) as (_ & _ & _ & _ & _ & ->).
    cbn [mbind option_bind]. rewrite IH. reflexivity. }
  unfold atob. rewrite Hf.
  replace (Z.of_nat (length (map b64_char idx ++ repeat 61 pad)) mod 4 =? 0)
    with true.
  2:{ symmetry. apply Z.eqb_eq.
      rewrite length_app, length_map, repeat_length.
      change 4 with (Z.of_nat 4). rewrite <- Nat2Z.inj_mod, Hl. reflexivity. }
  rewrite (strip_padding_padded _ pad Hne Hp), length_map.
  replace (Z.of_nat (length idx) mod 4 =? 1) with false.
  2:{ symmetry. apply Z.eqb_neq. intros E. apply (sextets_length x).
      apply Nat2Z.inj. rewrite Nat2Z.inj_mod. exact E. }
  rewrite Hm. cbn [mbind option_bind]. f_equal.
  apply (b64_decode_sextets x Hb).
Qed.

Lemma btoa_nonempty (x y : jsstring) : x <> [] -> btoa x = Some y -> y <> [].
Proof.
  intros Hx H ->. apply atob_btoa in H. vm_compute in H. congruence.
Qed.

(** X16.  The login of the mock client.  The comment says that in the mock
    environment any account can log in, but [login] throws for a user name
    with a code unit above U+00FF, at any time and for any password; for
    any other user name it succeeds, the client then holds a non-empty
    token, and [atob] of the token is the user name, a colon and the
    time. *)
Theorem mock_login_needs_latin1 (time : Z) (username : jsstring) :
  (latin1 username = false -> MockNavigationClient.login time username = None)
  /\ (latin1 username = true ->
      exists tok,
        MockNavigationClient.login time username = Some tok
        /\ NavigationClient.isLoggedIn (Some tok) = true
        /\ atob tok
           = Some (username ++ [58] ++ number_to_string (Int time))).
Proof.
  unfold MockNavigationClient.login. split; intros Hu.
  - unfold btoa. rewrite latin1_app, Hu. reflexivity.
  - destruct (btoa (username ++ [58] ++ number_to_string (Int time)))
      as [tok|] eqn:E.
    + exists tok. split; [reflexivity|]. split; [|exact (atob_btoa _ _ E)].
      assert (tok <> []) as Hne.
      { refine (btoa_nonempty _ _ _ E). destruct username; discriminate. }
      destruct tok; [contradiction|reflexivity].
    + exfalso. unfold btoa in E.
      rewrite !latin1_app, Hu, latin1_number_to_string in E. discriminate E.
Qed.

(** *** The rows of the mock client *)

Section MockRows.

Context {A : Type}.

Implicit Types (rows : list (MockNavigationClient.Row A)).
Implicit Types (g : MockNavigationClient.Row A).

Lemma findIndex_Some (p : MockNavigationClient.Row A -> bool) rows index :
  MockNavigationClient.findIndex p rows = Some index ->
  exists g, rows !! index = Some g /\ p g = true.
Proof.
  revert index. induction rows as [|x r IH]; intros index; [discriminate|].
  cbn [MockNavigationClient.findIndex]. destruct (p x) eqn:E.
  - intros [= <-]. exists x. split; [reflexivity|exact E].
  - destruct (MockNavigationClient.findIndex p r) as [k|]; [|discriminate].
    intros [= <-]. apply (IH k eq_refl).
Qed.




Lemma set_order_num_twice (o o' : number) g :
  MockNavigationClient.set_order_num o'
    (MockNavigationClient.set_order_num o g)
  = MockNavigationClient.set_order_num o' g.
Proof. reflexivity. Qed.

Lemma set_order_num_same g :
  MockNavigationClient.set_order_num (MockNavigationClient.row_order_num g) g
  = g.
Proof. destruct g. reflexivity. Qed.

(** One turn of the loop: a row stays, or it is the first row with the id
    of the order and takes its [order_num]. *)
Lemma apply_order_lookup rows (order : OrderItem) index g :
  rows !! index = Some g ->
  (MockNavigationClient.findIndex (MockNavigationClient.same_id (id order)) rows
   = Some index
   /\ MockNavigationClient.apply_order rows order !! index
      = Some (MockNavigationClient.set_order_num (order_num order) g))
  \/ (MockNavigationClient.findIndex
        (MockNavigationClient.same_id (id order)) rows <> Some index
      /\ MockNavigationClient.apply_order rows order !! index = Some g).
Proof.
  intros Hg. unfold MockNavigationClient.apply_order.
  destruct (MockNavigationClient.findIndex _ rows) as [k|] eqn:E.
  - destruct (decide (k = index)) as [->|Hk].
    + left. split; [reflexivity|].
      rewrite list_lookup_alter_eq, Hg. reflexivity.
    + right. split; [congruence|].
      rewrite list_lookup_alter_ne by exact Hk. exact Hg.
  - right. split; [discriminate|exact Hg].
Qed.


Lemma apply_order_length rows (order : OrderItem) :
  length (MockNavigationClient.apply_order rows order) = length rows.
Proof.
  unfold MockNavigationClient.apply_order.
  destruct (MockNavigationClient.findIndex _ rows); [|reflexivity].
  apply length_alter.
Qed.

(** X17.  What the reordering of the mock client leaves alone.
    [updateGroupOrder] and [updateSiteOrder] return [true] and neither add,
    remove nor move a row: every row keeps its place, its id, its time
    stamps and its other members, only its [order_num] may change; and a
    row whose id is the id of no order is left as it was. *)
Theorem mock_reorder_frame (orders : list OrderItem) rows :
  (MockNavigationClient.updateOrder orders rows).2 = true
  /\ length (MockNavigationClient.updateOrder orders rows).1 = length rows
  /\ forall index g,
       rows !! index = Some g ->
       (exists o,
          (MockNavigationClient.updateOrder orders rows).1 !! index
          = Some (MockNavigationClient.set_order_num o g))
       /\ ((forall order, In order orders ->
              MockNavigationClient.same_id (id order) g = false) ->
           (MockNavigationClient.updateOrder orders rows).1 !! index = Some g).
Proof.
  unfold MockNavigationClient.updateOrder. cbn [fst snd].
  split; [reflexivity|].
  revert rows. induction orders as [|order rest IH]; intros rows.
  - split; [reflexivity|]. intros index g Hg. split; [|intros _; exact Hg].
    exists (MockNavigationClient.row_order_num g).
    rewrite set_order_num_same. exact Hg.
  - cbn [fold_left].
    destruct (IH (MockNavigationClient.apply_order rows order)) as [Hl Hr].
    split; [rewrite Hl; apply apply_order_length|].
    intros index g Hg.
    destruct (apply_order_lookup rows order index g Hg) as [[Hf Hs] | [Hf Hs]].
    + destruct (Hr index _ Hs) as [[o Ho] _]. split.
      * exists o. rewrite Ho, set_order_num_twice. reflexivity.
      * intros Hnone. exfalso.
        destruct (findIndex_Some _ _ _ Hf) as (g' & Hg' & Hid).
        rewrite Hg in Hg'. injection Hg' as <-.
        rewrite (Hnone order (or_introl eq_refl)) in Hid. discriminate Hid.
    + destruct (Hr index _ Hs) as [Ho Hkeep]. split; [exact Ho|].
      intros Hnone. apply Hkeep. intros o Hin. apply Hnone. right. exact Hin.
Qed.



Lemma next_id_positive rows : 0 < MockNavigationClient.next_id rows.
Proof.
  unfold MockNavigationClient.next_id.
  induction rows as [|x r IH]; cbn [map fold_right]; lia.
Qed.

Lemma next_id_above rows g :
  In g rows ->
  default 0 (MockNavigationClient.row_id g) < MockNavigationClient.next_id rows.
Proof.
  unfold MockNavigationClient.next_id.
  induction rows as [|x r IH]; intros Hin; [destruct Hin|].
  cbn [map fold_right]. destruct Hin as [-> | Hin].
  - lia.
  - specialize (IH Hin). lia.
Qed.

(** X19.  The ids of the mock client.  [createGroup] and [createSite]
    append one row and leave the others as they are; while the ids of the
    rows are integers below 2^53, where adding one is exact, the id of the
    new row is positive and is the id of no other row, so that rows with
    distinct ids keep distinct ids. *)
Theorem mock_create_fresh_id (now : jsstring) (group : MockNavigationClient.Row A) rows :
  Forall (fun g => forall z, MockNavigationClient.row_id g = Some z ->
                             - 2 ^ 53 <= z < 2 ^ 53) rows ->
  exists z,
    (MockNavigationClient.create now group rows).1
    = rows ++ [(MockNavigationClient.create now group rows).2]
    /\ MockNavigationClient.row_id (MockNavigationClient.create now group rows).2
       = Some z
    /\ 0 < z <= 2 ^ 53
    /\ (forall g, In g rows -> MockNavigationClient.row_id g <> Some z)
    /\ (List.NoDup (map MockNavigationClient.row_id rows) ->
        List.NoDup
          (map MockNavigationClient.row_id
             (MockNavigationClient.create now group rows).1)).
Proof.
  intros Hsafe.
  exists (MockNavigationClient.next_id rows).
  unfold MockNavigationClient.create. cbn [fst snd MockNavigationClient.row_id].
  assert (Hbound : MockNavigationClient.next_id rows <= 2 ^ 53).
  { unfold MockNavigationClient.next_id.
    assert (fold_right Z.max 0
              (map (fun g => default 0 (MockNavigationClient.row_id g)) rows)
            < 2 ^ 53); [|lia].
    clear now group.
    induction Hsafe as [|g r Hg _ IH]; cbn [map fold_right]; [reflexivity|].
    assert (default 0 (MockNavigationClient.row_id g) < 2 ^ 53).
    { destruct (MockNavigationClient.row_id g) as [z|];
        [apply (Hg z eq_refl)|reflexivity]. }
    lia. }
  assert (Hfresh : forall g, In g rows ->
            MockNavigationClient.row_id g
            <> Some (MockNavigationClient.next_id rows)).
  { intros g Hin E. pose proof (next_id_above rows g Hin) as H.
    rewrite E in H. cbn in H. lia. }
  split; [reflexivity|]. split; [reflexivity|].
  split; [split; [apply next_id_positive|exact Hbound]|].
  split; [exact Hfresh|].
  intros Hnd. rewrite map_app. cbn [map MockNavigationClient.row_id].
  apply List.NoDup_app; [exact Hnd|repeat constructor; intros []|].
  intros x Hx [<- | []]. apply in_map_iff in Hx as (g & E & Hin).
  exact (Hfresh g Hin E).
Qed.

End MockRows.

Lemma mock_create_fresh_id_witness :
  exists z,
    (MockNavigationClient.create (js "2024-06-01T00:00:00.000Z")
       {| MockNavigationClient.row_id := None;
          MockNavigationClient.row_order_num := Int 3;
          MockNavigationClient.row_created_at := None;
          MockNavigationClient.row_updated_at := None;
          MockNavigationClient.row_fields := js "Tools" |}
       MockNavigationClient.mockGroups).1
    = MockNavigationClient.mockGroups
        ++ [(MockNavigationClient.create (js "2024-06-01T00:00:00.000Z")
               {| MockNavigationClient.row_id := None;
                  MockNavigationClient.row_order_num := Int 3;
                  MockNavigationClient.row_created_at := None;
                  MockNavigationClient.row_updated_at := None;
                  MockNavigationClient.row_fields := js "Tools" |}
               MockNavigationClient.mockGroups).2]
    /\ MockNavigationClient.row_id
         (MockNavigationClient.create (js "2024-06-01T00:00:00.000Z")
            {| MockNavigationClient.row_id := None;
               MockNavigationClient.row_order_num := Int 3;
               MockNavigationClient.row_created_at := None;
               MockNavigationClient.row_updated_at := None;
               MockNavigationClient.row_fields := js "Tools" |}
            MockNavigationClient.mockGroups).2
       = Some z
    /\ 0 < z <= 2 ^ 53
    /\ (forall g, In g MockNavigationClient.mockGroups ->
                  MockNavigationClient.row_id g <> Some z)
    /\ (List.NoDup
          (map MockNavigationClient.row_id MockNavigationClient.mockGroups) ->
        List.NoDup
          (map MockNavigationClient.row_id
             (MockNavigationClient.create (js "2024-06-01T00:00:00.000Z")
                {| MockNavigationClient.row_id := None;
                   MockNavigationClient.row_order_num := Int 3;
                   MockNavigationClient.row_created_at := None;
                   MockNavigationClient.row_updated_at := None;
                   MockNavigationClient.row_fields := js "Tools" |}
                MockNavigationClient.mockGroups).1)).
Proof.
  apply (mock_create_fresh_id (js "2024-06-01T00:00:00.000Z")
           {| MockNavigationClient.row_id := None;
              MockNavigationClient.row_order_num := Int 3;
              MockNavigationClient.row_created_at := None;
              MockNavigationClient.row_updated_at := None;
              MockNavigationClient.row_fields := js "Tools" |}
           MockNavigationClient.mockGroups).
  repeat (constructor; [intros z [= <-]; split; [lia|reflexivity]|]).
  constructor.
Defined.


(** *** [checkAuthStatus] *)

Lemma api_error_not_auth (status : Z) :
  100 <= status <= 999 -> status <> 401 ->
  NavigationClient.includes NavigationClient.auth_word
    (NavigationClient.api_error_message status)
  || NavigationClient.includes (NavigationClient.api_error_message 401)
       (NavigationClient.api_error_message status)
  = false.
Proof.
  intros Hs Hne.
  assert (H : forallb
                (fun status =>
                   (status =? 401)
                   || negb
                        (NavigationClient.includes NavigationClient.auth_word
                           (NavigationClient.api_error_message status)
                         || NavigationClient.includes
                              (NavigationClient.api_error_message 401)
                              (NavigationClient.api_error_message status)))
                (seqZ 100 900) = true).
  { vm_compute. reflexivity. }
  rewrite forallb_forall in H.
  specialize (H status ltac:(apply list_elem_of_In, elem_of_seqZ; lia)).
  destruct (Z.eqb_spec status 401); [contradiction|].
  cbn [orb] in H. apply negb_true_iff in H. exact H.
Qed.

(** X20.  What [checkAuthStatus] makes of a failure.  For a client that
    holds a token and a response to its request with a three-digit status:
    on 401 the token is dropped and the answer is [false]; on every other
    status, the error statuses 403, 404 and 500 included, the token is kept
    and the answer is [true]. *)
Theorem checkAuthStatus_only_401_logs_out (status : Z) (tok : jsstring) :
  tok <> [] -> 100 <= status <= 999 ->
  NavigationClient.checkAuthStatus (NavigationClient.request status) (Some tok)
  = if status =? 401 then (None, false) else (Some tok, true).
Proof.
  intros Htok Hs. unfold NavigationClient.checkAuthStatus.
  destruct tok as [|c tok]; [contradiction|]. cbn [missing].
  unfold NavigationClient.request, NavigationClient.request_settled.
  destruct (Z.eqb_spec status 401) as [->|Hne]; [reflexivity|].
  destruct ((200 <=? status) && (status <=? 299)); cbn [negb]; [reflexivity|].
  rewrite (api_error_not_auth status Hs Hne). reflexivity.
Qed.

Lemma checkAuthStatus_only_401_logs_out_witness :
  NavigationClient.checkAuthStatus (NavigationClient.request 500)
    (Some sample_token)
  = if 500 =? 401 then (None, false) else (Some sample_token, true).
Proof.
  apply (checkAuthStatus_only_401_logs_out 500 sample_token).
  - discriminate.
  - lia.
Defined.

(** *** A group, from the form to [createGroup] *)

Lemma group_body_text (name : jsstring) (n : Z) :
  0 <= n < 10 ^ 21 ->
  NavigationClient.group_body name (Int n)
  = json_text "{'name':" ++ quote name
      ++ json_text ",'order_num':" ++ digits_of n ++ json_text "}".
Proof.
  intros Hn. unfold NavigationClient.group_body.
  rewrite <- (number_to_string_nat n Hn).
  cbn [JSON_stringify map join fst snd]. unfold quote.
  rewrite <- !app_assoc. reflexivity.
Qed.

Lemma JSON_parse_group_body (name : jsstring) (n : Z) :
  Forall code_unit name -> 0 <= n < 10 ^ 21 ->
  JSON_parse (NavigationClient.group_body name (Int n))
  = Some (JObj [(js "name", JStr name); (js "order_num", JNum (Int n))]).
Proof.
  intros Hname Hn. rewrite (group_body_text name n Hn). unfold JSON_parse.
  change (lex LTop [] (json_text "{'name':" ++ quote name
                         ++ json_text ",'order_num':" ++ digits_of n
                         ++ json_text "}"))
    with (lex LTop [TColon; TString (js "name"); TLBrace]
            (quote name ++ json_text ",'order_num':" ++ digits_of n
               ++ json_text "}")).
  rewrite (lex_quoted name _ _ Hname).
  change (lex LTop [TString name; TColon; TString (js "name"); TLBrace]
            (json_text ",'order_num':" ++ digits_of n ++ json_text "}"))
    with (lex LTop [TColon; TString (js "order_num"); TComma; TString name;
                    TColon; TString (js "name"); TLBrace]
            (digits_of n ++ 125 :: [])).
  rewrite (lex_digits n 125 TRBrace) by reflexivity.
  cbn [lex rev app mbind option_bind prun pstep start_value complete].
  rewrite (word_value_digits n) by lia.
  reflexivity.
Qed.

(** X21.  A new group, from the form to [createGroup].  For a name of
    UTF-16 code units typed into the form while the screen shows [count]
    groups: [handleCreateGroup] sends nothing exactly when the name is
    empty; otherwise the body it posts parses and [POST groups] calls
    [createGroup] with [count] as the [order_num] and the name trimmed and
    cut to 100 code units.  A name of white space only passes both the
    check of the form and the validation of the worker, and the group is
    created with the empty name. *)
Theorem create_group_from_screen (name : jsstring) (count : Z) :
  Forall code_unit name -> 0 <= count < 2 ^ 32 ->
  match handleCreateGroup name count with
  | None => name = []
  | Some body =>
      exists data,
        JSON_parse body = Some data
        /\ Routes.group_post_route data
           = Routes.GroupCreate
               {| Routes.sanitized_name := Some (take 100 (trim name));
                  Routes.sanitized_order_num := Some (Int count) |}
        /\ (Forall (fun c => is_str_whitespace c = true) name ->
            Routes.group_post_route data
            = Routes.GroupCreate
                {| Routes.sanitized_name := Some [];
                   Routes.sanitized_order_num := Some (Int count) |})
  end.
Proof.
  intros Hname Hcount. unfold handleCreateGroup.
  destruct name as [|c0 r] eqn:En; [reflexivity|]. cbn [is_empty].
  rewrite <- En in *.
  exists (JObj [(js "name", JStr name); (js "order_num", JNum (Int count))]).
  assert (2 ^ 32 < 10 ^ 21) by reflexivity.
  split; [apply JSON_parse_group_body; [exact Hname|lia]|].
  assert (E : Routes.group_post_route
                (JObj [(js "name", JStr name);
                       (js "order_num", JNum (Int count))])
              = Routes.GroupCreate
                  {| Routes.sanitized_name := Some (take 100 (trim name));
                     Routes.sanitized_order_num := Some (Int count) |}).
  { apply (group_post_route_created name (Int count) c0 r En). }
  split; [exact E|].
  intros Hb. rewrite E, (trim_blank name Hb). reflexivity.
Qed.

Lemma create_group_from_screen_witness :
  match handleCreateGroup (js "  ") 3 with
  | None => js "  " = []
  | Some body =>
      exists data,
        JSON_parse body = Some data
        /\ Routes.group_post_route data
           = Routes.GroupCreate
               {| Routes.sanitized_name := Some (take 100 (trim (js "  ")));
                  Routes.sanitized_order_num := Some (Int 3) |}
        /\ (Forall (fun c => is_str_whitespace c = true) (js "  ") ->
            Routes.group_post_route data
            = Routes.GroupCreate
                {| Routes.sanitized_name := Some [];
                   Routes.sanitized_order_num := Some (Int 3) |})
  end.
Proof.
  apply (create_group_from_screen (js "  ") 3).
  - apply latin1_code_units. reflexivity.
  - split; [lia|reflexivity].
Defined.

(** *** Deleting a row of the mock client *)

Lemma findIndex_split {A : Type} (p : A -> bool) (l : list A) :
  match MockNavigationClient.findIndex p l with
  | Some index =>
      exists pre x post,
        l = pre ++ x :: post /\ length pre = index /\ p x = true
        /\ Forall (fun y => p y = false) pre
  | None => Forall (fun y => p y = false) l
  end.
Proof.
  induction l as [|x r IH]; cbn [MockNavigationClient.findIndex].
  - constructor.
  - destruct (p x) eqn:E.
    + exists [], x, r. repeat split; [exact E|constructor].
    + destruct (MockNavigationClient.findIndex p r) as [k|]; cbn [fmap option_fmap option_map].
      * destruct IH as (pre & y & post & -> & Hk & Hy & Hpre).
        exists (x :: pre), y, post. cbn [length app].
        repeat split; [congruence|exact Hy|constructor; assumption].
      * constructor; assumption.
Qed.

(** X22.  [deleteGroup] and [deleteSite] of the mock client remove exactly
    one row, the first whose id is the one given, keep all others in their
    order, and return [true]; when no row has the id they change nothing
    and return [false]. *)
Theorem mock_delete_first_match {A : Type}
    (i : number) (rows : list (MockNavigationClient.Row A)) :
  match MockNavigationClient.delete_row i rows with
  | (rows', true) =>
      exists pre g post,
        rows = pre ++ g :: post /\ rows' = pre ++ post
        /\ MockNavigationClient.same_id i g = true
        /\ Forall (fun x => MockNavigationClient.same_id i x = false) pre
  | (rows', false) =>
      rows' = rows
      /\ Forall (fun x => MockNavigationClient.same_id i x = false) rows
  end.
Proof.
  unfold MockNavigationClient.delete_row.
  pose proof (findIndex_split (MockNavigationClient.same_id i) rows) as H.
  destruct (MockNavigationClient.findIndex _ rows) as [index|].
  - destruct H as (pre & g & post & -> & <- & Hg & Hpre).
    exists pre, g, post. repeat split; try assumption.
    induction pre as [|x pre IH]; [reflexivity|].
    inversion_clear Hpre as [|? ? _ Hpre'].
    cbn [app length delete list_delete]. f_equal. apply (IH Hpre').
  - split; [reflexivity|exact H].
Qed.

(** *** A user name outside Latin-1 *)

(** [QuoteJSONString] leaves a character above U+00FF that is no surrogate
    as it is. *)
Lemma quote_chars_keeps_wide (c : Z) (n : nat) (s : jsstring) :
  255 < c -> is_high_surrogate c = false -> is_low_surrogate c = false ->
  (length s <= n)%nat -> In c s -> In c (quote_chars s).
Proof.
  intros Hc Hh Hl. revert s. induction n as [|n IH]; intros s Hlen Hin.
  { destruct s; [destruct Hin|simpl in Hlen; lia]. }
  destruct s as [|x r]; [destruct Hin|].
  assert (Hr : (length r <= n)%nat) by (simpl in Hlen; lia).
  assert (Hesc : forall y t, In c t -> In c (unicode_escape y ++ t))
    by (intros; apply in_or_app; right; assumption).
  destruct Hin as [-> | Hin].
  - cbn [quote_chars].
    repeat match goal with
           | |- context [if c =? ?k then _ else _] =>
               destruct (Z.eqb_spec c k); [lia|]
           end.
    destruct (Z.ltb_spec c 32); [lia|]. rewrite Hh, Hl. left. reflexivity.
  - cbn [quote_chars].
    repeat match goal with
           | |- context [if x =? ?k then _ else _] =>
               destruct (Z.eqb_spec x k);
               [right; right; apply (IH r Hr Hin)|]
           end.
    destruct (x <? 32); [apply Hesc, (IH r Hr Hin)|].
    destruct (is_high_surrogate x).
    + destruct r as [|l r']; [destruct Hin|].
      destruct (is_low_surrogate l) eqn:El; [|apply Hesc, (IH _ Hr Hin)].
      destruct Hin as [-> | Hin]; [congruence|].
      right. right. apply (IH r'); [simpl in Hr; lia|exact Hin].
    + destruct (is_low_surrogate x); [apply Hesc, (IH r Hr Hin)|].
      right. apply (IH r Hr Hin).
Qed.

Lemma latin1_In (s : jsstring) (c : Z) :
  latin1 s = true -> In c s -> 0 <= c <= 255.
Proof.
  intros H Hin. apply latin1_Forall in H.
  rewrite List.Forall_forall in H. exact (H c Hin).
Qed.

Lemma quote_wide_not_latin1 (c : Z) (s : jsstring) :
  255 < c -> is_high_surrogate c = false -> is_low_surrogate c = false ->
  In c s -> latin1 (quote s) = false.
Proof.
  intros Hc Hh Hl Hin. destruct (latin1 (quote s)) eqn:E; [|reflexivity].
  exfalso.
  assert (In c (quote s)) as Hq.
  { unfold quote. apply in_or_app. right. apply in_or_app. left.
    apply (quote_chars_keeps_wide c (length s) s Hc Hh Hl (le_n _) Hin). }
  pose proof (latin1_In _ _ E Hq). lia.
Qed.

Lemma generateToken_wide_identity this t1 t2 (c : Z) (identity : jsstring) :
  255 < c -> is_high_surrogate c = false -> is_low_surrogate c = false ->
  In c identity ->
  generateToken this t1 t2 [(js "username", JStr identity)] = None.
Proof.
  intros Hc Hh Hl Hin.
  destruct (generateToken this t1 t2 _) as [tok|] eqn:E; [|reflexivity].
  exfalso.
  destruct (proj1 (generateToken_succeeds_iff this t1 t2 _)
              (ex_intro _ tok E)) as [_ Ht].
  change (set_property (js "iat") (JNum (Int (t2 / 1000)))
            (set_property (js "exp") (JNum (Int (t1 / 1000 + 24 * 60 * 60)))
               [(js "username", JStr identity)]))
    with [(js "username", JStr identity);
          (js "exp", JNum (Int (t1 / 1000 + 86400)));
          (js "iat", JNum (Int (t2 / 1000)))] in Ht.
  cbn [JSON_stringify map join fst snd] in Ht.
  rewrite !latin1_app, (quote_wide_not_latin1 c identity Hc Hh Hl Hin) in Ht.
  rewrite ?andb_false_r, ?andb_false_l in Ht.
  repeat (rewrite ?andb_false_r in Ht; cbn [andb] in Ht).
  destruct (latin1 [123]), (latin1 (quote (js "username"))), (latin1 [58]);
    cbn in Ht; discriminate Ht.
Qed.

(** X23.  A user name outside Latin-1 locks the deployment.  With
    authentication enabled, when the configured user name holds a
    character above U+00FF that is no surrogate (a CJK character, say),
    [login] with the right user name and password throws, at every time and
    whatever the secret, and the login route answers the body the client
    posts for them with status 500. *)
Theorem login_throws_for_wide_user_name
    (api : API) (t1 t2 : Z) (c : Z) :
  authEnabled api = true ->
  In c (username api) ->
  255 < c -> is_high_surrogate c = false -> is_low_surrogate c = false ->
  Forall code_unit (username api) -> Forall code_unit (password api) ->
  password api <> [] ->
  login api t1 t2
    {| req_username := username api; req_password := password api |} = None
  /\ Routes.login_route api t1 t2
       (NavigationClient.login_body (username api) (password api))
     = Routes.LoginFailed.
Proof.
  intros Hen Hin Hc Hh Hl Hu Hp Hpne.
  assert (E : login api t1 t2
                {| req_username := username api; req_password := password api |}
              = None).
  { rewrite login_right_credentials by (exact Hen || reflexivity).
    cbn [req_username].
    rewrite (generateToken_wide_identity api t1 t2 c _ Hc Hh Hl Hin).
    reflexivity. }
  split; [exact E|].
  rewrite (login_route_on_client_body_eq api t1 t2 _ _ Hu Hp).
  destruct (username api) as [|u0 u] eqn:Eu; [destruct Hin|].
  destruct (password api) as [|p0 p] eqn:Ep; [contradiction|].
  cbn [is_empty orb]. rewrite E. reflexivity.
Qed.

Lemma login_throws_for_wide_user_name_witness :
  login {| authEnabled := true; username := [31649; 29702; 21592];
           password := js "pw"; secret := js "s3cret" |}
    1700000000123 1700000000123
    {| req_username := [31649; 29702; 21592]; req_password := js "pw" |} = None
  /\ Routes.login_route
       {| authEnabled := true; username := [31649; 29702; 21592];
          password := js "pw"; secret := js "s3cret" |}
       1700000000123 1700000000123
       (NavigationClient.login_body [31649; 29702; 21592] (js "pw"))
     = Routes.LoginFailed.
Proof.
  apply (login_throws_for_wide_user_name
           {| authEnabled := true; username := [31649; 29702; 21592];
              password := js "pw"; secret := js "s3cret" |}
           1700000000123 1700000000123 31649).
  - reflexivity.
  - left. reflexivity.
  - lia.
  - reflexivity.
  - reflexivity.
  - unfold code_unit. repeat (constructor; [lia|]). constructor.
  - apply latin1_code_units. reflexivity.
  - discriminate.
Defined.
